(** * Documentation Browser: knowledge groups, file import and chat orchestration

    A shallow embedding of the TypeScript sources
    - [App.tsx] (the orchestrator: the knowledge-group handlers,
      [handleSendMessage], [handleSuggestedQueryClick],
      [fetchAndSetInitialSuggestions], the two effects, [chatPlaceholder];
      and, of its other version, the API key kept in [localStorage]),
    - [components/KnowledgeBaseManager.tsx] ([handleAddUrl],
      [handleFileChange] with the reading of each file, [handleSaveApiKey],
      [activeGroupName]),
    - [components/ChatInterface.tsx] ([handleSend], the send button,
      [showSuggestions]),
    - [services/geminiService.ts] ([getInitialSuggestions],
      [generateContentWithUrlContext]),
    - [types.ts],
    followed by the properties of the specification that were checked on it
    and by further properties of the code.

    JavaScript strings are sequences of UTF-16 code units and are modelled as
    [list N]; arrays are lists; React state is an explicit record and a
    handler is a function on it.  An [async] handler is split at its [await]
    into the part that runs at the call and the part that runs when the
    awaited promise settles, and the component over time is a transition
    system whose events are the actions of the user and the settling of what
    is outstanding.  Libraries and built-ins that the sources call (the
    document extractors, the URL parser, [JSON.parse]) are parameters or
    models of their own. *)

From Stdlib Require Import String Ascii DecimalString.
From Stdlib Require Import List NArith ZArith Bool Lia.
Import ListNotations.

Set Implicit Arguments.
Set Warnings "-register-all".

(** ** JavaScript strings and arrays *)

Module Js.

Definition jsstring := list N.

(** A string literal of the source (ASCII only). *)
Definition js (s : string) : jsstring :=
  List.map N_of_ascii (list_ascii_of_string s).

(** [a === b] on strings. *)
Fixpoint eqb (a b : jsstring) : bool :=
  match a, b with
  | [], [] => true
  | x :: a', y :: b' => N.eqb x y && eqb a' b'
  | _, _ => false
  end.

(** A string is falsy exactly when it is empty. *)
Definition truthy (s : jsstring) : bool :=
  match s with [] => false | _ :: _ => true end.

(** [undefined], [null] and the empty string are falsy. *)
Definition truthy_opt (s : option jsstring) : bool :=
  match s with Some s' => truthy s' | None => false end.

(** [a || b] for a possibly missing string [a]. *)
Definition or_else (a : option jsstring) (b : jsstring) : jsstring :=
  match a with
  | Some (c :: s) => c :: s
  | _ => b
  end.

(** The code units that ECMAScript calls WhiteSpace or LineTerminator: what
    [String.prototype.trim] strips and what [\s] matches. *)
Definition is_whitespace (c : N) : bool :=
  ((9 <=? c) && (c <=? 13) || (c =? 32) || (c =? 160) || (c =? 5760)
   || (8192 <=? c) && (c <=? 8202) || (c =? 8232) || (c =? 8233)
   || (c =? 8239) || (c =? 8287) || (c =? 12288) || (c =? 65279))%N.

Fixpoint dropWhile (p : N -> bool) (s : jsstring) : jsstring :=
  match s with
  | [] => []
  | c :: s' => if p c then dropWhile p s' else s
  end.

Definition trimStart (s : jsstring) : jsstring := dropWhile is_whitespace s.

Definition trimEnd (s : jsstring) : jsstring :=
  rev (dropWhile is_whitespace (rev s)).

Definition trim (s : jsstring) : jsstring := trimEnd (trimStart s).

(** [`${n}`] for a non-negative integer. *)
Definition ofN (n : N) : jsstring := js (NilZero.string_of_uint (N.to_uint n)).

Definition ofNat (n : nat) : jsstring := ofN (N.of_nat n).

(** [parts.join(sep)]. *)
Fixpoint join (sep : jsstring) (parts : list jsstring) : jsstring :=
  match parts with
  | [] => []
  | [p] => p
  | p :: rest => p ++ sep ++ join sep rest
  end.

(** [s.split(sep)] for a one-unit separator: never empty. *)
Fixpoint split (sep : N) (s : jsstring) : list jsstring :=
  match s with
  | [] => [[]]
  | c :: s' =>
      match split sep s' with
      | [] => [[]]
      | p :: rest => if N.eqb c sep then [] :: p :: rest else (c :: p) :: rest
      end
  end.

(** [parts.pop()]: the last element, [undefined] on an empty array. *)
Fixpoint pop (A : Type) (l : list A) : option A :=
  match l with
  | [] => None
  | [x] => Some x
  | _ :: l' => pop l'
  end.

(** [toLowerCase] for strings of Basic Latin (ASCII) code units: the
    letters A to Z become a to z, the other units stay.  Code units outside
    Basic Latin are left as they are, where JavaScript lowers the cased
    letters among them; what is stated of a lower-cased value is stated of
    Basic Latin strings.  The comparisons of an extension with the literals
    of the sources are the same either way: the one code unit outside Basic
    Latin that lowers to a Basic Latin letter alone is the Kelvin sign, to
    k, and no literal of the sources contains a k. *)
Definition lower (c : N) : N :=
  if ((65 <=? c) && (c <=? 90))%N then (c + 32)%N else c.

Definition toLowerCase (s : jsstring) : jsstring := List.map lower s.

Fixpoint startsWith (prefix s : jsstring) : bool :=
  match prefix, s with
  | [], _ => true
  | p :: prefix', c :: s' => N.eqb p c && startsWith prefix' s'
  | _ :: _, [] => false
  end.

(** [s.includes(needle)] on strings. *)
Fixpoint includes (needle s : jsstring) : bool :=
  startsWith needle s ||
  match s with
  | [] => false
  | _ :: s' => includes needle s'
  end.

(** [s.substring(0, n)]. *)
Definition substring0 (n : nat) (s : jsstring) : jsstring := firstn n s.

(** [arr.includes(x)] on an array of strings. *)
Definition array_includes (arr : list jsstring) (x : jsstring) : bool :=
  existsb (eqb x) arr.

(** [arr.findIndex(p)]: the first index whose element satisfies [p], or -1. *)
Fixpoint findIndex (A : Type) (p : A -> bool) (arr : list A) : Z :=
  match arr with
  | [] => (-1)%Z
  | x :: arr' =>
      if p x then 0%Z
      else let i := findIndex p arr' in
           if (i <? 0)%Z then (-1)%Z else (i + 1)%Z
  end.

(** [arr.filter((x, index, self) => p x index self)]. *)
Fixpoint filter_from (A : Type) (p : A -> Z -> bool) (index : Z) (arr : list A)
  : list A :=
  match arr with
  | [] => []
  | x :: arr' =>
      if p x index then x :: filter_from p (index + 1) arr'
      else filter_from p (index + 1) arr'
  end.

Definition array_filter (A : Type) (p : A -> Z -> list A -> bool)
  (self : list A) : list A :=
  filter_from (fun x index => p x index self) 0%Z self.

(** [arr.find(p)]. *)
Definition array_find (A : Type) (p : A -> bool) (arr : list A) : option A :=
  List.find p arr.

End Js.

Import Js.

(** ** types.ts *)

Inductive MessageSender := USER | MODEL | SYSTEM.

Definition MessageSender_eqb (a b : MessageSender) : bool :=
  match a, b with
  | USER, USER | MODEL, MODEL | SYSTEM, SYSTEM => true
  | _, _ => false
  end.

Module UrlContextMetadataItem.
Record t := mk { retrievedUrl : jsstring; urlRetrievalStatus : jsstring }.
End UrlContextMetadataItem.

(** [timestamp] is the clock reading of [new Date()] in milliseconds;
    an optional field that is absent is [None]. *)
Module ChatMessage.
Record t := mk {
  id : jsstring;
  text : jsstring;
  sender : MessageSender;
  timestamp : N;
  isLoading : option bool;
  urlContext : option (list UrlContextMetadataItem.t);
  images : option (list jsstring)
}.
End ChatMessage.

Module ManagedFile.
Record t := mk { name : jsstring; content : jsstring }.
End ManagedFile.

Module KnowledgeGroup.
Record t := mk {
  id : jsstring;
  name : jsstring;
  urls : list jsstring;
  files : list ManagedFile.t
}.
End KnowledgeGroup.

Module AttachedImage.
Record t := mk { name : jsstring; dataUrl : jsstring; type : jsstring }.
End AttachedImage.

Module GeminiResponse.
(** [response.text] of the SDK may be [undefined]. *)
Record t := mk {
  text : option jsstring;
  urlContextMetadata : option (list UrlContextMetadataItem.t)
}.
End GeminiResponse.

(** ** Regular expressions

    The backtracking matcher of ECMAScript (22.2.2) in continuation-passing
    style, for the constructs the sources use.  A state is the position in
    the input (the number of code units before it and those after it) and
    the captures so far; alternatives are tried in priority order and the
    first that leads to success is the match. *)

Module Regex.

Inductive t :=
| Empty
| Chr (p : N -> bool)
| Seq (a b : t)
| Star (greedy : bool) (a : t)
| Opt (a : t)
| Group (i : nat) (a : t)
| Bol
| Eol.

Record State := {
  pos : nat;
  rest : jsstring;
  captures : list (nat * jsstring)
}.

Definition Cont := State -> option State.

Definition advance (x : State) (s : jsstring) : State :=
  {| pos := S (pos x); rest := s; captures := captures x |}.

Definition capture (i : nat) (x y : State) : State :=
  {| pos := pos y; rest := rest y;
     captures := (i, firstn (pos y - pos x) (rest x)) :: captures y |}.

(** An iteration of a quantified atom that consumed nothing is refused
    (RepeatMatcher, step 2.b). *)
Definition progressed (x : State) (k : Cont) : Cont :=
  fun y => if pos y =? pos x then None else k y.

Definition or_try (first : option State) (second : unit -> option State)
  : option State :=
  match first with
  | Some z => Some z
  | None => second tt
  end.

(** The iterations of [a*] and [a*?], [body] being the matcher of [a].  No
    iteration may consume nothing, so there are at most as many as code
    units are left: [fuel] is that number. *)
Fixpoint star (body : State -> Cont -> option State) (greedy : bool)
  (k : Cont) (fuel : nat) (x : State) {struct fuel} : option State :=
  match fuel with
  | O => k x
  | S fuel' =>
      if greedy then
        or_try (body x (progressed x (star body greedy k fuel')))
          (fun _ => k x)
      else
        or_try (k x)
          (fun _ => body x (progressed x (star body greedy k fuel')))
  end.

Fixpoint m (r : t) (x : State) (k : Cont) {struct r} : option State :=
  match r with
  | Empty => k x
  | Chr p =>
      match rest x with
      | c :: s => if p c then k (advance x s) else None
      | [] => None
      end
  | Seq a b => m a x (fun y => m b y k)
  | Star greedy a => star (m a) greedy k (length (rest x)) x
  | Opt a => or_try (m a x (progressed x k)) (fun _ => k x)
  | Group i a => m a x (fun y => k (capture i x y))
  | Bol => if pos x =? 0 then k x else None
  | Eol => match rest x with [] => k x | _ :: _ => None end
  end.

(** [regex.exec(s)] for a regex without the [g] and [y] flags: the first
    start index, from 0 on, at which the pattern matches. *)
Fixpoint exec_from (r : t) (i : nat) (s : jsstring) : option State :=
  match m r {| pos := i; rest := s; captures := [] |} Some with
  | Some y => Some y
  | None =>
      match s with
      | [] => None
      | _ :: s' => exec_from r (S i) s'
      end
  end.

(** [s.match(r)]; [group i] of the result is [match[i]]. *)
Definition exec (r : t) (s : jsstring) : option State := exec_from r 0 s.

Fixpoint lookup (i : nat) (caps : list (nat * jsstring)) : option jsstring :=
  match caps with
  | [] => None
  | (j, s) :: caps' => if j =? i then Some s else lookup i caps'
  end.

Definition group (i : nat) (y : State) : option jsstring :=
  lookup i (captures y).

Fixpoint literal (s : jsstring) : t :=
  match s with
  | [] => Empty
  | c :: s' => Seq (Chr (N.eqb c)) (literal s')
  end.

(** [\w]: the letters, the digits and the underscore. *)
Definition is_word (c : N) : bool :=
  ((48 <=? c) && (c <=? 57) || (65 <=? c) && (c <=? 90) || (c =? 95)
   || (97 <=? c) && (c <=? 122))%N.

(** [.] under the [s] flag. *)
Definition any (c : N) : bool := true.

Definition newline (c : N) : bool := (c =? 10)%N.

End Regex.

(** ** JSON

    The built-in [JSON.parse] and [JSON.stringify] on the grammar of
    ECMA-404.  A number keeps its literal: the sources only ask whether a
    parsed value is a string or an array. *)

Module JSON.

Inductive value :=
| Null
| Bool (b : bool)
| Number (literal : jsstring)
| Str (s : jsstring)
| Array (items : list value)
| Object (members : list (jsstring * value)).

Definition is_ws (c : N) : bool :=
  ((c =? 32) || (c =? 9) || (c =? 10) || (c =? 13))%N.

Definition skip_ws (s : jsstring) : jsstring := dropWhile is_ws s.

Definition is_digit (c : N) : bool := ((48 <=? c) && (c <=? 57))%N.

Definition hex_value (c : N) : option N :=
  if is_digit c then Some (c - 48)%N
  else if ((65 <=? c) && (c <=? 70))%N then Some (c - 55)%N
  else if ((97 <=? c) && (c <=? 102))%N then Some (c - 87)%N
  else None.

(** The characters of a string after its opening quote, up to and
    including the closing one. *)
Fixpoint parse_chars (fuel : nat) (s : jsstring) (acc : jsstring)
  : option (jsstring * jsstring) :=
  match fuel with
  | O => None
  | S fuel' =>
      match s with
      | [] => None
      | 34%N :: s' => Some (rev acc, s')
      | 92%N :: e :: s' =>
          if (e =? 34)%N then parse_chars fuel' s' (34%N :: acc)
          else if (e =? 92)%N then parse_chars fuel' s' (92%N :: acc)
          else if (e =? 47)%N then parse_chars fuel' s' (47%N :: acc)
          else if (e =? 98)%N then parse_chars fuel' s' (8%N :: acc)
          else if (e =? 102)%N then parse_chars fuel' s' (12%N :: acc)
          else if (e =? 110)%N then parse_chars fuel' s' (10%N :: acc)
          else if (e =? 114)%N then parse_chars fuel' s' (13%N :: acc)
          else if (e =? 116)%N then parse_chars fuel' s' (9%N :: acc)
          else if (e =? 117)%N then
            match s' with
            | a :: b :: c :: d :: s'' =>
                match hex_value a, hex_value b, hex_value c, hex_value d with
                | Some a', Some b', Some c', Some d' =>
                    parse_chars fuel' s''
                      ((a' * 4096 + b' * 256 + c' * 16 + d')%N :: acc)
                | _, _, _, _ => None
                end
            | _ => None
            end
          else None
      | c :: s' =>
          if (c <? 32)%N then None else parse_chars fuel' s' (c :: acc)
      end
  end.

Definition take_digits (s : jsstring) : jsstring * jsstring :=
  (firstn (length s - length (dropWhile is_digit s)) s, dropWhile is_digit s).

(** An optional minus sign, an integer part without a leading zero, an
    optional fraction and an optional exponent. *)
Definition parse_number (s : jsstring) : option (jsstring * jsstring) :=
  let (sign, s1) :=
    match s with 45%N :: r => ([45%N], r) | _ => ([], s) end in
  let (int, s2) :=
    match s1 with
    | 48%N :: r => ([48%N], r)
    | _ => take_digits s1
    end in
  match int with
  | [] => None
  | _ :: _ =>
      let frac :=
        match s2 with
        | 46%N :: r =>
            match take_digits r with
            | ([], _) => None
            | (ds, r') => Some (46%N :: ds, r')
            end
        | _ => Some ([], s2)
        end in
      match frac with
      | None => None
      | Some (fr, s3) =>
          let exponent :=
            match s3 with
            | e :: r =>
                if ((e =? 101) || (e =? 69))%N then
                  let (esign, r1) :=
                    match r with
                    | c :: r' =>
                        if ((c =? 43) || (c =? 45))%N then ([c], r')
                        else ([], r)
                    | [] => ([], r)
                    end in
                  match take_digits r1 with
                  | ([], _) => None
                  | (ds, r2) => Some (e :: esign ++ ds, r2)
                  end
                else Some ([], s3)
            | [] => Some ([], s3)
            end in
          match exponent with
          | None => None
          | Some (ex, s4) => Some (sign ++ int ++ fr ++ ex, s4)
          end
      end
  end.

Fixpoint parse_value (fuel : nat) (s : jsstring) {struct fuel}
  : option (value * jsstring) :=
  match fuel with
  | O => None
  | S fuel' =>
      match skip_ws s with
      | 123%N :: r =>
          match skip_ws r with
          | 125%N :: r' => Some (Object [], r')
          | r' =>
              match parse_members fuel' r' with
              | Some (ms, r'') => Some (Object ms, r'')
              | None => None
              end
          end
      | 91%N :: r =>
          match skip_ws r with
          | 93%N :: r' => Some (Array [], r')
          | r' =>
              match parse_elements fuel' r' with
              | Some (vs, r'') => Some (Array vs, r'')
              | None => None
              end
          end
      | 34%N :: r =>
          match parse_chars (S (length r)) r [] with
          | Some (str, r') => Some (Str str, r')
          | None => None
          end
      | 116%N :: 114%N :: 117%N :: 101%N :: r => Some (Bool true, r)
      | 102%N :: 97%N :: 108%N :: 115%N :: 101%N :: r => Some (Bool false, r)
      | 110%N :: 117%N :: 108%N :: 108%N :: r => Some (Null, r)
      | r =>
          match parse_number r with
          | Some (lit, r') => Some (Number lit, r')
          | None => None
          end
      end
  end

with parse_elements (fuel : nat) (s : jsstring) {struct fuel}
  : option (list value * jsstring) :=
  match fuel with
  | O => None
  | S fuel' =>
      match parse_value fuel' s with
      | Some (v, r) =>
          match skip_ws r with
          | 44%N :: r' =>
              match parse_elements fuel' r' with
              | Some (vs, r'') => Some (v :: vs, r'')
              | None => None
              end
          | 93%N :: r' => Some ([v], r')
          | _ => None
          end
      | None => None
      end
  end

with parse_members (fuel : nat) (s : jsstring) {struct fuel}
  : option (list (jsstring * value) * jsstring) :=
  match fuel with
  | O => None
  | S fuel' =>
      match skip_ws s with
      | 34%N :: r =>
          match parse_chars (S (length r)) r [] with
          | Some (key, r1) =>
              match skip_ws r1 with
              | 58%N :: r2 =>
                  match parse_value fuel' r2 with
                  | Some (v, r3) =>
                      match skip_ws r3 with
                      | 44%N :: r4 =>
                          match parse_members fuel' r4 with
                          | Some (ms, r5) => Some ((key, v) :: ms, r5)
                          | None => None
                          end
                      | 125%N :: r4 => Some ([(key, v)], r4)
                      | _ => None
                      end
                  | None => None
                  end
              | _ => None
              end
          | None => None
          end
      | _ => None
      end
  end.

(** [JSON.parse(text)]: [None] when it throws a [SyntaxError]. *)
Definition parse (text : jsstring) : option value :=
  match parse_value (2 * length text + 2) text with
  | Some (v, r) =>
      match skip_ws r with
      | [] => Some v
      | _ :: _ => None
      end
  | None => None
  end.

(** [obj[key]] of a parsed value: the last member of that name of an
    object, [undefined] for anything else. *)
Fixpoint last_member (key : jsstring) (ms : list (jsstring * value))
  : option value :=
  match ms with
  | [] => None
  | (k, v) :: ms' =>
      match last_member key ms' with
      | Some v' => Some v'
      | None => if eqb k key then Some v else None
      end
  end.

Definition get (key : jsstring) (v : value) : option value :=
  match v with
  | Object ms => last_member key ms
  | _ => None
  end.

Definition hex_digit (n : N) : N :=
  if (n <? 10)%N then (48 + n)%N else (87 + n)%N.

Definition quote_unit (c : N) : jsstring :=
  if (c =? 34)%N then [92; 34]%N
  else if (c =? 92)%N then [92; 92]%N
  else if (c =? 8)%N then [92; 98]%N
  else if (c =? 12)%N then [92; 102]%N
  else if (c =? 10)%N then [92; 110]%N
  else if (c =? 13)%N then [92; 114]%N
  else if (c =? 9)%N then [92; 116]%N
  else if (c <? 32)%N then
    [92; 117; 48; 48; hex_digit (c / 16); hex_digit (c mod 16)]%N
  else [c].

Definition quote (s : jsstring) : jsstring :=
  [34%N] ++ List.flat_map quote_unit s ++ [34%N].

(** [JSON.stringify(v)] without indentation. *)
Fixpoint stringify (v : value) : jsstring :=
  match v with
  | Null => js "null"
  | Bool true => js "true"
  | Bool false => js "false"
  | Number lit => lit
  | Str s => quote s
  | Array items =>
      [91%N] ++ join [44%N] (List.map stringify items) ++ [93%N]
  | Object members =>
      [123%N]
      ++ join [44%N]
           (List.map (fun kv => quote (fst kv) ++ [58%N] ++ stringify (snd kv))
              members)
      ++ [125%N]
  end.

End JSON.

(** ** services/geminiService.ts *)

Module GeminiService.

(** What [generateContent] is called with.  The safety settings are a
    constant of the module and are left out. *)
Record Request := {
  model : jsstring;
  promptText : jsstring;
  responseMimeType : option jsstring
}.

(** The value a failed SDK call throws, as the [catch] block reads it:
    whether it is an [Error], and its [message]. *)
Record Thrown := { instanceofError : bool; message : jsstring }.

(** An [async] function of the service: it returns, throws
    [new Error(message)], or awaits one [generateContent] call and goes on
    with what the call throws or returns ([response.text]). *)
Inductive Async (A : Type) :=
| Return (a : A)
| Throw (message : jsstring)
| GenerateContent (request : Request)
    (k : Thrown + option jsstring -> Async A).

Arguments Return {A} a.
Arguments Throw {A} message.
Arguments GenerateContent {A} request k.

(** [getAiInstance]: throws when [API_KEY] is falsy. *)
Definition getAiInstance (API_KEY : option jsstring) : option jsstring :=
  if truthy_opt API_KEY then None
  else Some (js "Gemini API Key not configured. Set process.env.API_KEY.").

Definition dq : jsstring := [34%N].

Definition suggestionsPrompt (urls : list jsstring)
  (files : list ManagedFile.t) : jsstring :=
  let urlList :=
    if 0 <? length urls
    then [10%N] ++ js "Relevant URLs:" ++ [10%N] ++ join [10%N] urls
    else [] in
  let filePreamble :=
    if 0 <? length files
    then [10%N] ++ js "File Contents:" ++ [10%N]
         ++ join [10%N]
              (List.map (fun f =>
                 js "File: " ++ ManagedFile.name f ++ [10%N]
                 ++ js "Content: " ++ substring0 500 (ManagedFile.content f)
                 ++ js "...") files)
    else [] in
  js "Based on the content of the following documentation URLs and/or file contents, provide 3-4 concise and actionable questions a developer might ask to explore these documents. These questions should be suitable as quick-start prompts. Return ONLY a JSON object with a key "
  ++ dq ++ js "suggestions" ++ dq
  ++ js " containing an array of these question strings. For example: {"
  ++ dq ++ js "suggestions" ++ dq ++ js ": ["
  ++ dq ++ js "What are the rate limits?" ++ dq ++ js ", "
  ++ dq ++ js "How do I get an API key?" ++ dq ++ js ", "
  ++ dq ++ js "Explain model X." ++ dq ++ js "]}"
  ++ [10%N] ++ urlList ++ [10%N] ++ filePreamble.

Definition getInitialSuggestions (API_KEY : option jsstring)
  (urls : list jsstring) (files : list ManagedFile.t) (modelName : jsstring)
  : Async GeminiResponse.t :=
  if (length urls =? 0) && (length files =? 0) then
    Return (GeminiResponse.mk
              (Some (JSON.stringify
                       (JSON.Object
                          [(js "suggestions",
                            JSON.Array
                              [JSON.Str
                                 (js "Add URLs or import files to get suggestions.")])])))
              None)
  else
    match getAiInstance API_KEY with
    | Some message => Throw message
    | None =>
        GenerateContent
          {| model := modelName;
             promptText := suggestionsPrompt urls files;
             responseMimeType := Some (js "application/json") |}
          (fun outcome =>
             match outcome with
             | inr text => Return (GeminiResponse.mk text None)
             | inl error =>
                 if instanceofError error then
                   if truthy (message error)
                      && includes (js "API key not valid") (message error)
                   then Throw (js "Invalid API Key for suggestions. Please check your GEMINI_API_KEY environment variable.")
                   else if truthy (message error)
                           && includes (js "Tool use with a response mime type: 'application/json' is unsupported") (message error)
                   then Throw (js "Configuration error: Cannot use tools with JSON response type for suggestions. This should be fixed in the code.")
                   else Throw (js "Failed to get initial suggestions from AI: "
                               ++ message error)
                 else Throw (js "Failed to get initial suggestions from AI due to an unknown error.")
             end)
    end.

(** *** [generateContentWithUrlContext] *)

(** A [Part] of the request: a text, or the inline data of an image, whose
    [data] is [undefined] when the data URL has no comma. *)
Inductive Part :=
| text_part (text : jsstring)
| inlineData (mimeType : jsstring) (data : option jsstring).

(** The one tool the service asks for: [{ urlContext: {} }]. *)
Inductive Tool := urlContext.

(** What this function calls [generateContent] with: the model, the parts
    of the one [Content] (of role "user") and the tools. *)
Record ContentRequest := {
  content_model : jsstring;
  parts : list Part;
  tools : list Tool
}.

(** What the [catch] block reads of the value thrown: whether it is an
    [Error], its [message] and its [type] (of the SDK's own errors). *)
Record ContentThrown := {
  isError : bool;
  error_message : jsstring;
  error_type : option jsstring
}.

(** What the [try] block reads of the SDK's response: [response.text] and,
    of each candidate, its [urlContextMetadata] (absent or an object) and
    the [urlMetadata] of that object (absent or an array). *)
Record UrlContextMetadata := {
  urlMetadata : option (list UrlContextMetadataItem.t)
}.

Record Candidate := { urlContextMetadata : option UrlContextMetadata }.

Record ContentResponse := {
  response_text : option jsstring;
  candidates : option (list Candidate)
}.

(** The function as a computation: it resolves, rejects with
    [new Error(message)], or awaits the one SDK call and goes on with what
    the call throws or returns. *)
Inductive AsyncContent (A : Type) :=
| Resolve (a : A)
| Reject (message : jsstring)
| AwaitGenerateContent (request : ContentRequest)
    (k : ContentThrown + ContentResponse -> AsyncContent A).

Arguments Resolve {A} a.
Arguments Reject {A} message.
Arguments AwaitGenerateContent {A} request k.

(** The local [fullPrompt] once both [if]s have run. *)
Definition fullPrompt (prompt : jsstring) (urls : list jsstring)
  (files : list ManagedFile.t) : jsstring :=
  let fullPrompt :=
    if 0 <? length files then
      let filePreamble :=
        join [10; 10]%N
          (List.map (fun f =>
             js "Content from file " ++ dq ++ ManagedFile.name f ++ dq
             ++ js ":" ++ [10%N] ++ js "---" ++ [10%N]
             ++ ManagedFile.content f ++ [10%N] ++ js "---" ++ [10%N]) files)
      in
      js "Based on the following file contents, answer the user's query."
      ++ [10; 10]%N ++ filePreamble ++ [10; 10]%N ++ js "User Query: "
      ++ prompt
    else prompt in
  if 0 <? length urls then
    let urlList := join [10%N] urls in
    fullPrompt ++ [10; 10]%N
    ++ js "Additionally, use these URLs for context:" ++ [10%N] ++ urlList
  else fullPrompt.

Definition generateContentWithUrlContext (API_KEY : option jsstring)
  (prompt : jsstring) (urls : list jsstring) (files : list ManagedFile.t)
  (modelName : jsstring) (images : list AttachedImage.t)
  : AsyncContent GeminiResponse.t :=
  match getAiInstance API_KEY with
  | Some message => Reject message
  | None =>
      let fullPrompt := fullPrompt prompt urls files in
      let parts :=
        (if truthy (trim fullPrompt) then [text_part fullPrompt] else [])
        ++ List.map (fun image =>
             inlineData (AttachedImage.type image)
               (nth_error (split 44 (AttachedImage.dataUrl image)) 1))
             images in
      let tools := if 0 <? length urls then [urlContext] else [] in
      AwaitGenerateContent
        {| content_model := modelName; parts := parts; tools := tools |}
        (fun outcome =>
           match outcome with
           | inr response =>
               let candidate :=
                 match candidates response with
                 | Some (c :: _) => Some c
                 | _ => None
                 end in
               let extractedUrlContextMetadata :=
                 match candidate with
                 | Some c =>
                     match urlContextMetadata c with
                     | Some metadata => urlMetadata metadata
                     | None => None
                     end
                 | None => None
                 end in
               Resolve (GeminiResponse.mk (response_text response)
                          extractedUrlContextMetadata)
           | inl error =>
               if isError error then
                 if truthy (error_message error)
                    && includes (js "API key not valid") (error_message error)
                 then Reject (js "Invalid API Key. Please check your GEMINI_API_KEY environment variable.")
                 else if truthy (error_message error)
                         && includes (js "quota") (error_message error)
                 then Reject (js "API quota exceeded. Please check your Gemini API quota.")
                 else if match error_type error with
                         | Some t => eqb t (js "GoogleGenAIError")
                         | None => false
                         end
                         && truthy (error_message error)
                 then Reject (js "Gemini API Error: " ++ error_message error)
                 else Reject (js "Failed to get response from AI: "
                              ++ error_message error)
               else Reject (js "Failed to get response from AI due to an unknown error.")
           end)
  end.

End GeminiService.

(** ** components/KnowledgeBaseManager.tsx: file import *)

Module KnowledgeBaseManager.

(** A browser [File]: its name, its bytes, and whether the [FileReader]
    manages to read it ([onload]) or not ([onerror]). *)
Module File.
Record t := mk { name : jsstring; bytes : list N; readable : bool }.
End File.

(** The libraries the component calls.  [None] and [inl] stand for a thrown
    exception.
    - [readAsText]: the text decoding of [FileReader.readAsText];
    - [mammoth_extractRawText]: the [value] of [mammoth.extractRawText];
    - [XLSX_read]: [XLSX.read] followed by [XLSX.utils.sheet_to_json] with
      [header: 1] for every sheet name: the sheets in order, each with its
      rows of cells as [join] prints them;
    - [pdf_pages]: [pdfjsLib.getDocument], [getPage] and [getTextContent]:
      per page, the [str] of each item ([None] for an item without one), or
      the message of the error thrown. *)
Record Extractors := {
  readAsText : list N -> jsstring;
  mammoth_extractRawText : list N -> option jsstring;
  XLSX_read : list N -> option (list (jsstring * list (list jsstring)));
  pdf_pages : list N -> jsstring + list (list (option jsstring))
}.

Inductive FileContent :=
| ArrayBuffer (b : list N)
| Text (s : jsstring).

(** An [ArrayBuffer] is an object and so truthy; a string is truthy when
    it is not empty. *)
Definition content_truthy (c : FileContent) : bool :=
  match c with
  | ArrayBuffer _ => true
  | Text s => truthy s
  end.

Definition as_string (c : FileContent) : jsstring :=
  match c with Text s => s | ArrayBuffer _ => [] end.

Definition as_buffer (c : FileContent) : list N :=
  match c with ArrayBuffer b => b | Text _ => [] end.

(** The outcome of one of the [readPromises]. *)
Inductive Settled :=
| fulfilled (value : ManagedFile.t)
| rejected (message : jsstring).

(** [file.name.split('.').pop()?.toLowerCase()]. *)
Definition fileExtension (file : File.t) : option jsstring :=
  option_map toLowerCase (pop (split 46 (File.name file))).

Definition xlsxText (workbook : list (jsstring * list (list jsstring)))
  : jsstring :=
  List.fold_left (fun acc sheet =>
    let with_header := acc ++ js "Sheet: " ++ fst sheet ++ [10; 10]%N in
    let with_rows :=
      List.fold_left (fun acc' row =>
        match row with
        | [] => acc'
        | _ :: _ => acc' ++ join [9%N] row ++ [10%N]
        end) (snd sheet) with_header in
    with_rows ++ [10%N]) workbook [].

Definition pdfText (pages : list (list (option jsstring))) : jsstring :=
  List.fold_left (fun acc items =>
    acc ++ join [32%N]
             (List.map (fun item =>
                match item with Some str => str | None => [] end) items)
        ++ [10%N]) pages [].

Definition ext_is (fileExtension : option jsstring) (lit : string) : bool :=
  match fileExtension with
  | Some e => eqb e (js lit)
  | None => false
  end.

(** One element of [readPromises]: the [FileReader] is started in the mode
    the extension selects, and [reader.onload] runs the [switch]. *)
Definition readPromise (X : Extractors) (file : File.t) : Settled :=
  let fileExtension := fileExtension file in
  let name := File.name file in
  if negb (File.readable file) then
    rejected (js "Error reading " ++ name)
  else
    let fileContent :=
      if array_includes [js "docx"; js "xlsx"; js "pdf"]
           (match fileExtension with Some e => e | None => [] end)
      then ArrayBuffer (File.bytes file)
      else Text (readAsText X (File.bytes file)) in
    if negb (content_truthy fileContent) then
      rejected (js "Could not read: " ++ name)
    else if ext_is fileExtension "docx" then
      match mammoth_extractRawText X (as_buffer fileContent) with
      | Some value => fulfilled (ManagedFile.mk name value)
      | None => rejected (js "Failed to process " ++ name)
      end
    else if ext_is fileExtension "xlsx" then
      match XLSX_read X (as_buffer fileContent) with
      | Some workbook => fulfilled (ManagedFile.mk name (xlsxText workbook))
      | None => rejected (js "Failed to process " ++ name)
      end
    else if ext_is fileExtension "pdf" then
      match pdf_pages X (as_buffer fileContent) with
      | inr pages => fulfilled (ManagedFile.mk name (pdfText pages))
      | inl message =>
          rejected (js "Failed to parse PDF " ++ name ++ js ": " ++ message)
      end
    else if ext_is fileExtension "txt" || ext_is fileExtension "js"
            || ext_is fileExtension "ts" || ext_is fileExtension "jsx"
            || ext_is fileExtension "tsx" || ext_is fileExtension "json"
            || ext_is fileExtension "md" || ext_is fileExtension "html"
            || ext_is fileExtension "css" || ext_is fileExtension "py" then
      fulfilled (ManagedFile.mk name (as_string fileContent))
    else if ext_is fileExtension "doc" || ext_is fileExtension "pptx" then
      rejected (js "." ++ match fileExtension with Some e => e | None => [] end
                  ++ js " is not supported")
    else
      (* default: unknown extensions are taken to be text *)
      fulfilled (ManagedFile.mk name (as_string fileContent)).

(** The props the handler closes over, as of the render that created it. *)
Record Props := {
  urls : list jsstring;
  files : list ManagedFile.t;
  maxSources : nat
}.

Definition totalSources (p : Props) : nat := length (urls p) + length (files p).

(** What one run of the panel's [handleAddUrl] does: the [error] state and
    the input field it leaves, and the argument of its call of [onAddUrl]
    if it makes one.  [isValidUrl s] is whether [new URL(s)] succeeds. *)
Record AddUrlResult := {
  url_error : option jsstring;
  url_input : jsstring;
  onAddUrl : option jsstring
}.

Definition handleAddUrl (isValidUrl : jsstring -> bool) (p : Props)
  (error0 : option jsstring) (currentUrlInput : jsstring) : AddUrlResult :=
  if negb (truthy (trim currentUrlInput)) then
    Build_AddUrlResult (Some (js "URL cannot be empty.")) currentUrlInput None
  else if negb (isValidUrl currentUrlInput) then
    Build_AddUrlResult
      (Some (js "Invalid URL format. Please include http:// or https://"))
      currentUrlInput None
  else if maxSources p <=? totalSources p then
    Build_AddUrlResult
      (Some (js "You can add a maximum of " ++ ofNat (maxSources p)
             ++ js " sources to the current group."))
      currentUrlInput None
  else if array_includes (urls p) currentUrlInput then
    Build_AddUrlResult
      (Some (js "This URL has already been added to the current group."))
      currentUrlInput None
  else Build_AddUrlResult None [] (Some currentUrlInput).

(** What one run of [handleFileChange] does: the [error] state it leaves,
    the argument of its call of [onAddFiles] if it makes one, and the files
    for which a read was started. *)
Record FileChangeResult := {
  error : option jsstring;
  onAddFiles : option (list ManagedFile.t);
  started : list File.t
}.

Definition filesToProcess (p : Props) (selectedFiles : list File.t)
  : list File.t :=
  List.filter (fun file =>
    negb (existsb (fun existingFile =>
            eqb (ManagedFile.name existingFile) (File.name file)) (files p)))
    selectedFiles.

Definition successfulFiles (results : list Settled) : list ManagedFile.t :=
  List.flat_map (fun result =>
    match result with fulfilled value => [value] | rejected _ => [] end)
    results.

Definition errorMessages (results : list Settled) : list jsstring :=
  List.flat_map (fun result =>
    match result with fulfilled _ => [] | rejected message => [message] end)
    results.

(** [handleFileChange] up to its [await]: the [error] state it leaves, and
    the files whose reads it has started, if it has not returned. *)
Definition handleFileChange_check (p : Props) (error0 : option jsstring)
  (selectedFiles : list File.t) : option jsstring * option (list File.t) :=
  match selectedFiles with
  | [] => (error0, None)
  | _ :: _ =>
      if maxSources p <=? totalSources p then
        (Some (js "Maximum sources (" ++ ofNat (maxSources p)
               ++ js ") reached. Cannot add more files."),
         None)
      else
        let filesToProcess := filesToProcess p selectedFiles in
        if maxSources p <? totalSources p + length filesToProcess then
          (Some (js "Cannot add all selected files. Adding "
                 ++ ofNat (length filesToProcess)
                 ++ js " file(s) would exceed the "
                 ++ ofNat (maxSources p) ++ js " source limit."),
           None)
        else (None, Some filesToProcess)
  end.

(** [handleFileChange] from its [await] on, the reads having settled:
    [error1] is the [error] state at that time. *)
Definition handleFileChange_settled (X : Extractors)
  (error1 : option jsstring) (filesToProcess : list File.t)
  : FileChangeResult :=
  let results := List.map (readPromise X) filesToProcess in
  Build_FileChangeResult
    (match errorMessages results with
     | [] => error1
     | _ :: _ =>
         Some (js "Import errors: "
               ++ join (js ", ") (errorMessages results) ++ js ".")
     end)
    (match successfulFiles results with
     | [] => None
     | _ :: _ => Some (successfulFiles results)
     end)
    filesToProcess.

(** The whole handler, when nothing else happens while the files are
    read. *)
Definition handleFileChange (X : Extractors) (p : Props)
  (error0 : option jsstring) (selectedFiles : list File.t)
  : FileChangeResult :=
  match handleFileChange_check p error0 selectedFiles with
  | (error1, Some filesToProcess) =>
      handleFileChange_settled X error1 filesToProcess
  | (error1, None) => Build_FileChangeResult error1 None []
  end.

(** [handleSaveApiKey]: the argument of its call of [onSetApiKey]. *)
Definition handleSaveApiKey (apiKeyInput : jsstring) : jsstring :=
  trim apiKeyInput.

(** [activeGroupName], shown when the group has no source. *)
Definition activeGroupName (knowledgeGroups : list KnowledgeGroup.t)
  (activeGroupId : jsstring) : jsstring :=
  or_else
    (option_map KnowledgeGroup.name
       (array_find (fun g => eqb (KnowledgeGroup.id g) activeGroupId)
          knowledgeGroups))
    (js "Unknown Group").

(** The [disabled] attribute of the two buttons that add a source. *)
Definition addDisabled (p : Props) : bool := maxSources p <=? totalSources p.

End KnowledgeBaseManager.

(** ** components/ChatInterface.tsx: the send button *)

Module ChatInterface.

Record State := {
  userQuery : jsstring;
  attachedImages : list AttachedImage.t;
  isManuallyExpanded : bool
}.

(** [handleSend]: the new local state and the arguments of the call of
    [onSendMessage], if it is made. *)
Definition handleSend (isLoading : bool) (st : State)
  : State * option (jsstring * list AttachedImage.t) :=
  let query := trim (userQuery st) in
  if (negb (truthy query) && (length (attachedImages st) =? 0)) || isLoading
  then (st, None)
  else ({| userQuery := []; attachedImages := [];
           isManuallyExpanded := false |},
        Some (query, attachedImages st)).

(** The [disabled] attribute of the send button. *)
Definition sendDisabled (isLoading isFetchingSuggestions : bool) (st : State)
  : bool :=
  isLoading || isFetchingSuggestions
  || (negb (truthy (trim (userQuery st)))
      && (length (attachedImages st) =? 0)).

(** [showSuggestions]; the suggestions are an optional prop. *)
Definition showSuggestions (initialQuerySuggestions : option (list jsstring))
  (messages : list ChatMessage.t) : bool :=
  match initialQuerySuggestions with
  | Some suggestions =>
      (0 <? length suggestions)
      && (length (List.filter
                    (fun m => negb (MessageSender_eqb (ChatMessage.sender m)
                                      SYSTEM)) messages) <=? 1)
  | None => false
  end.

End ChatInterface.

(** ** App.tsx: constants and knowledge-group handlers *)

Module App.

Definition GEMINI_DOCS_URLS : list jsstring :=
  [ js "https://ai.google.dev/gemini-api/docs";
    js "https://ai.google.dev/gemini-api/docs/quickstart";
    js "https://ai.google.dev/gemini-api/docs/api-key";
    js "https://ai.google.dev/gemini-api/docs/libraries";
    js "https://ai.google.dev/gemini-api/docs/models";
    js "https://ai.google.dev/gemini-api/docs/pricing";
    js "https://ai.google.dev/gemini-api/docs/rate-limits";
    js "https://ai.google.dev/gemini-api/docs/billing";
    js "https://ai.google.dev/gemini-api/docs/changelog" ].

Definition MODEL_CAPABILITIES_URLS : list jsstring :=
  [ js "https://ai.google.dev/gemini-api/docs/text-generation";
    js "https://ai.google.dev/gemini-api/docs/image-generation";
    js "https://ai.google.dev/gemini-api/docs/video";
    js "https://ai.google.dev/gemini-api/docs/speech-generation";
    js "https://ai.google.dev/gemini-api/docs/music-generation";
    js "https://ai.google.dev/gemini-api/docs/long-context";
    js "https://ai.google.dev/gemini-api/docs/structured-output";
    js "https://ai.google.dev/gemini-api/docs/thinking";
    js "https://ai.google.dev/gemini-api/docs/function-calling";
    js "https://ai.google.dev/gemini-api/docs/document-processing";
    js "https://ai.google.dev/gemini-api/docs/image-understanding";
    js "https://ai.google.dev/gemini-api/docs/video-understanding";
    js "https://ai.google.dev/gemini-api/docs/audio";
    js "https://ai.google.dev/gemini-api/docs/code-execution";
    js "https://ai.google.dev/gemini-api/docs/grounding" ].

Definition INITIAL_KNOWLEDGE_GROUPS : list KnowledgeGroup.t :=
  [ KnowledgeGroup.mk (js "gemini-overview") (js "Gemini Docs Overview")
      GEMINI_DOCS_URLS [];
    KnowledgeGroup.mk (js "model-capabilities") (js "Model Capabilities")
      MODEL_CAPABILITIES_URLS [] ].

(** The [id]s of [AVAILABLE_MODELS]. *)
Definition AVAILABLE_MODELS : list jsstring :=
  [ js "gemini-2.5-pro"; js "gemini-2.5-flash"; js "gemini-2.5-flash-lite" ].

Definition MAX_SOURCES : nat := 20.

(** The updater that [handleAddUrl] passes to [setKnowledgeGroups]. *)
Definition handleAddUrl (activeGroupId url : jsstring)
  (prevGroups : list KnowledgeGroup.t) : list KnowledgeGroup.t :=
  List.map (fun group =>
    if eqb (KnowledgeGroup.id group) activeGroupId then
      if (length (KnowledgeGroup.urls group)
          + length (KnowledgeGroup.files group) <? MAX_SOURCES)
         && negb (array_includes (KnowledgeGroup.urls group) url)
      then KnowledgeGroup.mk (KnowledgeGroup.id group)
             (KnowledgeGroup.name group)
             (KnowledgeGroup.urls group ++ [url])
             (KnowledgeGroup.files group)
      else group
    else group) prevGroups.

Definition handleRemoveUrl (activeGroupId urlToRemove : jsstring)
  (prevGroups : list KnowledgeGroup.t) : list KnowledgeGroup.t :=
  List.map (fun group =>
    if eqb (KnowledgeGroup.id group) activeGroupId then
      KnowledgeGroup.mk (KnowledgeGroup.id group) (KnowledgeGroup.name group)
        (List.filter (fun url => negb (eqb url urlToRemove))
           (KnowledgeGroup.urls group))
        (KnowledgeGroup.files group)
    else group) prevGroups.

(** [combinedFiles.filter((file, index, self) =>
       index === self.findIndex(f => f.name === file.name))]. *)
Definition uniqueFiles (combinedFiles : list ManagedFile.t)
  : list ManagedFile.t :=
  array_filter (fun file index self =>
    Z.eqb index
      (findIndex (fun f => eqb (ManagedFile.name f) (ManagedFile.name file))
         self))
    combinedFiles.

Definition handleAddFiles (activeGroupId : jsstring)
  (newFiles : list ManagedFile.t)
  (prevGroups : list KnowledgeGroup.t) : list KnowledgeGroup.t :=
  List.map (fun group =>
    if eqb (KnowledgeGroup.id group) activeGroupId then
      let combinedFiles := KnowledgeGroup.files group ++ newFiles in
      KnowledgeGroup.mk (KnowledgeGroup.id group) (KnowledgeGroup.name group)
        (KnowledgeGroup.urls group) (uniqueFiles combinedFiles)
    else group) prevGroups.

Definition handleRemoveFile (activeGroupId fileNameToRemove : jsstring)
  (prevGroups : list KnowledgeGroup.t) : list KnowledgeGroup.t :=
  List.map (fun group =>
    if eqb (KnowledgeGroup.id group) activeGroupId then
      KnowledgeGroup.mk (KnowledgeGroup.id group) (KnowledgeGroup.name group)
        (KnowledgeGroup.urls group)
        (List.filter
           (fun file => negb (eqb (ManagedFile.name file) fileNameToRemove))
           (KnowledgeGroup.files group))
    else group) prevGroups.

(** [knowledgeGroups.find(group => group.id === activeGroupId)] and the two
    values derived from it at every render. *)
Definition activeGroup (knowledgeGroups : list KnowledgeGroup.t)
  (activeGroupId : jsstring) : option KnowledgeGroup.t :=
  array_find (fun group => eqb (KnowledgeGroup.id group) activeGroupId)
    knowledgeGroups.

Definition currentUrls (knowledgeGroups : list KnowledgeGroup.t)
  (activeGroupId : jsstring) : list jsstring :=
  match activeGroup knowledgeGroups activeGroupId with
  | Some g => KnowledgeGroup.urls g
  | None => []
  end.

Definition currentFiles (knowledgeGroups : list KnowledgeGroup.t)
  (activeGroupId : jsstring) : list ManagedFile.t :=
  match activeGroup knowledgeGroups activeGroupId with
  | Some g => KnowledgeGroup.files g
  | None => []
  end.


(** *** The state of the component *)

Record State := {
  knowledgeGroups : list KnowledgeGroup.t;
  activeGroupId : jsstring;
  selectedModel : jsstring;
  chatMessages : list ChatMessage.t;
  isLoading : bool;
  isFetchingSuggestions : bool;
  initialQuerySuggestions : list jsstring
}.

Definition setKnowledgeGroups
  (f : list KnowledgeGroup.t -> list KnowledgeGroup.t) (st : State) : State :=
  {| knowledgeGroups := f (knowledgeGroups st);
     activeGroupId := activeGroupId st;
     selectedModel := selectedModel st;
     chatMessages := chatMessages st;
     isLoading := isLoading st;
     isFetchingSuggestions := isFetchingSuggestions st;
     initialQuerySuggestions := initialQuerySuggestions st |}.

Definition setActiveGroupId (id : jsstring) (st : State) : State :=
  {| knowledgeGroups := knowledgeGroups st;
     activeGroupId := id;
     selectedModel := selectedModel st;
     chatMessages := chatMessages st;
     isLoading := isLoading st;
     isFetchingSuggestions := isFetchingSuggestions st;
     initialQuerySuggestions := initialQuerySuggestions st |}.

Definition setSelectedModel (model : jsstring) (st : State) : State :=
  {| knowledgeGroups := knowledgeGroups st;
     activeGroupId := activeGroupId st;
     selectedModel := model;
     chatMessages := chatMessages st;
     isLoading := isLoading st;
     isFetchingSuggestions := isFetchingSuggestions st;
     initialQuerySuggestions := initialQuerySuggestions st |}.

Definition setChatMessages
  (f : list ChatMessage.t -> list ChatMessage.t) (st : State) : State :=
  {| knowledgeGroups := knowledgeGroups st;
     activeGroupId := activeGroupId st;
     selectedModel := selectedModel st;
     chatMessages := f (chatMessages st);
     isLoading := isLoading st;
     isFetchingSuggestions := isFetchingSuggestions st;
     initialQuerySuggestions := initialQuerySuggestions st |}.

Definition setIsLoading (b : bool) (st : State) : State :=
  {| knowledgeGroups := knowledgeGroups st;
     activeGroupId := activeGroupId st;
     selectedModel := selectedModel st;
     chatMessages := chatMessages st;
     isLoading := b;
     isFetchingSuggestions := isFetchingSuggestions st;
     initialQuerySuggestions := initialQuerySuggestions st |}.

Definition setIsFetchingSuggestions (b : bool) (st : State) : State :=
  {| knowledgeGroups := knowledgeGroups st;
     activeGroupId := activeGroupId st;
     selectedModel := selectedModel st;
     chatMessages := chatMessages st;
     isLoading := isLoading st;
     isFetchingSuggestions := b;
     initialQuerySuggestions := initialQuerySuggestions st |}.

Definition setInitialQuerySuggestions (l : list jsstring) (st : State)
  : State :=
  {| knowledgeGroups := knowledgeGroups st;
     activeGroupId := activeGroupId st;
     selectedModel := selectedModel st;
     chatMessages := chatMessages st;
     isLoading := isLoading st;
     isFetchingSuggestions := isFetchingSuggestions st;
     initialQuerySuggestions := l |}.

Definition systemMessage (id text : jsstring) (timestamp : N)
  : ChatMessage.t :=
  ChatMessage.mk id text SYSTEM timestamp None None None.

(** How a remote call ends for its caller: the value it resolves with, or
    the [message] of what it throws ([undefined] when there is none). *)
Inductive Settlement :=
| resolved (response : GeminiResponse.t)
| threw (message : option jsstring).

(** *** Suggestions *)

(** The pattern of [fenceRegex], flag [s]: at the start of the input three
    backticks; optionally group 1, a greedy run of word characters; a greedy
    run of white space; optionally a newline; group 2, a lazy run of any
    characters; optionally a newline; a greedy run of white space; three
    backticks at the end of the input. *)
Definition fenceRegex : Regex.t :=
  Regex.Seq Regex.Bol
  (Regex.Seq (Regex.literal (js "```"))
  (Regex.Seq (Regex.Opt (Regex.Group 1 (Regex.Star true (Regex.Chr Regex.is_word))))
  (Regex.Seq (Regex.Star true (Regex.Chr is_whitespace))
  (Regex.Seq (Regex.Opt (Regex.Chr Regex.newline))
  (Regex.Seq (Regex.Group 2 (Regex.Star false (Regex.Chr Regex.any)))
  (Regex.Seq (Regex.Opt (Regex.Chr Regex.newline))
  (Regex.Seq (Regex.Star true (Regex.Chr is_whitespace))
  (Regex.Seq (Regex.literal (js "```")) Regex.Eol)))))))).

(** The text handed to [JSON.parse]: the trimmed response, or the trimmed
    second group of the fence when the fence matches and the group is not
    empty. *)
Definition stripFence (text : jsstring) : jsstring :=
  let jsonStr := trim text in
  match Regex.exec fenceRegex jsonStr with
  | Some y =>
      match Regex.group 2 y with
      | Some g => if truthy g then trim g else jsonStr
      | None => jsonStr
      end
  | None => jsonStr
  end.

(** The three ways the inner [try] block of [fetchAndSetInitialSuggestions]
    ends on a truthy [response.text]. *)
Inductive Parsed :=
| suggestionsArray (l : list jsstring)
| unexpectedFormat
| parseError.

Definition parseSuggestions (JSON_parse : jsstring -> option JSON.value)
  (text : jsstring) : Parsed :=
  match JSON_parse (stripFence text) with
  | None => parseError
  | Some parsed =>
      match JSON.get (js "suggestions") parsed with
      | Some (JSON.Array items) =>
          suggestionsArray
            (List.flat_map (fun s =>
               match s with JSON.Str str => [str] | _ => [] end) items)
      | _ => unexpectedFormat
      end
  end.

(** The list given to [setInitialQuerySuggestions] after a response whose
    text is [text]. *)
Definition suggestionsOfText (JSON_parse : jsstring -> option JSON.value)
  (text : option jsstring) : list jsstring :=
  match text with
  | Some (c :: t) =>
      match parseSuggestions JSON_parse (c :: t) with
      | suggestionsArray l => firstn 4 l
      | _ => []
      end
  | _ => []
  end.

(** The arguments of an outstanding call of [getInitialSuggestions]. *)
Record FetchCall := {
  fetch_urls : list jsstring;
  fetch_files : list ManagedFile.t;
  fetch_model : jsstring
}.

(** [fetchAndSetInitialSuggestions] up to its [await]. *)
Definition fetchAndSetInitialSuggestions (urls : list jsstring)
  (files : list ManagedFile.t) (model : jsstring) (st : State)
  : State * option FetchCall :=
  if (length urls =? 0) && (length files =? 0) then
    (setInitialQuerySuggestions [] st, None)
  else
    (setInitialQuerySuggestions [] (setIsFetchingSuggestions true st),
     Some {| fetch_urls := urls; fetch_files := files; fetch_model := model |}).

(** [fetchAndSetInitialSuggestions] from its [await] on.  [clock i] is the
    [i]-th reading of the clock in this run. *)
Definition fetchAndSetInitialSuggestions_settled
  (JSON_parse : jsstring -> option JSON.value) (clock : nat -> N)
  (r : Settlement) (st : State) : State :=
  setIsFetchingSuggestions false
    match r with
    | resolved response =>
        match GeminiResponse.text response with
        | Some (c :: t) =>
            match parseSuggestions JSON_parse (c :: t) with
            | suggestionsArray l => setInitialQuerySuggestions (firstn 4 l) st
            | unexpectedFormat =>
                setInitialQuerySuggestions []
                  (setChatMessages (fun prev => prev ++
                     [systemMessage
                        (js "sys-err-suggestion-fmt-" ++ ofN (clock 0))
                        (js "Received suggestions in an unexpected format.")
                        (clock 1)]) st)
            | parseError =>
                setInitialQuerySuggestions []
                  (setChatMessages (fun prev => prev ++
                     [systemMessage
                        (js "sys-err-suggestion-parse-" ++ ofN (clock 0))
                        (js "Error parsing suggestions from AI.")
                        (clock 1)]) st)
            end
        | _ => setInitialQuerySuggestions [] st
        end
    | threw message =>
        setChatMessages (fun prev => prev ++
          [systemMessage
             (js "sys-err-suggestion-fetch-" ++ ofN (clock 0))
             (js "Error fetching suggestions: "
              ++ or_else message (js "Failed to fetch initial suggestions."))
             (clock 1)]) st
    end.

(** *** Sending a message *)

(** An outstanding call of [generateContentWithUrlContext]: its arguments
    and the placeholder the continuation closes over. *)
Record SendCall := {
  send_query : jsstring;
  send_urls : list jsstring;
  send_files : list ManagedFile.t;
  send_model : jsstring;
  send_images : list AttachedImage.t;
  modelPlaceholderMessage : ChatMessage.t
}.

(** [handleSendMessage] up to its [await]: the new state and the remote
    call issued, if any. *)
Definition handleSendMessage (API_KEY : option jsstring) (clock : nat -> N)
  (query : jsstring) (images : list AttachedImage.t) (st : State)
  : State * option SendCall :=
  if (negb (truthy (trim query)) && (length images =? 0))
     || isLoading st || isFetchingSuggestions st
  then (st, None)
  else if negb (truthy_opt API_KEY) then
    (setChatMessages (fun prev => prev ++
       [systemMessage (js "error-apikey-" ++ ofN (clock 0))
          (js "ERROR: API Key (process.env.API_KEY) is not configured. Please set it up to send messages.")
          (clock 1)]) st,
     None)
  else
    let userMessage :=
      ChatMessage.mk (js "user-" ++ ofN (clock 0)) query USER (clock 1)
        None None (Some (List.map AttachedImage.dataUrl images)) in
    let modelPlaceholderMessage :=
      ChatMessage.mk (js "model-response-" ++ ofN (clock 2))
        (js "Thinking...") MODEL (clock 3) (Some true) None None in
    (setChatMessages
       (fun prevMessages =>
          prevMessages ++ [userMessage; modelPlaceholderMessage])
       (setInitialQuerySuggestions [] (setIsLoading true st)),
     Some {| send_query := query;
             send_urls := currentUrls (knowledgeGroups st) (activeGroupId st);
             send_files :=
               currentFiles (knowledgeGroups st) (activeGroupId st);
             send_model := selectedModel st;
             send_images := images;
             modelPlaceholderMessage := modelPlaceholderMessage |}).

(** The message that takes the place of the placeholder. *)
Definition terminalMessage (placeholder : ChatMessage.t) (r : Settlement)
  : ChatMessage.t :=
  match r with
  | resolved response =>
      ChatMessage.mk (ChatMessage.id placeholder)
        (or_else (GeminiResponse.text response)
           (js "I received an empty response."))
        (ChatMessage.sender placeholder)
        (ChatMessage.timestamp placeholder)
        (Some false)
        (GeminiResponse.urlContextMetadata response)
        (ChatMessage.images placeholder)
  | threw message =>
      ChatMessage.mk (ChatMessage.id placeholder)
        (js "Error: "
         ++ or_else message (js "Failed to get response from AI."))
        SYSTEM
        (ChatMessage.timestamp placeholder)
        (Some false)
        (ChatMessage.urlContext placeholder)
        (ChatMessage.images placeholder)
  end.

(** [handleSendMessage] from its [await] on. *)
Definition handleSendMessage_settled (call : SendCall) (r : Settlement)
  (st : State) : State :=
  setIsLoading false
    (setChatMessages
       (fun prevMessages =>
          List.map (fun msg =>
            if eqb (ChatMessage.id msg)
                 (ChatMessage.id (modelPlaceholderMessage call))
            then terminalMessage (modelPlaceholderMessage call) r
            else msg) prevMessages)
       st).

(** [handleSuggestedQueryClick]: the suggestion goes to
    [handleSendMessage] as it is, with no image. *)
Definition handleSuggestedQueryClick (API_KEY : option jsstring)
  (clock : nat -> N) (query : jsstring) (st : State)
  : State * option SendCall :=
  handleSendMessage API_KEY clock query [] st.

(** [chatPlaceholder], the [placeholderText] of the chat panel. *)
Definition chatPlaceholder (st : State) : jsstring :=
  if 0 <? length (currentUrls (knowledgeGroups st) (activeGroupId st))
          + length (currentFiles (knowledgeGroups st) (activeGroupId st))
  then js "Ask about " ++ GeminiService.dq
       ++ or_else
            (option_map KnowledgeGroup.name
               (activeGroup (knowledgeGroups st) (activeGroupId st)))
            (js "current documents")
       ++ GeminiService.dq ++ js "..."
  else js "Select a group and add sources to the knowledge base to enable chat.".

(** *** Effects

    The two [useEffect] hooks.  The first runs after a render in which
    [activeGroupId] or [knowledgeGroups] changed, the second after one in
    which [currentUrls], [currentFiles] or [selectedModel] changed. *)

Definition welcomeEffect (API_KEY : option jsstring) (clock : nat -> N)
  (st : State) : State :=
  let currentActiveGroup :=
    activeGroup (knowledgeGroups st) (activeGroupId st) in
  let welcomeMessageText :=
    if negb (truthy_opt API_KEY) then
      js "ERROR: Gemini API Key (process.env.API_KEY) is not configured. Please set this environment variable to use the application."
    else
      js "Welcome to Documentation Browser! You're currently browsing content from: "
      ++ GeminiService.dq
      ++ or_else (option_map KnowledgeGroup.name currentActiveGroup)
           (js "None")
      ++ GeminiService.dq
      ++ js ". Just ask me questions, or try one of the suggestions below to get started" in
  setChatMessages (fun _ =>
    [systemMessage
       (js "system-welcome-" ++ activeGroupId st ++ js "-" ++ ofN (clock 0))
       welcomeMessageText (clock 1)]) st.

Definition suggestionsEffect (API_KEY : option jsstring) (st : State)
  : State * option FetchCall :=
  let urls := currentUrls (knowledgeGroups st) (activeGroupId st) in
  let files := currentFiles (knowledgeGroups st) (activeGroupId st) in
  if ((0 <? length urls) || (0 <? length files)) && truthy_opt API_KEY then
    fetchAndSetInitialSuggestions urls files (selectedModel st) st
  else (setInitialQuerySuggestions [] st, None).

(** *** The component over time

    A world is the state of [App], the [error] state of the knowledge-base
    panel, and what has been started and has not settled yet: the remote
    calls, and the imports whose files are being read.  An import closes
    over the [activeGroupId] of the render in which the files were
    selected. *)

Record World := {
  state : State;
  kb_error : option jsstring;
  sends : list SendCall;
  fetches : list FetchCall;
  imports : list (jsstring * list KnowledgeBaseManager.File.t)
}.

Definition set_state (st : State) (w : World) : World :=
  {| state := st; kb_error := kb_error w; sends := sends w;
     fetches := fetches w; imports := imports w |}.

Definition set_kb_error (e : option jsstring) (w : World) : World :=
  {| state := state w; kb_error := e; sends := sends w;
     fetches := fetches w; imports := imports w |}.

Definition set_sends (l : list SendCall) (w : World) : World :=
  {| state := state w; kb_error := kb_error w; sends := l;
     fetches := fetches w; imports := imports w |}.

Definition set_fetches (l : list FetchCall) (w : World) : World :=
  {| state := state w; kb_error := kb_error w; sends := sends w;
     fetches := l; imports := imports w |}.

Definition set_imports
  (l : list (jsstring * list KnowledgeBaseManager.File.t)) (w : World)
  : World :=
  {| state := state w; kb_error := kb_error w; sends := sends w;
     fetches := fetches w; imports := l |}.

(** What can happen: the user acts on a control, or something outstanding
    settles.  [ImportFiles] is a selection of files whose reads settle before
    anything else happens: [SelectFiles] and then at once [FilesRead] for
    that selection.  A click on the panel's add button is [AddUrl] when the
    panel's [handleAddUrl] goes through to [onAddUrl], and [RefuseUrl] when
    it turns the input away; [valid] is whether [new URL(currentUrlInput)]
    succeeds. *)
Inductive Event :=
| Send (query : jsstring) (images : list AttachedImage.t)
| SendSettled (i : nat) (r : Settlement)
| FetchSettled (i : nat) (r : Settlement)
| SetModel (model : jsstring)
| SetGroupId (id : jsstring)
| AddUrl (url : jsstring)
| RemoveUrl (url : jsstring)
| SelectFiles (selectedFiles : list KnowledgeBaseManager.File.t)
| FilesRead (i : nat)
| ImportFiles (selectedFiles : list KnowledgeBaseManager.File.t)
| RemoveFile (fileName : jsstring)
| RefuseUrl (currentUrlInput : jsstring) (valid : bool).

Fixpoint remove_at (A : Type) (i : nat) (l : list A) : list A :=
  match i, l with
  | _, [] => []
  | O, _ :: l' => l'
  | S i', x :: l' => x :: remove_at i' l'
  end.

Definition add_fetch (w : World) (r : State * option FetchCall) : World :=
  set_fetches
    (fetches w ++ match snd r with Some c => [c] | None => [] end)
    (set_state (fst r) w).

(** The render after [setKnowledgeGroups]: the array of groups is always a
    new one, so the welcome effect runs; the suggestions effect runs when
    [sourcesChanged]. *)
Definition afterGroups (API_KEY : option jsstring) (clock : nat -> N)
  (sourcesChanged : bool) (w : World)
  (f : list KnowledgeGroup.t -> list KnowledgeGroup.t) : World :=
  let st := welcomeEffect API_KEY clock (setKnowledgeGroups f (state w)) in
  if sourcesChanged then add_fetch w (suggestionsEffect API_KEY st)
  else set_state st w.

Definition props (st : State) : KnowledgeBaseManager.Props :=
  {| KnowledgeBaseManager.urls :=
       currentUrls (knowledgeGroups st) (activeGroupId st);
     KnowledgeBaseManager.files :=
       currentFiles (knowledgeGroups st) (activeGroupId st);
     KnowledgeBaseManager.maxSources := MAX_SOURCES |}.

(** The reads of an import have settled: [handleFileChange] goes on, and
    its [onAddFiles] is the [handleAddFiles] of the render in which the
    files were selected, applied to the groups as they are now.  It rebuilds
    the group of that render only: [currentFiles] is a new array, and the
    suggestions effect runs, when that group is the active one now. *)
Definition filesRead (X : KnowledgeBaseManager.Extractors)
  (API_KEY : option jsstring) (clock : nat -> N)
  (import : jsstring * list KnowledgeBaseManager.File.t) (w : World)
  : World :=
  let r :=
    KnowledgeBaseManager.handleFileChange_settled X (kb_error w)
      (snd import) in
  let w1 := set_kb_error (KnowledgeBaseManager.error r) w in
  match KnowledgeBaseManager.onAddFiles r with
  | Some newFiles =>
      afterGroups API_KEY clock
        (eqb (fst import) (activeGroupId (state w1))) w1
        (handleAddFiles (fst import) newFiles)
  | None => w1
  end.

(** One event.  [None]: the event cannot happen in this world (nothing
    outstanding at that index; the group selector offers the ids of the
    groups only; the panel does not turn away an input it accepts). *)
Definition step (X : KnowledgeBaseManager.Extractors)
  (API_KEY : option jsstring) (clock : nat -> N) (e : Event) (w : World)
  : option World :=
  let st := state w in
  match e with
  | Send query images =>
      let r := handleSendMessage API_KEY clock query images st in
      Some (set_sends
              (sends w ++ match snd r with Some c => [c] | None => [] end)
              (set_state (fst r) w))
  | SendSettled i r =>
      match nth_error (sends w) i with
      | Some call =>
          Some (set_sends (remove_at i (sends w))
                  (set_state (handleSendMessage_settled call r st) w))
      | None => None
      end
  | FetchSettled i r =>
      match nth_error (fetches w) i with
      | Some _ =>
          Some (set_fetches (remove_at i (fetches w))
                  (set_state
                     (fetchAndSetInitialSuggestions_settled JSON.parse clock
                        r st) w))
      | None => None
      end
  | SetModel model =>
      if eqb model (selectedModel st) then Some w
      else Some (add_fetch w
                   (suggestionsEffect API_KEY (setSelectedModel model st)))
  | SetGroupId id =>
      if existsb (fun g => eqb (KnowledgeGroup.id g) id) (knowledgeGroups st)
      then
        if eqb id (activeGroupId st) then Some w
        else Some (add_fetch w
                     (suggestionsEffect API_KEY
                        (welcomeEffect API_KEY clock
                           (setActiveGroupId id st))))
      else None
  | AddUrl url =>
      let added :=
        negb (length (currentUrls
                        (handleAddUrl (activeGroupId st) url
                           (knowledgeGroups st)) (activeGroupId st))
              =? length (currentUrls (knowledgeGroups st) (activeGroupId st)))
      in
      (* onAddUrl(currentUrlInput); ...; setError(null) *)
      Some (set_kb_error None
              (afterGroups API_KEY clock added w
                 (handleAddUrl (activeGroupId st) url)))
  | RemoveUrl url =>
      Some (afterGroups API_KEY clock true w
              (handleRemoveUrl (activeGroupId st) url))
  | RemoveFile fileName =>
      Some (afterGroups API_KEY clock true w
              (handleRemoveFile (activeGroupId st) fileName))
  | SelectFiles selectedFiles =>
      let r :=
        KnowledgeBaseManager.handleFileChange_check (props st) (kb_error w)
          selectedFiles in
      Some (set_imports
              (imports w ++
               match snd r with
               | Some filesToProcess => [(activeGroupId st, filesToProcess)]
               | None => []
               end)
              (set_kb_error (fst r) w))
  | FilesRead i =>
      match nth_error (imports w) i with
      | Some import =>
          Some (filesRead X API_KEY clock import
                  (set_imports (remove_at i (imports w)) w))
      | None => None
      end
  | ImportFiles selectedFiles =>
      let r :=
        KnowledgeBaseManager.handleFileChange_check (props st) (kb_error w)
          selectedFiles in
      match snd r with
      | Some filesToProcess =>
          Some (filesRead X API_KEY clock (activeGroupId st, filesToProcess)
                  (set_kb_error (fst r) w))
      | None => Some (set_kb_error (fst r) w)
      end
  | RefuseUrl currentUrlInput valid =>
      let r :=
        KnowledgeBaseManager.handleAddUrl (fun _ => valid) (props st)
          (kb_error w) currentUrlInput in
      match KnowledgeBaseManager.onAddUrl r with
      | Some _ => None
      | None => Some (set_kb_error (KnowledgeBaseManager.url_error r) w)
      end
  end.

(** A run: each event comes with the clock readings of its handlers. *)
Fixpoint run (X : KnowledgeBaseManager.Extractors)
  (API_KEY : option jsstring) (trace : list (Event * (nat -> N)))
  (w : World) : option World :=
  match trace with
  | [] => Some w
  | (e, clock) :: trace' =>
      match step X API_KEY clock e w with
      | Some w' => run X API_KEY trace' w'
      | None => None
      end
  end.

(** The world after the first render and its effects. *)
Definition init (API_KEY : option jsstring) (clock : nat -> N) : World :=
  let st0 :=
    {| knowledgeGroups := INITIAL_KNOWLEDGE_GROUPS;
       activeGroupId :=
         match INITIAL_KNOWLEDGE_GROUPS with
         | g :: _ => KnowledgeGroup.id g
         | [] => []
         end;
       selectedModel := nth 1 AVAILABLE_MODELS [];
       chatMessages := [];
       isLoading := false;
       isFetchingSuggestions := false;
       initialQuerySuggestions := [] |} in
  add_fetch {| state := st0; kb_error := None; sends := []; fetches := [];
               imports := [] |}
    (suggestionsEffect API_KEY (welcomeEffect API_KEY clock st0)).

Definition reachable (X : KnowledgeBaseManager.Extractors)
  (API_KEY : option jsstring) (w : World) : Prop :=
  exists clock trace, run X API_KEY trace (init API_KEY clock) = Some w.

(** The events of a run in which every import is read before anything
    else happens. *)
Definition in_one_piece (e : Event) : Prop :=
  match e with
  | SelectFiles _ | FilesRead _ => False
  | _ => True
  end.

End App.

(** ** App.tsx with the key kept in the browser

    The other version of [App.tsx] holds the API key in a state
    [apiKey], which starts from [localStorage] and is written back by an
    effect; the knowledge-base panel sets it ([handleSaveApiKey]). *)

(** [window.localStorage] as the sources use it: a value per key.  The
    order of the keys is not observed. *)
Module LocalStorage.

Definition t := list (jsstring * jsstring).

Fixpoint getItem (key : jsstring) (storage : t) : option jsstring :=
  match storage with
  | [] => None
  | (k, v) :: storage' => if eqb k key then Some v else getItem key storage'
  end.

Definition removeItem (key : jsstring) (storage : t) : t :=
  List.filter (fun kv => negb (eqb (fst kv) key)) storage.

Definition setItem (key value : jsstring) (storage : t) : t :=
  (key, value) :: removeItem key storage.

End LocalStorage.

Module StoredKey.

Record State := { apiKey : jsstring; localStorage : LocalStorage.t }.

(** The initial value of the state:
    [localStorage.getItem('gemini-api-key') || '']. *)
Definition initialApiKey (storage : LocalStorage.t) : jsstring :=
  or_else (LocalStorage.getItem (js "gemini-api-key") storage) [].

(** The effect that depends on [apiKey]. *)
Definition apiKeyEffect (apiKey : jsstring) (storage : LocalStorage.t)
  : LocalStorage.t :=
  if truthy apiKey then LocalStorage.setItem (js "gemini-api-key") apiKey storage
  else LocalStorage.removeItem (js "gemini-api-key") storage.

(** The first render and its effect. *)
Definition mount (storage : LocalStorage.t) : State :=
  let apiKey := initialApiKey storage in
  {| apiKey := apiKey; localStorage := apiKeyEffect apiKey storage |}.

(** [setApiKey]: a value equal to the current one changes nothing, and then
    no effect runs. *)
Definition setApiKey (key : jsstring) (st : State) : State :=
  if eqb key (apiKey st) then st
  else {| apiKey := key; localStorage := apiKeyEffect key (localStorage st) |}.

(** The save button of the panel, [onSetApiKey] being [setApiKey]. *)
Definition saveApiKey (apiKeyInput : jsstring) (st : State) : State :=
  setApiKey (KnowledgeBaseManager.handleSaveApiKey apiKeyInput) st.

End StoredKey.

(** ** The vocabulary of the specification *)

(** The source cap of a knowledge group. *)
Definition within_cap (g : KnowledgeGroup.t) : Prop :=
  length (KnowledgeGroup.urls g) + length (KnowledgeGroup.files g)
  <= App.MAX_SOURCES.

Definition file_names (l : list ManagedFile.t) : list jsstring :=
  List.map ManagedFile.name l.

(** De-duplication by name in which the first occurrence wins, as the
    specification words it: walk the list and keep a file unless a file of
    that name has been seen before. *)
Fixpoint firstByName (seen : list jsstring) (l : list ManagedFile.t)
  : list ManagedFile.t :=
  match l with
  | [] => []
  | f :: l' =>
      if array_includes seen (ManagedFile.name f) then firstByName seen l'
      else f :: firstByName (ManagedFile.name f :: seen) l'
  end.

Definition dedupUnion (existing newFiles : list ManagedFile.t)
  : list ManagedFile.t :=
  firstByName [] (existing ++ newFiles).

(** What a group handler may do to the groups: ids and names stay, and a
    group other than the active one stays as it is. *)
Definition frame (activeGroupId : jsstring)
  (before after : list KnowledgeGroup.t) : Prop :=
  Forall2 (fun g g' =>
    KnowledgeGroup.id g' = KnowledgeGroup.id g
    /\ KnowledgeGroup.name g' = KnowledgeGroup.name g
    /\ (KnowledgeGroup.id g <> activeGroupId -> g' = g)) before after.

(** A payload wrapped in a fenced code block with a language tag. *)
Definition fenced (tag payload : jsstring) : jsstring :=
  js "```" ++ tag ++ [10%N] ++ payload ++ [10%N] ++ js "```".

Definition loading (m : ChatMessage.t) : bool :=
  match ChatMessage.isLoading m with Some true => true | _ => false end.

(** The files of an import are handed to the group that is the active one:
    the import closed over the active group, and at least one of its files
    was read. *)
Definition hands_over (X : KnowledgeBaseManager.Extractors)
  (error : option jsstring)
  (import : jsstring * list KnowledgeBaseManager.File.t)
  (activeGroupId : jsstring) : bool :=
  eqb (fst import) activeGroupId
  && match KnowledgeBaseManager.onAddFiles
             (KnowledgeBaseManager.handleFileChange_settled X error
                (snd import)) with
     | Some _ => true
     | None => false
     end.

(** The changes of the sources or of the model: the events after which the
    selected model, the active group or the sources of the active group are
    other than before -- another model or another group is selected; a URL
    is added that the active group takes (it holds fewer than
    [MAX_SOURCES] sources and not this URL); a URL or a file is removed;
    files that were read are handed to the active group. *)
Definition changes_sources_or_model (X : KnowledgeBaseManager.Extractors)
  (e : App.Event) (w : App.World) : bool :=
  let st := App.state w in
  match e with
  | App.SetModel model => negb (eqb model (App.selectedModel st))
  | App.SetGroupId id => negb (eqb id (App.activeGroupId st))
  | App.AddUrl url =>
      match App.activeGroup (App.knowledgeGroups st) (App.activeGroupId st)
      with
      | Some g =>
          (length (KnowledgeGroup.urls g) + length (KnowledgeGroup.files g)
           <? App.MAX_SOURCES)
          && negb (array_includes (KnowledgeGroup.urls g) url)
      | None => false
      end
  | App.RemoveUrl _ | App.RemoveFile _ => true
  | App.FilesRead i =>
      match nth_error (App.imports w) i with
      | Some import =>
          hands_over X (App.kb_error w) import (App.activeGroupId st)
      | None => false
      end
  | App.ImportFiles selectedFiles =>
      let r :=
        KnowledgeBaseManager.handleFileChange_check (App.props st)
          (App.kb_error w) selectedFiles in
      match snd r with
      | Some filesToProcess =>
          hands_over X (fst r) (App.activeGroupId st, filesToProcess)
            (App.activeGroupId st)
      | None => false
      end
  | _ => false
  end.

(** The active group holds a source. *)
Definition has_sources (st : App.State) : Prop :=
  App.currentUrls (App.knowledgeGroups st) (App.activeGroupId st) <> []
  \/ App.currentFiles (App.knowledgeGroups st) (App.activeGroupId st) <> [].

(** The extensions that [readPromise] names in its [switch]. *)
Definition handledExtensions : list jsstring :=
  [ js "docx"; js "xlsx"; js "pdf"; js "txt"; js "js"; js "ts"; js "jsx";
    js "tsx"; js "json"; js "md"; js "html"; js "css"; js "py"; js "doc";
    js "pptx" ].

Definition unhandled (file : KnowledgeBaseManager.File.t) : Prop :=
  forall e, KnowledgeBaseManager.fileExtension file = Some e ->
            array_includes handledExtensions e = false.

(** The two messages by which [handleFileChange] reports that the cap is
    or would be exceeded. *)
Definition countExceeded (maxSources pending : nat) (e : option jsstring)
  : Prop :=
  e = Some (js "Maximum sources (" ++ ofNat maxSources
            ++ js ") reached. Cannot add more files.")
  \/ e = Some (js "Cannot add all selected files. Adding " ++ ofNat pending
               ++ js " file(s) would exceed the " ++ ofNat maxSources
               ++ js " source limit.").

(** The invariant of the knowledge groups: distinct ids, every group within
    the cap, and distinct file names within a group. *)
Definition groups_ok (groups : list KnowledgeGroup.t) : Prop :=
  NoDup (List.map KnowledgeGroup.id groups)
  /\ Forall within_cap groups
  /\ Forall (fun g => NoDup (file_names (KnowledgeGroup.files g))) groups.

(** The invariant of the conversation: the remote chat calls that are
    outstanding are at most one, and there is one exactly while [isLoading]
    is set; a message that is loading is the placeholder of an outstanding
    call; the placeholder of an outstanding call is a loading message of the
    model; and [isFetchingSuggestions] is set only while a suggestion call is
    outstanding. *)
Definition chat_ok (w : App.World) : Prop :=
  length (App.sends w) = (if App.isLoading (App.state w) then 1 else 0)
  /\ (forall m, In m (App.chatMessages (App.state w)) -> loading m = true ->
       exists c, In c (App.sends w)
                 /\ ChatMessage.id m
                    = ChatMessage.id (App.modelPlaceholderMessage c))
  /\ (forall c, In c (App.sends w) ->
       ChatMessage.sender (App.modelPlaceholderMessage c) = MODEL
       /\ ChatMessage.isLoading (App.modelPlaceholderMessage c) = Some true)
  /\ (App.isFetchingSuggestions (App.state w) = true -> App.fetches w <> []).

(** ** Matcher states and the parts of the fence pattern *)

(** The matcher at a position of the input. *)
Definition at_ (pos : nat) (rest : jsstring) (caps : list (nat * jsstring))
  : Regex.State :=
  {| Regex.pos := pos; Regex.rest := rest; Regex.captures := caps |}.

Definition all (p : N -> bool) (s : jsstring) : Prop :=
  Forall (fun c => p c = true) s.

Definition stops (p : N -> bool) (s : jsstring) : Prop :=
  match s with
  | [] => True
  | c :: _ => p c = false
  end.

(** The end of the fence pattern: optional newline, white space, three
    backticks, end of input. *)

Definition fenceClose : Regex.t :=
  Regex.Seq (Regex.Star true (Regex.Chr is_whitespace))
    (Regex.Seq (Regex.literal (js "```")) Regex.Eol).

Definition fenceTail : Regex.t :=
  Regex.Seq (Regex.Opt (Regex.Chr Regex.newline)) fenceClose.

(** The middle of the fence pattern (white space, optional newline, the
    lazy second group, the end) and its optional first group. *)

Definition fenceBody : Regex.t :=
  Regex.Seq (Regex.Star true (Regex.Chr is_whitespace))
    (Regex.Seq (Regex.Opt (Regex.Chr Regex.newline))
       (Regex.Seq (Regex.Group 2 (Regex.Star false (Regex.Chr Regex.any)))
          fenceTail)).

Definition fenceTag : Regex.t :=
  Regex.Opt (Regex.Group 1 (Regex.Star true (Regex.Chr Regex.is_word))).

(** ** Sample data for the concrete checks *)

Definition a_txt (content : string) : ManagedFile.t :=
  ManagedFile.mk (js "a.txt") (js content).

(** Extractors for the samples: text files are read unit by unit, and the
    document libraries return fixed values. *)
Definition sampleExtractors : KnowledgeBaseManager.Extractors :=
  {| KnowledgeBaseManager.readAsText := fun bytes => bytes;
     KnowledgeBaseManager.mammoth_extractRawText := fun _ => Some (js "docx text");
     KnowledgeBaseManager.XLSX_read := fun _ => Some [(js "Sheet1", [[js "a"; js "b"]])];
     KnowledgeBaseManager.pdf_pages := fun _ => inr [[Some (js "page")]] |}.

(** A stand-in for the URL parser on the samples. *)
Definition sampleValidUrl (s : jsstring) : bool :=
  startsWith (js "http://") s || startsWith (js "https://") s.

Definition sampleFile (name content : string) : KnowledgeBaseManager.File.t :=
  KnowledgeBaseManager.File.mk (js name) (js content) true.

Definition sampleProps19 : KnowledgeBaseManager.Props :=
  {| KnowledgeBaseManager.urls :=
       App.MODEL_CAPABILITIES_URLS ++ firstn 4 App.GEMINI_DOCS_URLS;
     KnowledgeBaseManager.files := [];
     KnowledgeBaseManager.maxSources := 20 |}.

Definition sampleClock (i : nat) : N := (1700000000000 + N.of_nat i)%N.

Definition sampleKey : option jsstring := Some (js "sample-key").

Definition run_from_init (key : option jsstring)
  (trace : list (App.Event * (nat -> N))) : App.World :=
  match App.run sampleExtractors key trace (App.init key sampleClock) with
  | Some w => w
  | None => App.init key sampleClock
  end.

Definition at_sample_clock (events : list App.Event)
  : list (App.Event * (nat -> N)) :=
  List.map (fun e => (e, sampleClock)) events.

(** The second group is selected and filled to the cap with five URLs; a
    sixth URL and a file are then offered. *)
Definition fillTrace : list (App.Event * (nat -> N)) :=
  at_sample_clock
    [ App.SetGroupId (js "model-capabilities");
      App.AddUrl (js "https://x.test/1"); App.AddUrl (js "https://x.test/2");
      App.AddUrl (js "https://x.test/3"); App.AddUrl (js "https://x.test/4");
      App.AddUrl (js "https://x.test/5"); App.AddUrl (js "https://x.test/6");
      App.ImportFiles [sampleFile "a.txt" "A"] ].

(** A well-formed answer of the suggestion call. *)
Definition sampleSuggestions : App.Settlement :=
  App.resolved
    (GeminiResponse.mk
       (Some (JSON.stringify
                (JSON.Object
                   [(js "suggestions",
                     JSON.Array [JSON.Str (js "A?"); JSON.Str (js "B?")])])))
       None).

Definition sampleAnswer : App.Settlement :=
  App.resolved (GeminiResponse.mk (Some (js "Hi")) None).

(** The first suggestion call settles and the user sends "hello". *)
Definition sendTrace : list (App.Event * (nat -> N)) :=
  at_sample_clock [ App.FetchSettled 0 sampleSuggestions;
                    App.Send (js "hello") [] ].

(** As before, but the user selects the other group while the answer is
    awaited. *)
Definition switchTrace : list (App.Event * (nat -> N)) :=
  sendTrace ++ at_sample_clock [ App.SetGroupId (js "model-capabilities") ].

(** The model is changed while the first suggestion call is outstanding,
    and then the first call settles. *)
Definition twoFetchesTrace : list (App.Event * (nat -> N)) :=
  at_sample_clock [ App.SetModel (js "gemini-2.5-pro") ].

Definition firstFetchSettledTrace : list (App.Event * (nat -> N)) :=
  twoFetchesTrace ++ at_sample_clock [ App.FetchSettled 0 sampleSuggestions ].

(** The payload of the specification's example, and the canned payload of
    [getInitialSuggestions]. *)
Definition examplePayload : jsstring :=
  js "{" ++ GeminiService.dq ++ js "suggestions" ++ GeminiService.dq
  ++ js ":[" ++ GeminiService.dq ++ js "A?" ++ GeminiService.dq ++ js ","
  ++ GeminiService.dq ++ js "B?" ++ GeminiService.dq ++ js "]}".

Definition cannedPayload : jsstring :=
  js "{" ++ GeminiService.dq ++ js "suggestions" ++ GeminiService.dq
  ++ js ":[" ++ GeminiService.dq
  ++ js "Add URLs or import files to get suggestions."
  ++ GeminiService.dq ++ js "]}".

(** The second group is selected and brought to 19 sources, and a file
    is selected; then a URL is added while the file is read, and the read
    settles. *)
Definition staleCheckTrace : list (App.Event * (nat -> N)) :=
  at_sample_clock
    [ App.SetGroupId (js "model-capabilities");
      App.AddUrl (js "https://x.test/1"); App.AddUrl (js "https://x.test/2");
      App.AddUrl (js "https://x.test/3"); App.AddUrl (js "https://x.test/4");
      App.SelectFiles [sampleFile "a.txt" "A"] ].

Definition staleTrace : list (App.Event * (nat -> N)) :=
  staleCheckTrace
  ++ at_sample_clock [ App.AddUrl (js "https://x.test/late");
                       App.FilesRead 0 ].

(** ** The vocabulary of the further properties *)

(** A string of Basic Latin (ASCII) code units. *)
Definition basic_latin (s : jsstring) : Prop :=
  Forall (fun c => (c < 128)%N) s.

(** The URLs of every group are pairwise distinct. *)
Definition urls_distinct (groups : list KnowledgeGroup.t) : Prop :=
  Forall (fun g => NoDup (KnowledgeGroup.urls g)) groups.

(** Pairwise distinctness of strings, decided. *)
Fixpoint distinctb (l : list jsstring) : bool :=
  match l with
  | [] => true
  | x :: l' => negb (array_includes l' x) && distinctb l'
  end.

(** The groups are the two initial ones as to ids and names, and the
    active id is the id of one of them. *)
Definition groups_fixed (st : App.State) : Prop :=
  List.map KnowledgeGroup.id (App.knowledgeGroups st)
  = List.map KnowledgeGroup.id App.INITIAL_KNOWLEDGE_GROUPS
  /\ List.map KnowledgeGroup.name (App.knowledgeGroups st)
     = List.map KnowledgeGroup.name App.INITIAL_KNOWLEDGE_GROUPS
  /\ In (App.activeGroupId st)
       (List.map KnowledgeGroup.id (App.knowledgeGroups st)).

(** Nothing remote is going on and nothing of the model is shown. *)
Definition quiet (w : App.World) : Prop :=
  App.sends w = [] /\ App.fetches w = []
  /\ App.isLoading (App.state w) = false
  /\ App.isFetchingSuggestions (App.state w) = false
  /\ App.initialQuerySuggestions (App.state w) = []
  /\ Forall (fun m => ChatMessage.sender m = SYSTEM)
       (App.chatMessages (App.state w)).

(** The transcript right after the welcome effect under [activeGroupId]. *)
Definition welcomed (clock : nat -> N) (activeGroupId : jsstring)
  (messages : list ChatMessage.t) : Prop :=
  exists m,
    messages = [m]
    /\ ChatMessage.sender m = SYSTEM
    /\ ChatMessage.isLoading m = None
    /\ ChatMessage.id m
       = js "system-welcome-" ++ activeGroupId ++ js "-" ++ ofN (clock 0).

(** The extensions whose files [readPromise] takes as text. *)
Definition textExtensions : list jsstring :=
  [ js "txt"; js "js"; js "ts"; js "jsx"; js "tsx"; js "json"; js "md";
    js "html"; js "css"; js "py" ].

Definition is_fulfilled (result : KnowledgeBaseManager.Settled) : bool :=
  match result with
  | KnowledgeBaseManager.fulfilled _ => true
  | KnowledgeBaseManager.rejected _ => false
  end.

(** The text of a spreadsheet as the specification words it: for every
    sheet a header line, a blank line, the rows that are not empty with
    their cells separated by tabs, and a blank line. *)
Definition rowLine (row : list jsstring) : jsstring :=
  match row with
  | [] => []
  | _ :: _ => join [9%N] row ++ [10%N]
  end.

Definition sheetText (sheet : jsstring * list (list jsstring)) : jsstring :=
  js "Sheet: " ++ fst sheet ++ [10; 10]%N
  ++ List.concat (List.map rowLine (snd sheet)) ++ [10%N].

(** The text of a page of a PDF: its items separated by spaces, and a
    newline. *)
Definition pageLine (items : list (option jsstring)) : jsstring :=
  join [32%N]
    (List.map (fun item => match item with Some str => str | None => [] end)
       items)
  ++ [10%N].

(** The part that [generateContentWithUrlContext] makes of an image. *)
Definition imagePart (image : AttachedImage.t) : GeminiService.Part :=
  GeminiService.inlineData (AttachedImage.type image)
    (nth_error (split 44 (AttachedImage.dataUrl image)) 1).

(** The block of the chat prompt that holds a file. *)
Definition fileBlock (f : ManagedFile.t) : jsstring :=
  js "Content from file " ++ GeminiService.dq ++ ManagedFile.name f
  ++ GeminiService.dq ++ js ":" ++ [10%N] ++ js "---" ++ [10%N]
  ++ ManagedFile.content f ++ [10%N] ++ js "---" ++ [10%N].

(** An image as the chat panel attaches it: the data URL is a header, a
    comma and the encoded bytes. *)
Record ImageData := {
  image_name : jsstring;
  image_type : jsstring;
  image_header : jsstring;
  image_payload : jsstring
}.

Definition attached (d : ImageData) : AttachedImage.t :=
  AttachedImage.mk (image_name d)
    (image_header d ++ [44%N] ++ image_payload d) (image_type d).

(** A file cut to the 500 code units that the suggestion prompt shows. *)
Definition truncated (f : ManagedFile.t) : ManagedFile.t :=
  ManagedFile.mk (ManagedFile.name f) (substring0 500 (ManagedFile.content f)).

(** What the suggestion prompt is to show of a file: its name, and the
    first 500 code units of its content followed by three dots. *)
Definition filePreview (f : ManagedFile.t) : jsstring :=
  js "File: " ++ ManagedFile.name f ++ [10%N] ++ js "Content: "
  ++ firstn 500 (ManagedFile.content f) ++ js "...".

(** The messages of the transcript that are not from the system. *)
Definition nonSystem (messages : list ChatMessage.t) : list ChatMessage.t :=
  List.filter
    (fun m => negb (MessageSender_eqb (ChatMessage.sender m) SYSTEM)) messages.

(** The panel's save button pressed with each of [inputs] in turn, after
    the first render on [storage]. *)
Definition savedKeys (storage : LocalStorage.t) (inputs : list jsstring)
  : StoredKey.State :=
  List.fold_left (fun st input => StoredKey.saveApiKey input st) inputs
    (StoredKey.mount storage).

(** ** Sample data for the further properties *)

(** A file of 600 code units. *)
Definition longFile : ManagedFile.t :=
  ManagedFile.mk (js "long.txt") (repeat 97%N 600).

(** A run without a credential: a send, a new URL, another model and an
    import. *)
Definition noKeyTrace : list (App.Event * (nat -> N)) :=
  at_sample_clock
    [ App.Send (js "hello") []; App.AddUrl (js "https://x.test/1");
      App.SetModel (js "gemini-2.5-pro");
      App.ImportFiles [sampleFile "a.txt" "A"] ].

(** An answer of the suggestion call with six questions, and the run in
    which it settles the first call. *)
Definition sixSuggestions : App.Settlement :=
  App.resolved
    (GeminiResponse.mk
       (Some (JSON.stringify
                (JSON.Object
                   [(js "suggestions",
                     JSON.Array
                       [JSON.Str (js "A?"); JSON.Str (js "B?");
                        JSON.Str (js "C?"); JSON.Str (js "D?");
                        JSON.Str (js "E?"); JSON.Str (js "F?")])])))
       None).

Definition sixSuggestionsTrace : list (App.Event * (nat -> N)) :=
  at_sample_clock [ App.FetchSettled 0 sixSuggestions ].

(** An attached image, and two values that the SDK may throw. *)
Definition sampleImage : ImageData :=
  {| image_name := js "shot.png"; image_type := js "image/png";
     image_header := js "data:image/png;base64";
     image_payload := js "iVBORw0KGgo=" |}.

Definition sampleThrown : GeminiService.ContentThrown :=
  {| GeminiService.isError := true;
     GeminiService.error_message := js "quota exhausted";
     GeminiService.error_type := None |}.

Definition sampleSuggestionThrown : GeminiService.Thrown :=
  {| GeminiService.instanceofError := true;
     GeminiService.message := js "API key not valid. Please pass a valid API key." |}.

(** A browser storage that holds a key and something else. *)
Definition sampleStorage : LocalStorage.t :=
  [(js "theme", js "dark"); (js "gemini-api-key", js "old-key")].

(** * Properties *)

Unset Implicit Arguments.

(** ** Strings and arrays *)

Ltac world_simpl :=
  cbn [App.state App.kb_error App.sends App.fetches App.imports
       App.set_state App.set_kb_error App.set_sends App.set_fetches
       App.set_imports] in *.

Lemma Some_eq (A : Type) (a b : A) : Some a = Some b -> a = b.
Proof. congruence. Qed.

Lemma eqb_eq (a b : jsstring) : eqb a b = true <-> a = b.
Proof.
  revert b; induction a as [|x a IH]; intros [|y b]; simpl;
    try (split; [discriminate | congruence]); try tauto.
  rewrite andb_true_iff, N.eqb_eq, IH. split.
  - intros [-> ->]; reflexivity.
  - intros H; inversion H; auto.
Qed.

Lemma eqb_refl (a : jsstring) : eqb a a = true.
Proof. apply eqb_eq; reflexivity. Qed.

Lemma eqb_neq (a b : jsstring) : eqb a b = false <-> a <> b.
Proof.
  rewrite <- eqb_eq. destruct (eqb a b); split; congruence.
Qed.

Lemma eqb_sym (a b : jsstring) : eqb a b = eqb b a.
Proof.
  destruct (eqb a b) eqn:E.
  - apply eqb_eq in E; subst; symmetry; apply eqb_refl.
  - apply eqb_neq in E. symmetry; apply eqb_neq; congruence.
Qed.

Lemma array_includes_In (arr : list jsstring) (x : jsstring) :
  array_includes arr x = true <-> In x arr.
Proof.
  unfold array_includes. rewrite existsb_exists. split.
  - intros (y & Hy & E). apply eqb_eq in E; subst; assumption.
  - intros H; exists x; split; [assumption | apply eqb_refl].
Qed.

Lemma array_includes_not_In (arr : list jsstring) (x : jsstring) :
  array_includes arr x = false <-> ~ In x arr.
Proof.
  rewrite <- array_includes_In. destruct (array_includes arr x);
    split; congruence.
Qed.

(** ** [findIndex] and the de-duplicating filter *)

Section FindIndex.
Variable A : Type.
Variable p : A -> bool.

Lemma findIndex_bounds (l : list A) :
  (findIndex p l = -1 /\ existsb p l = false
   \/ 0 <= findIndex p l < Z.of_nat (length l) /\ existsb p l = true)%Z.
Proof.
  induction l as [|x l IH]; simpl.
  - left; auto.
  - destruct (p x); simpl.
    + right; split; [lia | reflexivity].
    + destruct IH as [[E H] | [B H]].
      * rewrite E; simpl. left; auto.
      * destruct (Z.ltb_spec (findIndex p l) 0); [lia|].
        right; split; [lia | assumption].
Qed.

Lemma findIndex_app_first (pre l : list A) :
  existsb p pre = false ->
  forall x, p x = true ->
  findIndex p (pre ++ x :: l) = Z.of_nat (length pre).
Proof.
  induction pre as [|y pre IH]; simpl; intros H x Hx.
  - rewrite Hx; reflexivity.
  - apply orb_false_iff in H as [Hy H]. rewrite Hy, (IH H x Hx).
    destruct (Z.ltb_spec (Z.of_nat (length pre)) 0); lia.
Qed.

Lemma findIndex_app_earlier (pre l : list A) :
  existsb p pre = true ->
  (findIndex p (pre ++ l) < Z.of_nat (length pre))%Z.
Proof.
  induction pre as [|y pre IH]; simpl; intros H; [discriminate|].
  destruct (p y); simpl in *; [lia|].
  specialize (IH H).
  destruct (Z.ltb_spec (findIndex p (pre ++ l)) 0); lia.
Qed.

End FindIndex.

Lemma existsb_name_includes (pre : list ManagedFile.t) (n : jsstring) :
  existsb (fun f => eqb (ManagedFile.name f) n) pre
  = array_includes (file_names pre) n.
Proof.
  unfold array_includes, file_names. induction pre as [|f pre IH]; simpl.
  - reflexivity.
  - rewrite IH, (eqb_sym n). reflexivity.
Qed.

Lemma includes_rev_cons (seen : list jsstring) (a n : jsstring) :
  array_includes (seen ++ [a]) n = array_includes (a :: seen) n.
Proof.
  unfold array_includes. rewrite existsb_app. simpl.
  rewrite orb_false_r. apply orb_comm.
Qed.

Lemma firstByName_ext (seen seen' : list jsstring) (l : list ManagedFile.t) :
  (forall n, array_includes seen n = array_includes seen' n) ->
  firstByName seen l = firstByName seen' l.
Proof.
  revert seen seen'. induction l as [|f l IH]; simpl; intros seen seen' H.
  - reflexivity.
  - rewrite H. destruct (array_includes seen' (ManagedFile.name f)).
    + apply IH; assumption.
    + f_equal. apply IH. intros n. unfold array_includes in *. simpl.
      rewrite H. reflexivity.
Qed.

(** The filter of [uniqueFiles], started in the middle of the array. *)
Lemma filter_from_firstByName (pre l : list ManagedFile.t) :
  filter_from
    (fun file index =>
       Z.eqb index
         (findIndex
            (fun f => eqb (ManagedFile.name f) (ManagedFile.name file))
            (pre ++ l)))
    (Z.of_nat (length pre)) l
  = firstByName (file_names pre) l.
Proof.
  revert pre. induction l as [|f l IH]; intros pre; simpl.
  - reflexivity.
  - rewrite <- existsb_name_includes.
    assert (Hnext :
      filter_from
        (fun file index =>
           Z.eqb index
             (findIndex
                (fun f0 => eqb (ManagedFile.name f0) (ManagedFile.name file))
                (pre ++ f :: l)))
        (Z.of_nat (length pre) + 1) l
      = firstByName (file_names (pre ++ [f])) l).
    { specialize (IH (pre ++ [f])).
      rewrite <- app_assoc in IH. simpl in IH.
      rewrite length_app in IH. simpl in IH.
      replace (Z.of_nat (length pre + 1)) with (Z.of_nat (length pre) + 1)%Z
        in IH by lia.
      exact IH. }
    destruct (existsb (fun f0 => eqb (ManagedFile.name f0) (ManagedFile.name f))
                pre) eqn:E.
    + pose proof (findIndex_app_earlier _
                    (fun f0 => eqb (ManagedFile.name f0) (ManagedFile.name f))
                    pre (f :: l) E) as Hlt.
      destruct (Z.eqb_spec (Z.of_nat (length pre))
                  (findIndex
                     (fun f0 => eqb (ManagedFile.name f0) (ManagedFile.name f))
                     (pre ++ f :: l))) as [Heq|_]; [lia|].
      rewrite Hnext. apply firstByName_ext. intros nm.
      unfold file_names. rewrite map_app. simpl.
      rewrite includes_rev_cons. unfold array_includes. simpl.
      destruct (eqb nm (ManagedFile.name f)) eqn:En; [|reflexivity].
      apply eqb_eq in En; subst nm. simpl.
      rewrite existsb_name_includes in E. symmetry; exact E.
    + rewrite (findIndex_app_first _ _ pre l E f (eqb_refl _)).
      rewrite Z.eqb_refl. f_equal. rewrite Hnext.
      apply firstByName_ext. intros n. unfold file_names.
      rewrite map_app. simpl. apply includes_rev_cons.
Qed.

Lemma uniqueFiles_firstByName (l : list ManagedFile.t) :
  App.uniqueFiles l = firstByName [] l.
Proof.
  unfold App.uniqueFiles, array_filter.
  exact (filter_from_firstByName [] l).
Qed.

Lemma firstByName_names (seen : list jsstring) (l : list ManagedFile.t) :
  NoDup (file_names (firstByName seen l))
  /\ forall n, In n (file_names (firstByName seen l)) ->
               ~ In n seen /\ In n (file_names l).
Proof.
  revert seen. induction l as [|f l IH]; intros seen; simpl.
  - split; [constructor | intros n []].
  - destruct (array_includes seen (ManagedFile.name f)) eqn:E.
    + destruct (IH seen) as [ND Hin]. split; [assumption|].
      intros n Hn. destruct (Hin n Hn); auto.
    + destruct (IH (ManagedFile.name f :: seen)) as [ND Hin].
      apply array_includes_not_In in E. split.
      * simpl. constructor; [|assumption].
        intros Hn. destruct (Hin _ Hn) as [Hs _]. apply Hs; left; reflexivity.
      * simpl. intros n [<- | Hn]; [auto|].
        destruct (Hin n Hn) as [Hs Hl]. split; [|auto].
        intros Hs'. apply Hs; right; assumption.
Qed.

Lemma firstByName_length (seen : list jsstring) (l : list ManagedFile.t) :
  length (firstByName seen l) <= length l.
Proof.
  revert seen. induction l as [|f l IH]; intros seen; simpl; [lia|].
  destruct (array_includes seen (ManagedFile.name f)); simpl.
  - specialize (IH seen); lia.
  - specialize (IH (ManagedFile.name f :: seen)); lia.
Qed.

Lemma firstByName_id (seen : list jsstring) (l : list ManagedFile.t) :
  NoDup (file_names l) ->
  (forall n, In n (file_names l) -> ~ In n seen) ->
  firstByName seen l = l.
Proof.
  revert seen. induction l as [|f l IH]; intros seen ND Hd; simpl.
  - reflexivity.
  - simpl in ND. inversion ND as [|? ? Hnot ND']; subst.
    assert (E : array_includes seen (ManagedFile.name f) = false).
    { apply array_includes_not_In. apply Hd. left; reflexivity. }
    rewrite E. f_equal. apply IH; [assumption|].
    intros n Hn [<- | Hs]; [contradiction|].
    apply (Hd n); [right; assumption | assumption].
Qed.

Lemma firstByName_seen (seen : list jsstring) (l : list ManagedFile.t) :
  (forall f, In f l -> In (ManagedFile.name f) seen) ->
  firstByName seen l = [].
Proof.
  induction l as [|f l IH]; intros H; simpl; [reflexivity|].
  assert (E : array_includes seen (ManagedFile.name f) = true).
  { apply array_includes_In. apply H. left; reflexivity. }
  rewrite E. apply IH. intros f' Hf'. apply H. right; assumption.
Qed.

Lemma array_includes_ext (a b : list jsstring) (n : jsstring) :
  (In n a <-> In n b) -> array_includes a n = array_includes b n.
Proof.
  intros H. destruct (array_includes b n) eqn:E.
  - apply array_includes_In. apply H. apply array_includes_In; assumption.
  - apply array_includes_not_In. apply array_includes_not_In in E. tauto.
Qed.

Lemma firstByName_app (seen : list jsstring) (a b : list ManagedFile.t) :
  firstByName seen (a ++ b)
  = firstByName seen a ++ firstByName (file_names a ++ seen) b.
Proof.
  revert seen. induction a as [|f a IH]; intros seen; simpl.
  - reflexivity.
  - destruct (array_includes seen (ManagedFile.name f)) eqn:E.
    + rewrite IH. f_equal. apply firstByName_ext. intros n.
      apply array_includes_In in E. apply array_includes_ext.
      simpl. rewrite !in_app_iff. split; [tauto|].
      intros [<- | H]; tauto.
    + simpl. f_equal. rewrite IH. f_equal. apply firstByName_ext. intros n.
      apply array_includes_ext. simpl. rewrite !in_app_iff. simpl. tauto.
Qed.

Lemma firstByName_find (seen : list jsstring) (l : list ManagedFile.t)
  (n : jsstring) :
  ~ In n seen ->
  find (fun f => eqb (ManagedFile.name f) n) (firstByName seen l)
  = find (fun f => eqb (ManagedFile.name f) n) l.
Proof.
  revert seen. induction l as [|f l IH]; intros seen Hn; simpl.
  - reflexivity.
  - destruct (array_includes seen (ManagedFile.name f)) eqn:E.
    + apply array_includes_In in E.
      destruct (eqb (ManagedFile.name f) n) eqn:En.
      * apply eqb_eq in En; subst n; contradiction.
      * apply IH; assumption.
    + simpl. destruct (eqb (ManagedFile.name f) n) eqn:En; [reflexivity|].
      apply IH. apply eqb_neq in En. intros [H | H]; auto.
Qed.

Lemma Forall2_map_same (A : Type) (R : A -> A -> Prop) (f : A -> A)
  (l : list A) :
  (forall x, In x l -> R x (f x)) -> Forall2 R l (List.map f l).
Proof.
  induction l as [|x l IH]; intros H; simpl; constructor.
  - apply H; left; reflexivity.
  - apply IH. intros y Hy. apply H; right; assumption.
Qed.

Lemma group_eta (g : KnowledgeGroup.t) :
  KnowledgeGroup.mk (KnowledgeGroup.id g) (KnowledgeGroup.name g)
    (KnowledgeGroup.urls g) (KnowledgeGroup.files g) = g.
Proof. destruct g; reflexivity. Qed.

(** ** The knowledge-group handlers *)

(** C9.  Each of the four knowledge-group handlers ([handleAddUrl],
    [handleRemoveUrl], [handleAddFiles], [handleRemoveFile]) returns the
    groups in the same order with the same ids and names, and returns every
    group whose id is not [activeGroupId] exactly as it was. *)
Theorem group_handlers_frame :
  forall (activeGroupId : jsstring) (groups : list KnowledgeGroup.t),
    (forall url,
        frame activeGroupId groups (App.handleAddUrl activeGroupId url groups))
    /\ (forall url,
        frame activeGroupId groups
          (App.handleRemoveUrl activeGroupId url groups))
    /\ (forall newFiles,
        frame activeGroupId groups
          (App.handleAddFiles activeGroupId newFiles groups))
    /\ (forall fileName,
        frame activeGroupId groups
          (App.handleRemoveFile activeGroupId fileName groups)).
Proof.
  intros active groups. unfold frame.
  repeat split; intros x; apply Forall2_map_same; intros g _;
    (destruct (eqb (KnowledgeGroup.id g) active) eqn:E;
     [ apply eqb_eq in E
     | repeat split; reflexivity ]);
    try (destruct (_ && _));
    simpl; repeat split; try reflexivity; intros; congruence.
Qed.

(** C4.  For the active group, [handleAddFiles] stores the de-duplicated
    union of the group's files followed by the new ones in which the first
    occurrence of a name wins: the stored list is that union as the
    specification words it, no name occurs twice in it, and looking a name
    up in it finds what looking it up in the concatenation finds.  When the
    group's files have distinct names and every new file bears a name that
    is already there, the group is left as it was. *)
Theorem handleAddFiles_first_occurrence_wins :
  forall (activeGroupId : jsstring) (newFiles : list ManagedFile.t)
         (groups : list KnowledgeGroup.t) (i : nat) (g : KnowledgeGroup.t),
    nth_error groups i = Some g ->
    KnowledgeGroup.id g = activeGroupId ->
    exists g',
      nth_error (App.handleAddFiles activeGroupId newFiles groups) i = Some g'
      /\ KnowledgeGroup.files g'
         = dedupUnion (KnowledgeGroup.files g) newFiles
      /\ NoDup (file_names (KnowledgeGroup.files g'))
      /\ (forall n,
             find (fun f => eqb (ManagedFile.name f) n)
               (KnowledgeGroup.files g')
             = find (fun f => eqb (ManagedFile.name f) n)
                 (KnowledgeGroup.files g ++ newFiles))
      /\ (NoDup (file_names (KnowledgeGroup.files g)) ->
          (forall f, In f newFiles ->
                     In (ManagedFile.name f)
                       (file_names (KnowledgeGroup.files g))) ->
          g' = g).
Proof.
  intros active newFiles groups i g Hi Hid.
  unfold App.handleAddFiles. rewrite nth_error_map, Hi. simpl.
  rewrite Hid, eqb_refl. eexists; split; [reflexivity|]. simpl.
  rewrite uniqueFiles_firstByName. unfold dedupUnion.
  repeat split.
  - apply firstByName_names.
  - intros n. apply firstByName_find. intros [].
  - intros ND Hpresent. rewrite firstByName_app.
    rewrite (firstByName_id [] _ ND) by (intros ? _ []).
    rewrite firstByName_seen.
    + rewrite app_nil_r. subst active. apply group_eta.
    + intros f Hf. apply in_or_app; left. apply Hpresent; assumption.
Qed.

Lemma handleAddFiles_first_occurrence_wins_witness :
  exists g',
    nth_error
      (App.handleAddFiles (js "g") [a_txt "new"]
         [KnowledgeGroup.mk (js "g") (js "G") [] [a_txt "old"]]) 0 = Some g'
    /\ KnowledgeGroup.files g' = dedupUnion [a_txt "old"] [a_txt "new"]
    /\ NoDup (file_names (KnowledgeGroup.files g'))
    /\ (forall n,
           find (fun f => eqb (ManagedFile.name f) n) (KnowledgeGroup.files g')
           = find (fun f => eqb (ManagedFile.name f) n)
               ([a_txt "old"] ++ [a_txt "new"]))
    /\ (NoDup (file_names [a_txt "old"]) ->
        (forall f, In f [a_txt "new"] ->
                   In (ManagedFile.name f) (file_names [a_txt "old"])) ->
        g' = KnowledgeGroup.mk (js "g") (js "G") [] [a_txt "old"]).
Proof.
  exact (handleAddFiles_first_occurrence_wins (js "g") [a_txt "new"]
           [KnowledgeGroup.mk (js "g") (js "G") [] [a_txt "old"]] 0
           (KnowledgeGroup.mk (js "g") (js "G") [] [a_txt "old"])
           eq_refl eq_refl).
Defined.

(** ** File import *)

Lemma ext_is_handled (e : option jsstring) (lit : string) :
  In (js lit) handledExtensions ->
  (forall e', e = Some e' -> array_includes handledExtensions e' = false) ->
  KnowledgeBaseManager.ext_is e lit = false.
Proof.
  intros Hin H. destruct e as [e'|]; simpl; [|reflexivity].
  apply eqb_neq. intros ->.
  specialize (H _ eq_refl). apply array_includes_not_In in H. contradiction.
Qed.

Lemma unhandled_reads_text (X : KnowledgeBaseManager.Extractors)
  (file : KnowledgeBaseManager.File.t) :
  unhandled file ->
  KnowledgeBaseManager.readPromise X file
  = if negb (KnowledgeBaseManager.File.readable file) then
      KnowledgeBaseManager.rejected
        (js "Error reading " ++ KnowledgeBaseManager.File.name file)
    else if negb (truthy (KnowledgeBaseManager.readAsText X
                            (KnowledgeBaseManager.File.bytes file))) then
      KnowledgeBaseManager.rejected
        (js "Could not read: " ++ KnowledgeBaseManager.File.name file)
    else
      KnowledgeBaseManager.fulfilled
        (ManagedFile.mk (KnowledgeBaseManager.File.name file)
           (KnowledgeBaseManager.readAsText X
              (KnowledgeBaseManager.File.bytes file))).
Proof.
  intros H. unfold unhandled in H. unfold KnowledgeBaseManager.readPromise.
  destruct (KnowledgeBaseManager.File.readable file); cbn [negb];
    [|reflexivity].
  cbv zeta.
  assert (Hbin :
    array_includes [js "docx"; js "xlsx"; js "pdf"]
      match KnowledgeBaseManager.fileExtension file with
      | Some e => e
      | None => []
      end = false).
  { destruct (KnowledgeBaseManager.fileExtension file) as [e|] eqn:E;
      [|reflexivity].
    specialize (H e eq_refl). apply array_includes_not_In in H.
    apply array_includes_not_In. intros Hin. apply H.
    unfold handledExtensions. simpl in Hin |- *. tauto. }
  rewrite Hbin. cbn [KnowledgeBaseManager.content_truthy].
  destruct (truthy (KnowledgeBaseManager.readAsText X
                      (KnowledgeBaseManager.File.bytes file))); cbn [negb];
    [|reflexivity].
  rewrite !(ext_is_handled (KnowledgeBaseManager.fileExtension file))
    by (assumption || (unfold handledExtensions; simpl; tauto)).
  reflexivity.
Qed.

(** C8, as amended.  For an uploaded file whose extension (the last
    dot-separated part of its name, in lower case) is none of those the
    [switch] names, the file is read as text and extraction never fails with
    the unsupported-format error; when the read succeeds with a text that is
    not empty, that text is, verbatim, the content of the [ManagedFile]. *)
Theorem unknown_extension_read_as_text :
  forall (X : KnowledgeBaseManager.Extractors)
         (file : KnowledgeBaseManager.File.t),
    unhandled file ->
    (forall e, KnowledgeBaseManager.readPromise X file
               <> KnowledgeBaseManager.rejected
                    (js "." ++ e ++ js " is not supported"))
    /\ (KnowledgeBaseManager.File.readable file = true ->
        KnowledgeBaseManager.readAsText X
          (KnowledgeBaseManager.File.bytes file) <> [] ->
        KnowledgeBaseManager.readPromise X file
        = KnowledgeBaseManager.fulfilled
            (ManagedFile.mk (KnowledgeBaseManager.File.name file)
               (KnowledgeBaseManager.readAsText X
                  (KnowledgeBaseManager.File.bytes file)))).
Proof.
  intros X file H. rewrite (unhandled_reads_text X file H). split.
  - intros e.
    destruct (KnowledgeBaseManager.File.readable file); simpl;
      [|discriminate].
    destruct (truthy _); simpl; discriminate.
  - intros -> Hne. simpl.
    destruct (KnowledgeBaseManager.readAsText X
                (KnowledgeBaseManager.File.bytes file)); [congruence|].
    reflexivity.
Qed.

Lemma sample_log_unhandled : unhandled (sampleFile "notes.log" "cap reached").
Proof.
  intros e E. vm_compute in E. inversion E; subst. reflexivity.
Qed.

Lemma unknown_extension_read_as_text_witness :
  (forall e, KnowledgeBaseManager.readPromise sampleExtractors
               (sampleFile "notes.log" "cap reached")
             <> KnowledgeBaseManager.rejected
                  (js "." ++ e ++ js " is not supported"))
  /\ (true = true ->
      js "cap reached" <> [] ->
      KnowledgeBaseManager.readPromise sampleExtractors
        (sampleFile "notes.log" "cap reached")
      = KnowledgeBaseManager.fulfilled
          (ManagedFile.mk (js "notes.log") (js "cap reached"))).
Proof.
  exact (unknown_extension_read_as_text sampleExtractors
           (sampleFile "notes.log" "cap reached") sample_log_unhandled).
Defined.

(** C8 as stated fails on an empty file: [empty.log] has an extension the
    [switch] does not name, its read succeeds with the empty string, and the
    promise is rejected with "Could not read" where the claim has a
    [ManagedFile] with that (empty) content. *)
Lemma empty_unknown_file_rejected :
  KnowledgeBaseManager.fileExtension (sampleFile "empty.log" "")
  = Some (js "log")
  /\ array_includes handledExtensions (js "log") = false
  /\ KnowledgeBaseManager.readPromise sampleExtractors
       (sampleFile "empty.log" "")
     = KnowledgeBaseManager.rejected (js "Could not read: empty.log")
  /\ KnowledgeBaseManager.readPromise sampleExtractors
       (sampleFile "empty.log" "")
     <> KnowledgeBaseManager.fulfilled (ManagedFile.mk (js "empty.log") []).
Proof.
  repeat split; try reflexivity. vm_compute. discriminate.
Qed.

Lemma filter_length_le (A : Type) (p q : A -> bool) (l : list A) :
  (forall x, p x = true -> q x = true) ->
  length (List.filter p l) <= length (List.filter q l).
Proof.
  intros H. induction l as [|x l IH]; simpl; [lia|].
  destruct (p x) eqn:Ep.
  - rewrite (H x Ep). simpl. lia.
  - destruct (q x); simpl; lia.
Qed.

Lemma firstByName_length_filter (seen : list jsstring)
  (l : list ManagedFile.t) :
  length (firstByName seen l)
  <= length (List.filter
               (fun n => negb (array_includes seen n)) (file_names l)).
Proof.
  revert seen. induction l as [|f l IH]; intros seen; simpl; [lia|].
  destruct (array_includes seen (ManagedFile.name f)) eqn:E; simpl.
  - apply IH.
  - specialize (IH (ManagedFile.name f :: seen)).
    pose proof (filter_length_le jsstring
                  (fun n => negb (array_includes (ManagedFile.name f :: seen) n))
                  (fun n => negb (array_includes seen n))
                  (file_names l)) as Hle.
    assert (Himp : forall x,
      negb (array_includes (ManagedFile.name f :: seen) x) = true ->
      negb (array_includes seen x) = true).
    { intros x. unfold array_includes. simpl.
      rewrite !negb_true_iff, orb_false_iff. tauto. }
    specialize (Hle Himp). lia.
Qed.

Lemma filesToProcess_names (p : KnowledgeBaseManager.Props)
  (selected : list KnowledgeBaseManager.File.t) :
  length (KnowledgeBaseManager.filesToProcess p selected)
  = length (List.filter
              (fun n => negb (array_includes
                                (file_names (KnowledgeBaseManager.files p)) n))
              (List.map KnowledgeBaseManager.File.name selected)).
Proof.
  unfold KnowledgeBaseManager.filesToProcess.
  induction selected as [|f l IH]; simpl; [reflexivity|].
  rewrite existsb_name_includes.
  destruct (array_includes _ _); simpl; rewrite IH; reflexivity.
Qed.

(** The union never has more files than the group had plus the files the
    import would process. *)
Lemma dedupUnion_length (p : KnowledgeBaseManager.Props)
  (selected : list KnowledgeBaseManager.File.t)
  (newFiles : list ManagedFile.t) :
  file_names newFiles = List.map KnowledgeBaseManager.File.name selected ->
  length (dedupUnion (KnowledgeBaseManager.files p) newFiles)
  <= length (KnowledgeBaseManager.files p)
     + length (KnowledgeBaseManager.filesToProcess p selected).
Proof.
  intros Hn. unfold dedupUnion. rewrite firstByName_app, length_app.
  pose proof (firstByName_length [] (KnowledgeBaseManager.files p)).
  pose proof (firstByName_length_filter
                (file_names (KnowledgeBaseManager.files p) ++ []) newFiles)
    as H2.
  rewrite app_nil_r in *. rewrite Hn, <- filesToProcess_names in H2. lia.
Qed.

(** C3.  When the sources of the group plus the files of a selection that
    are pending (those whose name the group does not hold yet) exceed the
    cap -- or, said of the outcome, when adding the whole selection to the
    group would leave it with more sources than the cap -- [handleFileChange]
    does not call [onAddFiles], starts no read, and sets a count-exceeded
    error; in the component the selection then leaves the state, and so
    every group, as it was, and no import is outstanding for it. *)
Theorem import_over_cap_rejected :
  forall (X : KnowledgeBaseManager.Extractors)
         (p : KnowledgeBaseManager.Props) (error0 : option jsstring)
         (selectedFiles : list KnowledgeBaseManager.File.t),
    selectedFiles <> [] ->
    (KnowledgeBaseManager.maxSources p
     < KnowledgeBaseManager.totalSources p
       + length (KnowledgeBaseManager.filesToProcess p selectedFiles)
     \/ exists newFiles,
         file_names newFiles
         = List.map KnowledgeBaseManager.File.name selectedFiles
         /\ KnowledgeBaseManager.maxSources p
            < length (KnowledgeBaseManager.urls p)
              + length (dedupUnion (KnowledgeBaseManager.files p) newFiles)) ->
    let r := KnowledgeBaseManager.handleFileChange X p error0 selectedFiles in
    KnowledgeBaseManager.onAddFiles r = None
    /\ KnowledgeBaseManager.started r = []
    /\ countExceeded (KnowledgeBaseManager.maxSources p)
         (length (KnowledgeBaseManager.filesToProcess p selectedFiles))
         (KnowledgeBaseManager.error r)
    /\ (forall API_KEY clock w,
        App.props (App.state w) = p -> App.kb_error w = error0 ->
        exists w',
          App.step X API_KEY clock (App.SelectFiles selectedFiles) w = Some w'
          /\ App.state w' = App.state w
          /\ App.imports w' = App.imports w
          /\ App.kb_error w' = KnowledgeBaseManager.error r).
Proof.
  intros X p error0 selected Hne Hover.
  assert (Hgt :
    KnowledgeBaseManager.maxSources p
    < KnowledgeBaseManager.totalSources p
      + length (KnowledgeBaseManager.filesToProcess p selected)).
  { destruct Hover as [H | (newFiles & Hn & H)]; [assumption|].
    pose proof (dedupUnion_length p selected newFiles Hn).
    unfold KnowledgeBaseManager.totalSources. lia. }
  assert (Hcheck : exists e,
    KnowledgeBaseManager.handleFileChange_check p error0 selected = (e, None)
    /\ countExceeded (KnowledgeBaseManager.maxSources p)
         (length (KnowledgeBaseManager.filesToProcess p selected)) e).
  { unfold KnowledgeBaseManager.handleFileChange_check.
    destruct selected as [|f l]; [congruence|].
    destruct (Nat.leb_spec (KnowledgeBaseManager.maxSources p)
                (KnowledgeBaseManager.totalSources p)).
    - eexists. split; [reflexivity|]. left; reflexivity.
    - cbv zeta.
      destruct (Nat.ltb_spec (KnowledgeBaseManager.maxSources p)
                  (KnowledgeBaseManager.totalSources p
                   + length (KnowledgeBaseManager.filesToProcess p (f :: l))));
        [|lia].
      eexists. split; [reflexivity|]. right; reflexivity. }
  destruct Hcheck as (e & Hcheck & He). cbv zeta.
  unfold KnowledgeBaseManager.handleFileChange. rewrite Hcheck.
  cbn [KnowledgeBaseManager.onAddFiles KnowledgeBaseManager.started
       KnowledgeBaseManager.error].
  repeat split; try assumption.
  intros key clock w Hp Herr. unfold App.step. cbv zeta.
  rewrite Hp, Herr, Hcheck. cbn [fst snd]. eexists.
  split; [reflexivity|]. world_simpl. rewrite app_nil_r. repeat split.
Qed.

Lemma import_over_cap_rejected_witness :
  let r :=
    KnowledgeBaseManager.handleFileChange sampleExtractors sampleProps19 None
      [sampleFile "a.txt" "A"; sampleFile "b.txt" "B"] in
  KnowledgeBaseManager.onAddFiles r = None
  /\ KnowledgeBaseManager.started r = []
  /\ countExceeded 20 2 (KnowledgeBaseManager.error r)
  /\ (forall API_KEY clock w,
      App.props (App.state w) = sampleProps19 -> App.kb_error w = None ->
      exists w',
        App.step sampleExtractors API_KEY clock
          (App.SelectFiles [sampleFile "a.txt" "A"; sampleFile "b.txt" "B"]) w
        = Some w'
        /\ App.state w' = App.state w
        /\ App.imports w' = App.imports w
        /\ App.kb_error w' = KnowledgeBaseManager.error r).
Proof.
  apply (import_over_cap_rejected sampleExtractors sampleProps19 None
           [sampleFile "a.txt" "A"; sampleFile "b.txt" "B"]).
  - discriminate.
  - left. vm_compute. lia.
Defined.

(** ** The invariant of the knowledge groups *)

Lemma map_group_ids (f : KnowledgeGroup.t -> KnowledgeGroup.t)
  (groups : list KnowledgeGroup.t) :
  (forall g, KnowledgeGroup.id (f g) = KnowledgeGroup.id g) ->
  List.map KnowledgeGroup.id (List.map f groups)
  = List.map KnowledgeGroup.id groups.
Proof.
  intros H. rewrite map_map. apply map_ext. assumption.
Qed.

Lemma groups_ok_map (f : KnowledgeGroup.t -> KnowledgeGroup.t)
  (groups : list KnowledgeGroup.t) :
  (forall g, KnowledgeGroup.id (f g) = KnowledgeGroup.id g) ->
  (forall g, In g groups -> within_cap g ->
             NoDup (file_names (KnowledgeGroup.files g)) ->
             within_cap (f g)
             /\ NoDup (file_names (KnowledgeGroup.files (f g)))) ->
  groups_ok groups -> groups_ok (List.map f groups).
Proof.
  intros Hid Hf (ND & Hcap & Hnames). unfold groups_ok.
  rewrite (map_group_ids f groups Hid). split; [assumption|].
  rewrite Forall_forall in Hcap, Hnames.
  split; apply Forall_forall; intros g' Hg';
    apply in_map_iff in Hg' as (g & <- & Hg);
    apply (Hf g Hg (Hcap g Hg) (Hnames g Hg)).
Qed.

Lemma filter_length (A : Type) (p : A -> bool) (l : list A) :
  length (List.filter p l) <= length l.
Proof.
  induction l as [|x l IH]; simpl; [lia|]. destruct (p x); simpl; lia.
Qed.

Lemma NoDup_names_filter (p : ManagedFile.t -> bool)
  (l : list ManagedFile.t) :
  NoDup (file_names l) -> NoDup (file_names (List.filter p l)).
Proof.
  induction l as [|f l IH]; simpl; intros ND; [constructor|].
  inversion ND as [|? ? Hnot ND']; subst.
  destruct (p f); simpl; [constructor|]; auto.
  intros Hin. apply Hnot. unfold file_names in *.
  apply in_map_iff in Hin as (f' & E & Hf'). apply filter_In in Hf'.
  apply in_map_iff. exists f'; tauto.
Qed.

Lemma handleAddUrl_ok (active url : jsstring)
  (groups : list KnowledgeGroup.t) :
  groups_ok groups -> groups_ok (App.handleAddUrl active url groups).
Proof.
  apply groups_ok_map.
  - intros g. destruct (eqb _ _); [destruct (_ && _)|]; reflexivity.
  - intros g _ Hcap Hn. destruct (eqb _ _); [|auto].
    destruct (Nat.ltb_spec
                (length (KnowledgeGroup.urls g)
                 + length (KnowledgeGroup.files g)) App.MAX_SOURCES);
      simpl; [|auto].
    destruct (negb _); [|auto]. split; [|assumption].
    unfold within_cap. simpl. rewrite length_app. simpl. lia.
Qed.

Lemma handleRemoveUrl_ok (active url : jsstring)
  (groups : list KnowledgeGroup.t) :
  groups_ok groups -> groups_ok (App.handleRemoveUrl active url groups).
Proof.
  apply groups_ok_map.
  - intros g. destruct (eqb _ _); reflexivity.
  - intros g _ Hcap Hn. destruct (eqb _ _); [|auto]. split; [|assumption].
    unfold within_cap in *. simpl.
    pose proof (filter_length _ (fun u => negb (eqb u url))
                  (KnowledgeGroup.urls g)). lia.
Qed.

Lemma handleRemoveFile_ok (active fileName : jsstring)
  (groups : list KnowledgeGroup.t) :
  groups_ok groups -> groups_ok (App.handleRemoveFile active fileName groups).
Proof.
  apply groups_ok_map.
  - intros g. destruct (eqb _ _); reflexivity.
  - intros g _ Hcap Hn. destruct (eqb _ _); [|auto]. split.
    + unfold within_cap in *. simpl.
      pose proof (filter_length _
                    (fun f => negb (eqb (ManagedFile.name f) fileName))
                    (KnowledgeGroup.files g)). lia.
    + simpl. apply NoDup_names_filter; assumption.
Qed.

(** [handleAddFiles] keeps the invariant when the batch fits into the
    active group: the handler itself does not look at the cap. *)
Lemma handleAddFiles_ok (active : jsstring) (newFiles : list ManagedFile.t)
  (groups : list KnowledgeGroup.t) :
  (forall g, In g groups -> KnowledgeGroup.id g = active ->
             length (KnowledgeGroup.urls g) + length (KnowledgeGroup.files g)
             + length newFiles <= App.MAX_SOURCES) ->
  groups_ok groups -> groups_ok (App.handleAddFiles active newFiles groups).
Proof.
  intros Hfit. apply groups_ok_map.
  - intros g. destruct (eqb _ _); reflexivity.
  - intros g Hg Hcap Hn. destruct (eqb _ _) eqn:E; [|auto].
    apply eqb_eq in E. specialize (Hfit g Hg E). cbv zeta. simpl.
    rewrite uniqueFiles_firstByName. split.
    + unfold within_cap. simpl.
      pose proof (firstByName_length []
                    (KnowledgeGroup.files g ++ newFiles)) as Hl.
      rewrite length_app in Hl. lia.
    + apply firstByName_names.
Qed.

Lemma activeGroup_unique (groups : list KnowledgeGroup.t)
  (active : jsstring) (g : KnowledgeGroup.t) :
  NoDup (List.map KnowledgeGroup.id groups) ->
  In g groups -> KnowledgeGroup.id g = active ->
  App.activeGroup groups active = Some g.
Proof.
  unfold App.activeGroup, array_find.
  induction groups as [|x l IH]; simpl; intros ND Hin Hid; [contradiction|].
  inversion ND as [|? ? Hnot ND']; subst.
  destruct Hin as [-> | Hin].
  - rewrite eqb_refl. reflexivity.
  - destruct (eqb (KnowledgeGroup.id x) (KnowledgeGroup.id g)) eqn:E.
    + apply eqb_eq in E. exfalso. apply Hnot. rewrite E.
      apply in_map; assumption.
    + apply IH; auto.
Qed.

Lemma successful_length (results : list KnowledgeBaseManager.Settled) :
  length (KnowledgeBaseManager.successfulFiles results) <= length results.
Proof.
  induction results as [|[v|m] l IH]; simpl; lia.
Qed.

(** What the capacity check of [handleFileChange] guarantees about the
    files it lets through, and what the reads can make of them. *)
Lemma handleFileChange_check_fits (p : KnowledgeBaseManager.Props)
  (error0 error1 : option jsstring)
  (selected filesToProcess : list KnowledgeBaseManager.File.t) :
  KnowledgeBaseManager.handleFileChange_check p error0 selected
  = (error1, Some filesToProcess) ->
  KnowledgeBaseManager.totalSources p + length filesToProcess
  <= KnowledgeBaseManager.maxSources p.
Proof.
  unfold KnowledgeBaseManager.handleFileChange_check.
  destruct selected as [|f l]; [discriminate|].
  destruct (Nat.leb_spec (KnowledgeBaseManager.maxSources p)
              (KnowledgeBaseManager.totalSources p)); [discriminate|].
  cbv zeta.
  destruct (Nat.ltb_spec (KnowledgeBaseManager.maxSources p)
              (KnowledgeBaseManager.totalSources p
               + length (KnowledgeBaseManager.filesToProcess p (f :: l))));
    [discriminate|].
  intros E. apply (f_equal snd) in E. cbn [snd] in E.
  apply Some_eq in E. rewrite <- E. assumption.
Qed.

Lemma handleFileChange_settled_fits (X : KnowledgeBaseManager.Extractors)
  (error1 : option jsstring)
  (filesToProcess : list KnowledgeBaseManager.File.t)
  (newFiles : list ManagedFile.t) :
  KnowledgeBaseManager.onAddFiles
    (KnowledgeBaseManager.handleFileChange_settled X error1 filesToProcess)
  = Some newFiles ->
  length newFiles <= length filesToProcess.
Proof.
  unfold KnowledgeBaseManager.handleFileChange_settled. cbv zeta.
  cbn [KnowledgeBaseManager.onAddFiles].
  pose proof (successful_length
                (List.map (KnowledgeBaseManager.readPromise X)
                   filesToProcess)) as Hs.
  rewrite length_map in Hs.
  destruct (KnowledgeBaseManager.successfulFiles _) as [|v vs];
    [discriminate|].
  intros E; inversion E; subst. exact Hs.
Qed.

(** ** What the handlers and effects leave alone *)

Lemma add_fetch_state (w : App.World) (r : App.State * option App.FetchCall) :
  App.state (App.add_fetch w r) = fst r.
Proof. reflexivity. Qed.

Lemma activeGroup_map (f : KnowledgeGroup.t -> KnowledgeGroup.t)
  (groups : list KnowledgeGroup.t) (a : jsstring) :
  (forall g, KnowledgeGroup.id (f g) = KnowledgeGroup.id g) ->
  App.activeGroup (List.map f groups) a
  = option_map f (App.activeGroup groups a).
Proof.
  intros Hid. unfold App.activeGroup, array_find.
  induction groups as [|g l IH]; simpl; [reflexivity|].
  rewrite Hid. destruct (eqb (KnowledgeGroup.id g) a); [reflexivity|].
  exact IH.
Qed.

Lemma activeGroup_id (groups : list KnowledgeGroup.t) (a : jsstring)
  (g : KnowledgeGroup.t) :
  App.activeGroup groups a = Some g -> KnowledgeGroup.id g = a.
Proof.
  unfold App.activeGroup, array_find. intros H.
  apply find_some in H as [_ H]. apply eqb_eq. assumption.
Qed.

Lemma set_kb_error_state (e : option jsstring) (w : App.World) :
  App.state (App.set_kb_error e w) = App.state w.
Proof. reflexivity. Qed.

Lemma set_kb_error_sends (e : option jsstring) (w : App.World) :
  App.sends (App.set_kb_error e w) = App.sends w.
Proof. reflexivity. Qed.

Lemma set_kb_error_fetches (e : option jsstring) (w : App.World) :
  App.fetches (App.set_kb_error e w) = App.fetches w.
Proof. reflexivity. Qed.

(** A click the panel turns away leaves everything but its [error]. *)
Lemma RefuseUrl_step (X : KnowledgeBaseManager.Extractors)
  (key : option jsstring) (clock : nat -> N) (currentUrlInput : jsstring)
  (valid : bool) (w w' : App.World) :
  App.step X key clock (App.RefuseUrl currentUrlInput valid) w = Some w' ->
  exists e, w' = App.set_kb_error e w.
Proof.
  unfold App.step. cbv zeta.
  destruct (KnowledgeBaseManager.onAddUrl _); [discriminate|].
  intros H. apply Some_eq in H. subst w'. eexists. reflexivity.
Qed.

Lemma handleSendMessage_groups (key : option jsstring) (clock : nat -> N)
  (query : jsstring) (images : list AttachedImage.t) (st : App.State) :
  App.knowledgeGroups (fst (App.handleSendMessage key clock query images st))
  = App.knowledgeGroups st
  /\ App.activeGroupId (fst (App.handleSendMessage key clock query images st))
     = App.activeGroupId st.
Proof.
  unfold App.handleSendMessage.
  destruct (_ || _); [split; reflexivity|].
  destruct (negb _); split; reflexivity.
Qed.

Lemma fetch_settled_groups (parse : jsstring -> option JSON.value)
  (clock : nat -> N) (r : App.Settlement) (st : App.State) :
  App.knowledgeGroups
    (App.fetchAndSetInitialSuggestions_settled parse clock r st)
  = App.knowledgeGroups st
  /\ App.activeGroupId
       (App.fetchAndSetInitialSuggestions_settled parse clock r st)
     = App.activeGroupId st.
Proof.
  unfold App.fetchAndSetInitialSuggestions_settled.
  destruct r as [response | message]; [|split; reflexivity].
  destruct (GeminiResponse.text response) as [[|c t]|];
    try (split; reflexivity).
  destruct (App.parseSuggestions parse (c :: t)); split; reflexivity.
Qed.

Lemma suggestionsEffect_groups (key : option jsstring) (st : App.State) :
  App.knowledgeGroups (fst (App.suggestionsEffect key st))
  = App.knowledgeGroups st
  /\ App.activeGroupId (fst (App.suggestionsEffect key st))
     = App.activeGroupId st.
Proof.
  unfold App.suggestionsEffect, App.fetchAndSetInitialSuggestions.
  cbv zeta. destruct (_ && _); [|split; reflexivity].
  destruct (_ && _); split; reflexivity.
Qed.

Lemma afterGroups_groups (key : option jsstring) (clock : nat -> N)
  (b : bool) (w : App.World)
  (f : list KnowledgeGroup.t -> list KnowledgeGroup.t) :
  App.knowledgeGroups (App.state (App.afterGroups key clock b w f))
  = f (App.knowledgeGroups (App.state w))
  /\ App.activeGroupId (App.state (App.afterGroups key clock b w f))
     = App.activeGroupId (App.state w).
Proof.
  unfold App.afterGroups. cbv zeta. destruct b; [|split; reflexivity].
  rewrite add_fetch_state.
  destruct (suggestionsEffect_groups key
              (App.welcomeEffect key clock
                 (App.setKnowledgeGroups f (App.state w)))) as [-> ->].
  split; reflexivity.
Qed.

Lemma props_of_active (st : App.State) (g : KnowledgeGroup.t) :
  NoDup (List.map KnowledgeGroup.id (App.knowledgeGroups st)) ->
  In g (App.knowledgeGroups st) ->
  KnowledgeGroup.id g = App.activeGroupId st ->
  KnowledgeBaseManager.totalSources (App.props st)
  = length (KnowledgeGroup.urls g) + length (KnowledgeGroup.files g).
Proof.
  intros ND Hin Hid.
  unfold KnowledgeBaseManager.totalSources, App.props,
    App.currentUrls, App.currentFiles. simpl.
  rewrite (activeGroup_unique _ _ g ND Hin Hid). reflexivity.
Qed.

Ltac rewrite_afterGroups :=
  match goal with
  | |- context [App.afterGroups ?key ?clock ?b ?w0 ?f] =>
      destruct (afterGroups_groups key clock b w0 f) as [-> _]
  end.

Lemma filesRead_groups (X : KnowledgeBaseManager.Extractors)
  (key : option jsstring) (clock : nat -> N)
  (import : jsstring * list KnowledgeBaseManager.File.t) (w : App.World) :
  App.knowledgeGroups (App.state (App.filesRead X key clock import w))
  = match KnowledgeBaseManager.onAddFiles
            (KnowledgeBaseManager.handleFileChange_settled X (App.kb_error w)
               (snd import)) with
    | Some newFiles =>
        App.handleAddFiles (fst import) newFiles
          (App.knowledgeGroups (App.state w))
    | None => App.knowledgeGroups (App.state w)
    end.
Proof.
  unfold App.filesRead. cbv zeta.
  destruct (KnowledgeBaseManager.onAddFiles _); [|reflexivity].
  rewrite_afterGroups. reflexivity.
Qed.

(** Every event keeps the invariant of the groups, when imports are read
    in one piece. *)
Lemma step_groups_ok (X : KnowledgeBaseManager.Extractors)
  (key : option jsstring) (clock : nat -> N) (e : App.Event)
  (w w' : App.World) :
  App.in_one_piece e ->
  App.step X key clock e w = Some w' ->
  groups_ok (App.knowledgeGroups (App.state w)) ->
  groups_ok (App.knowledgeGroups (App.state w')).
Proof.
  intros Hpiece Hstep Hok. unfold App.step in Hstep. cbv zeta in Hstep.
  destruct e; try contradiction.
  - apply Some_eq in Hstep; subst w'. cbn [App.state App.set_sends
      App.set_state].
    destruct (handleSendMessage_groups key clock query images (App.state w))
      as [-> _]. assumption.
  - destruct (nth_error (App.sends w) i); [|discriminate].
    apply Some_eq in Hstep; subst w'. assumption.
  - destruct (nth_error (App.fetches w) i); [|discriminate].
    apply Some_eq in Hstep; subst w'. cbn [App.state App.set_fetches
      App.set_state].
    destruct (fetch_settled_groups JSON.parse clock r (App.state w))
      as [-> _]. assumption.
  - destruct (eqb model _); apply Some_eq in Hstep; subst w';
      [assumption|].
    rewrite add_fetch_state.
    destruct (suggestionsEffect_groups key
                (App.setSelectedModel model (App.state w))) as [-> _].
    assumption.
  - destruct (existsb _ _); [|discriminate].
    destruct (eqb id _); apply Some_eq in Hstep; subst w';
      [assumption|].
    rewrite add_fetch_state.
    destruct (suggestionsEffect_groups key
                (App.welcomeEffect key clock
                   (App.setActiveGroupId id (App.state w)))) as [-> _].
    assumption.
  - apply Some_eq in Hstep; subst w'. rewrite set_kb_error_state.
    rewrite_afterGroups. apply handleAddUrl_ok; assumption.
  - apply Some_eq in Hstep; subst w'. rewrite_afterGroups.
    apply handleRemoveUrl_ok; assumption.
  - destruct (KnowledgeBaseManager.handleFileChange_check _ _ _)
      as [error1 [filesToProcess|]] eqn:Echeck; cbn [fst snd] in Hstep;
      apply Some_eq in Hstep; subst w'; [|assumption].
    rewrite filesRead_groups. cbn [fst snd App.state App.kb_error
      App.set_kb_error].
    destruct (KnowledgeBaseManager.onAddFiles _) as [newFiles|] eqn:Eadd;
      [|assumption].
    apply handleAddFiles_ok; [|assumption].
    intros g Hg Hid. apply handleFileChange_check_fits in Echeck.
    apply handleFileChange_settled_fits in Eadd.
    destruct Hok as (ND & _).
    rewrite (props_of_active (App.state w) g ND Hg Hid) in Echeck.
    unfold App.props in Echeck. cbn [KnowledgeBaseManager.maxSources] in Echeck.
    lia.
  - apply Some_eq in Hstep; subst w'. rewrite_afterGroups.
    apply handleRemoveFile_ok; assumption.
  - apply (RefuseUrl_step X key clock) in Hstep. destruct Hstep as [e ->].
    assumption.
Qed.

Lemma init_groups (key : option jsstring) (clock : nat -> N) :
  App.knowledgeGroups (App.state (App.init key clock))
  = App.INITIAL_KNOWLEDGE_GROUPS.
Proof.
  unfold App.init. cbv zeta. rewrite add_fetch_state.
  match goal with
  | |- context [App.suggestionsEffect key ?st] =>
      destruct (suggestionsEffect_groups key st) as [-> _]
  end.
  reflexivity.
Qed.

Lemma initial_groups_ok : groups_ok App.INITIAL_KNOWLEDGE_GROUPS.
Proof.
  unfold groups_ok, App.INITIAL_KNOWLEDGE_GROUPS. repeat split.
  - simpl. constructor; [|constructor; [|constructor]]; simpl.
    + intros [E | []]. vm_compute in E. discriminate.
    + intros [].
  - repeat constructor; unfold within_cap; vm_compute; lia.
  - repeat constructor.
Qed.

Lemma run_groups_ok (X : KnowledgeBaseManager.Extractors)
  (key : option jsstring) (trace : list (App.Event * (nat -> N)))
  (w w' : App.World) :
  Forall (fun ec => App.in_one_piece (fst ec)) trace ->
  App.run X key trace w = Some w' ->
  groups_ok (App.knowledgeGroups (App.state w)) ->
  groups_ok (App.knowledgeGroups (App.state w')).
Proof.
  intros Hpiece. revert w.
  induction Hpiece as [|[e clock] trace He _ IH]; simpl; intros w H Hok.
  - apply Some_eq in H; subst; assumption.
  - destruct (App.step X key clock e w) as [w1|] eqn:E; [|discriminate].
    apply (IH w1 H). apply (step_groups_ok X key clock e w w1 He E Hok).
Qed.

(** X28.  When every import is read before anything else happens, every
    world that the component reaches from its initial groups has every group
    within the cap of [MAX_SOURCES] sources, with distinct file names. *)
Lemma imports_in_one_piece_keep_cap (X : KnowledgeBaseManager.Extractors)
  (API_KEY : option jsstring) (clock : nat -> N)
  (trace : list (App.Event * (nat -> N))) (w : App.World) :
  Forall (fun ec => App.in_one_piece (fst ec)) trace ->
  App.run X API_KEY trace (App.init API_KEY clock) = Some w ->
  Forall within_cap (App.knowledgeGroups (App.state w))
  /\ Forall (fun g => NoDup (file_names (KnowledgeGroup.files g)))
       (App.knowledgeGroups (App.state w)).
Proof.
  intros Hpiece Hrun.
  apply (run_groups_ok X API_KEY trace _ w Hpiece Hrun).
  rewrite init_groups. apply initial_groups_ok.
Qed.

Lemma imports_in_one_piece_keep_cap_example :
  Forall within_cap
    (App.knowledgeGroups (App.state (run_from_init sampleKey fillTrace)))
  /\ Forall (fun g => NoDup (file_names (KnowledgeGroup.files g)))
       (App.knowledgeGroups (App.state (run_from_init sampleKey fillTrace))).
Proof.
  apply (imports_in_one_piece_keep_cap sampleExtractors sampleKey sampleClock
           fillTrace).
  - repeat constructor.
  - vm_compute. reflexivity.
Defined.

(** The run of the example: the second group ends with exactly 20 sources,
    the sixth URL and the file having been turned away. *)
Lemma fill_trace_ends_at_cap :
  List.map (fun g => length (KnowledgeGroup.urls g)
                     + length (KnowledgeGroup.files g))
    (App.knowledgeGroups (App.state (run_from_init sampleKey fillTrace)))
  = [9; 20]
  /\ App.kb_error (run_from_init sampleKey fillTrace)
     = Some (js "Maximum sources (20) reached. Cannot add more files.").
Proof. vm_compute. split; reflexivity. Qed.

(** Whatever the interleaving, the files of a group have distinct names
    in every world the component reaches. *)
Lemma names_ok_map (f : KnowledgeGroup.t -> KnowledgeGroup.t)
  (groups : list KnowledgeGroup.t) :
  (forall g, NoDup (file_names (KnowledgeGroup.files g)) ->
             NoDup (file_names (KnowledgeGroup.files (f g)))) ->
  Forall (fun g => NoDup (file_names (KnowledgeGroup.files g))) groups ->
  Forall (fun g => NoDup (file_names (KnowledgeGroup.files g)))
    (List.map f groups).
Proof.
  intros Hf H. induction H as [|g l Hg _ IH]; simpl; constructor; auto.
Qed.

Lemma step_names_ok (X : KnowledgeBaseManager.Extractors)
  (key : option jsstring) (clock : nat -> N) (e : App.Event)
  (w w' : App.World) :
  App.step X key clock e w = Some w' ->
  Forall (fun g => NoDup (file_names (KnowledgeGroup.files g)))
    (App.knowledgeGroups (App.state w)) ->
  Forall (fun g => NoDup (file_names (KnowledgeGroup.files g)))
    (App.knowledgeGroups (App.state w')).
Proof.
  intros Hstep Hok.
  assert (Hadd : forall gid newFiles,
    Forall (fun g => NoDup (file_names (KnowledgeGroup.files g)))
      (App.handleAddFiles gid newFiles (App.knowledgeGroups (App.state w)))).
  { intros gid newFiles. apply names_ok_map; [|assumption].
    intros g Hg. destruct (eqb _ _); [|assumption].
    cbv zeta. simpl. rewrite uniqueFiles_firstByName.
    apply firstByName_names. }
  unfold App.step in Hstep. cbv zeta in Hstep.
  destruct e.
  - apply Some_eq in Hstep; subst w'. world_simpl.
    destruct (handleSendMessage_groups key clock query images (App.state w))
      as [-> _]. assumption.
  - destruct (nth_error (App.sends w) i); [|discriminate].
    apply Some_eq in Hstep; subst w'. assumption.
  - destruct (nth_error (App.fetches w) i); [|discriminate].
    apply Some_eq in Hstep; subst w'. world_simpl.
    destruct (fetch_settled_groups JSON.parse clock r (App.state w))
      as [-> _]. assumption.
  - destruct (eqb model _); apply Some_eq in Hstep; subst w';
      [assumption|].
    rewrite add_fetch_state.
    destruct (suggestionsEffect_groups key
                (App.setSelectedModel model (App.state w))) as [-> _].
    assumption.
  - destruct (existsb _ _); [|discriminate].
    destruct (eqb id _); apply Some_eq in Hstep; subst w';
      [assumption|].
    rewrite add_fetch_state.
    destruct (suggestionsEffect_groups key
                (App.welcomeEffect key clock
                   (App.setActiveGroupId id (App.state w)))) as [-> _].
    assumption.
  - apply Some_eq in Hstep; subst w'. rewrite set_kb_error_state.
    rewrite_afterGroups. apply names_ok_map; [|assumption].
    intros g Hg. destruct (eqb _ _); [destruct (_ && _)|]; assumption.
  - apply Some_eq in Hstep; subst w'. rewrite_afterGroups.
    apply names_ok_map; [|assumption].
    intros g Hg. destruct (eqb _ _); assumption.
  - apply Some_eq in Hstep; subst w'. assumption.
  - destruct (nth_error (App.imports w) i); [|discriminate].
    apply Some_eq in Hstep; subst w'. rewrite filesRead_groups.
    world_simpl. destruct (KnowledgeBaseManager.onAddFiles _); auto.
  - destruct (snd _); apply Some_eq in Hstep; subst w'; [|assumption].
    rewrite filesRead_groups. world_simpl.
    destruct (KnowledgeBaseManager.onAddFiles _); auto.
  - apply Some_eq in Hstep; subst w'. rewrite_afterGroups.
    apply names_ok_map; [|assumption].
    intros g Hg. destruct (eqb _ _); [|assumption].
    simpl. apply NoDup_names_filter; assumption.
  - apply (RefuseUrl_step X key clock) in Hstep. destruct Hstep as [e ->].
    assumption.
Qed.

(** X29.  Whatever the events and their interleaving, in every world the
    component reaches the files of each group have distinct names:
    [handleAddFiles] keeps the first file of each name and the other
    handlers only filter the files or leave them. *)
Lemma reachable_names_ok (X : KnowledgeBaseManager.Extractors)
  (key : option jsstring) (w : App.World) :
  App.reachable X key w ->
  Forall (fun g => NoDup (file_names (KnowledgeGroup.files g)))
    (App.knowledgeGroups (App.state w)).
Proof.
  intros (clock & trace & Hrun).
  assert (H0 : Forall (fun g => NoDup (file_names (KnowledgeGroup.files g)))
                 (App.knowledgeGroups (App.state (App.init key clock)))).
  { rewrite init_groups. apply initial_groups_ok. }
  revert Hrun H0. generalize (App.init key clock).
  induction trace as [|[e c] trace IH]; simpl; intros w0 Hrun H0.
  - apply Some_eq in Hrun; subst; assumption.
  - destruct (App.step X key c e w0) as [w1|] eqn:E; [|discriminate].
    apply (IH w1 Hrun). apply (step_names_ok X key c e w0 w1 E H0).
Qed.

Lemma nth_error_last (A : Type) (l : list A) (x : A) :
  nth_error (l ++ [x]) (length l) = Some x.
Proof. induction l; simpl; auto. Qed.

Lemma remove_at_last (A : Type) (l : list A) (x : A) :
  App.remove_at (length l) (l ++ [x]) = l.
Proof. induction l; simpl; [reflexivity|]. f_equal. assumption. Qed.

(** [ImportFiles] is [SelectFiles] followed at once by [FilesRead] for the
    selection. *)
Lemma ImportFiles_in_two_steps (X : KnowledgeBaseManager.Extractors)
  (key : option jsstring) (clock : nat -> N)
  (selectedFiles : list KnowledgeBaseManager.File.t) (w : App.World) :
  App.step X key clock (App.ImportFiles selectedFiles) w
  = match App.step X key clock (App.SelectFiles selectedFiles) w with
    | Some w1 =>
        if length (App.imports w1) =? length (App.imports w) then Some w1
        else App.step X key clock (App.FilesRead (length (App.imports w))) w1
    | None => None
    end.
Proof.
  destruct w as [st e sn ft im]. unfold App.step. cbv zeta.
  cbn [App.state App.kb_error App.imports].
  destruct (KnowledgeBaseManager.handleFileChange_check _ _ _)
    as [error1 [filesToProcess|]];
    cbn [fst snd App.set_imports App.set_kb_error App.state App.kb_error
         App.sends App.fetches App.imports].
  - rewrite length_app. cbn [length].
    destruct (Nat.eqb_spec (length im + 1) (length im)); [lia|].
    rewrite nth_error_last, remove_at_last. reflexivity.
  - rewrite app_nil_r, Nat.eqb_refl. reflexivity.
Qed.

(** C1 does not hold of the code.  The capacity check of [handleFileChange]
    is made when the files are selected, on the sources the panel then
    shows, and [handleAddFiles] -- unlike [handleAddUrl] -- does not look at
    the cap when the reads have settled.  From the initial groups: the
    second group is selected (15 URLs) and four URLs are added (19 sources);
    a file is selected, and the check lets it through (19 + 1 <= 20); while
    it is read, a fifth URL is added, which the panel lets through as well
    (20 sources); then the read settles and the file is added: the group
    holds 21 sources, over [MAX_SOURCES] = 20, and no error is shown. *)
Theorem stale_import_check_exceeds_cap :
  let w19 := run_from_init sampleKey staleCheckTrace in
  let w21 := run_from_init sampleKey staleTrace in
  App.run sampleExtractors sampleKey staleCheckTrace
    (App.init sampleKey sampleClock) = Some w19
  /\ List.map (fun g => length (KnowledgeGroup.urls g)
                        + length (KnowledgeGroup.files g))
       (App.knowledgeGroups (App.state w19)) = [9; 19]
  /\ App.imports w19
     = [(js "model-capabilities", [sampleFile "a.txt" "A"])]
  /\ KnowledgeBaseManager.onAddUrl
       (KnowledgeBaseManager.handleAddUrl sampleValidUrl
          (App.props (App.state w19)) None (js "https://x.test/late"))
     = Some (js "https://x.test/late")
  /\ App.run sampleExtractors sampleKey staleTrace
       (App.init sampleKey sampleClock) = Some w21
  /\ List.map (fun g => (length (KnowledgeGroup.urls g),
                         length (KnowledgeGroup.files g)))
       (App.knowledgeGroups (App.state w21)) = [(9, 0); (20, 1)]
  /\ App.kb_error w21 = None
  /\ App.MAX_SOURCES = 20
  /\ ~ Forall within_cap (App.knowledgeGroups (App.state w21)).
Proof.
  cbv zeta. split; [vm_compute; reflexivity|].
  split; [vm_compute; reflexivity|]. split; [vm_compute; reflexivity|].
  split; [vm_compute; reflexivity|]. split; [vm_compute; reflexivity|].
  split; [vm_compute; reflexivity|]. split; [vm_compute; reflexivity|].
  split; [reflexivity|].
  intros H. rewrite Forall_forall in H.
  assert (Hin : exists g,
    In g (App.knowledgeGroups (App.state (run_from_init sampleKey staleTrace)))
    /\ length (KnowledgeGroup.urls g) + length (KnowledgeGroup.files g) = 21).
  { vm_compute. eexists. split; [right; left; reflexivity | reflexivity]. }
  destruct Hin as (g & Hg & Hlen). specialize (H g Hg).
  unfold within_cap, App.MAX_SOURCES in H. lia.
Qed.

(** ** The invariant of the conversation *)

Arguments js _ : simpl never.
Arguments ofN _ : simpl never.

Lemma suggestionsEffect_chat (key : option jsstring) (st : App.State) :
  App.chatMessages (fst (App.suggestionsEffect key st)) = App.chatMessages st
  /\ App.isLoading (fst (App.suggestionsEffect key st)) = App.isLoading st
  /\ (snd (App.suggestionsEffect key st) = None ->
      App.isFetchingSuggestions (fst (App.suggestionsEffect key st))
      = App.isFetchingSuggestions st).
Proof.
  unfold App.suggestionsEffect, App.fetchAndSetInitialSuggestions.
  cbv zeta. destruct (_ && _); [|repeat split; reflexivity].
  destruct (_ && _); repeat split; try reflexivity. discriminate.
Qed.

Lemma add_fetch_chat_ok (w : App.World) (key : option jsstring)
  (st : App.State) :
  App.isLoading st = App.isLoading (App.state w) ->
  (forall m, In m (App.chatMessages st) -> loading m = true ->
             In m (App.chatMessages (App.state w))) ->
  App.isFetchingSuggestions st = App.isFetchingSuggestions (App.state w) ->
  chat_ok w -> chat_ok (App.add_fetch w (App.suggestionsEffect key st)).
Proof.
  intros Hl Hm Hf (Hs & Hload & Hcall & Hfetch).
  destruct (suggestionsEffect_chat key st) as (Ec & El & Ef).
  unfold chat_ok, App.add_fetch. world_simpl.
  rewrite Ec, El, Hl. repeat split.
  - assumption.
  - intros m Hin Hld. apply Hload; auto.
  - apply Hcall; assumption.
  - apply Hcall; assumption.
  - intros Hset. destruct (snd (App.suggestionsEffect key st)) eqn:E.
    + intros Habs. apply app_eq_nil in Habs as [_ Habs]. discriminate.
    + rewrite app_nil_r. apply Hfetch. rewrite <- Hf, <- (Ef eq_refl).
      assumption.
Qed.

Lemma afterGroups_chat_ok (key : option jsstring) (clock : nat -> N)
  (b : bool) (w : App.World)
  (f : list KnowledgeGroup.t -> list KnowledgeGroup.t) :
  chat_ok w -> chat_ok (App.afterGroups key clock b w f).
Proof.
  intros Hok. unfold App.afterGroups. cbv zeta. destruct b.
  - apply add_fetch_chat_ok; try reflexivity; [|assumption].
    cbn. intros m [<- | []]. discriminate.
  - destruct Hok as (Hs & Hload & Hcall & Hfetch). unfold chat_ok.
    world_simpl. cbn.
    repeat split; try assumption; try (apply Hcall; assumption).
    intros m [<- | []]. discriminate.
Qed.

Lemma systemMessage_not_loading (id text : jsstring) (t : N) :
  loading (App.systemMessage id text t) = false.
Proof. reflexivity. Qed.

Lemma fetch_settled_chat (parse : jsstring -> option JSON.value)
  (clock : nat -> N) (r : App.Settlement) (st : App.State) :
  App.isLoading (App.fetchAndSetInitialSuggestions_settled parse clock r st)
  = App.isLoading st
  /\ App.isFetchingSuggestions
       (App.fetchAndSetInitialSuggestions_settled parse clock r st) = false
  /\ (exists extra,
         App.chatMessages
           (App.fetchAndSetInitialSuggestions_settled parse clock r st)
         = App.chatMessages st ++ extra
         /\ Forall (fun m => loading m = false) extra).
Proof.
  unfold App.fetchAndSetInitialSuggestions_settled.
  destruct r as [response | message].
  - destruct (GeminiResponse.text response) as [[|c t]|];
      try (repeat split; exists []; rewrite app_nil_r; split;
           [reflexivity | constructor]).
    destruct (App.parseSuggestions parse (c :: t)); repeat split;
      try (exists []; rewrite app_nil_r; split; [reflexivity | constructor]);
      eexists; (split; [reflexivity | repeat constructor]).
  - repeat split. eexists; split; [reflexivity | repeat constructor].
Qed.

Lemma chat_ok_one_send (w : App.World) (i : nat) (call : App.SendCall) :
  chat_ok w -> nth_error (App.sends w) i = Some call ->
  i = 0 /\ App.sends w = [call] /\ App.isLoading (App.state w) = true.
Proof.
  intros (Hs & _) Hi. destruct (App.isLoading (App.state w)).
  - destruct (App.sends w) as [|c [|c' l]]; try discriminate.
    destruct i as [|[|i]]; simpl in Hi; try discriminate.
    inversion Hi; subst. auto.
  - destruct (App.sends w); [|discriminate]. destruct i; discriminate.
Qed.

Lemma chat_ok_idle (w : App.World) :
  chat_ok w -> App.isLoading (App.state w) = false ->
  App.sends w = []
  /\ forall m, In m (App.chatMessages (App.state w)) -> loading m = false.
Proof.
  intros (Hs & Hload & _) Hl. rewrite Hl in Hs.
  destruct (App.sends w) eqn:E; [|discriminate]. split; [reflexivity|].
  intros m Hm. destruct (loading m) eqn:El; [|reflexivity].
  destruct (Hload m Hm El) as (c & [] & _).
Qed.

Lemma terminalMessage_not_loading (p : ChatMessage.t) (r : App.Settlement) :
  loading (App.terminalMessage p r) = false.
Proof. destruct r; reflexivity. Qed.

Lemma chat_ok_panel (w : App.World) (e : option jsstring)
  (l : list (jsstring * list KnowledgeBaseManager.File.t)) :
  chat_ok w -> chat_ok (App.set_imports l (App.set_kb_error e w)).
Proof. intros H. exact H. Qed.

Lemma filesRead_chat_ok (X : KnowledgeBaseManager.Extractors)
  (key : option jsstring) (clock : nat -> N)
  (import : jsstring * list KnowledgeBaseManager.File.t) (w : App.World) :
  chat_ok w -> chat_ok (App.filesRead X key clock import w).
Proof.
  intros Hok. unfold App.filesRead. cbv zeta.
  destruct (KnowledgeBaseManager.onAddFiles _).
  - apply afterGroups_chat_ok. exact Hok.
  - exact Hok.
Qed.

(** Every event keeps the invariant of the conversation. *)
Lemma step_chat_ok (X : KnowledgeBaseManager.Extractors)
  (key : option jsstring) (clock : nat -> N) (e : App.Event)
  (w w' : App.World) :
  App.step X key clock e w = Some w' -> chat_ok w -> chat_ok w'.
Proof.
  intros Hstep Hok. unfold App.step in Hstep. cbv zeta in Hstep.
  destruct e.
  - apply Some_eq in Hstep; subst w'.
    unfold App.handleSendMessage.
    destruct (_ || _) eqn:Eguard.
    { cbn [fst snd]. unfold chat_ok. world_simpl. rewrite app_nil_r.
      exact Hok. }
    apply orb_false_iff in Eguard as [Eguard Efetch].
    apply orb_false_iff in Eguard as [_ Eload].
    destruct (chat_ok_idle w Hok Eload) as [Hsends Hnone].
    destruct Hok as (Hs & Hload & Hcall & Hfetch).
    destruct (negb (truthy_opt key)).
    + unfold chat_ok. cbn [fst snd]. world_simpl. cbn. rewrite app_nil_r.
      repeat split; try assumption; try (apply Hcall; assumption).
      intros m Hm Hl. apply in_app_or in Hm as [Hm | [<- | []]].
      * apply Hload; assumption.
      * discriminate.
    + unfold chat_ok. cbn [fst snd]. world_simpl. cbn. rewrite Hsends. cbn.
      repeat split.
      * intros m Hm Hl. apply in_app_or in Hm as [Hm | [<- | [<- | []]]].
        -- rewrite (Hnone m Hm) in Hl. discriminate.
        -- discriminate.
        -- eexists; split; [left; reflexivity | reflexivity].
      * destruct H as [<- | []]. reflexivity.
      * destruct H as [<- | []]. reflexivity.
      * rewrite Efetch. discriminate.
  - destruct (nth_error (App.sends w) i) as [call|] eqn:Ei; [|discriminate].
    apply Some_eq in Hstep; subst w'.
    destruct (chat_ok_one_send w i call Hok Ei) as (-> & Hsends & Hl).
    destruct Hok as (Hs & Hload & Hcall & Hfetch).
    unfold chat_ok, App.handleSendMessage_settled. world_simpl. cbn.
    rewrite Hsends. cbn.
    repeat split; try contradiction; [|assumption].
    intros m Hm Hld. apply in_map_iff in Hm as (m0 & Em & Hm0).
    destruct (eqb (ChatMessage.id m0) _) eqn:Eid.
    + subst m. rewrite terminalMessage_not_loading in Hld. discriminate.
    + subst m0. destruct (Hload m Hm0 Hld) as (c & Hc & Eidc).
      rewrite Hsends in Hc. destruct Hc as [<- | []].
      apply eqb_neq in Eid. contradiction.
  - destruct (nth_error (App.fetches w) i) as [c|] eqn:Ei; [|discriminate].
    apply Some_eq in Hstep; subst w'.
    destruct Hok as (Hs & Hload & Hcall & Hfetch).
    destruct (fetch_settled_chat JSON.parse clock r (App.state w))
      as (El & Ef & extra & Ec & Hextra).
    unfold chat_ok. world_simpl.
    rewrite El, Ef, Ec. repeat split; try assumption;
      try (apply Hcall; assumption); [|discriminate].
    intros m Hm Hld. apply in_app_or in Hm as [Hm | Hm].
    + apply Hload; assumption.
    + rewrite Forall_forall in Hextra. rewrite (Hextra m Hm) in Hld.
      discriminate.
  - destruct (eqb model _); apply Some_eq in Hstep; subst w';
      [assumption|].
    apply add_fetch_chat_ok; auto.
  - destruct (existsb _ _); [|discriminate].
    destruct (eqb id _); apply Some_eq in Hstep; subst w'; [assumption|].
    apply add_fetch_chat_ok; try reflexivity; [|assumption].
    cbn. intros m [<- | []]. discriminate.
  - apply Some_eq in Hstep; subst w'. apply afterGroups_chat_ok; assumption.
  - apply Some_eq in Hstep; subst w'. apply afterGroups_chat_ok; assumption.
  - apply Some_eq in Hstep; subst w'. apply chat_ok_panel; assumption.
  - destruct (nth_error (App.imports w) i); [|discriminate].
    apply Some_eq in Hstep; subst w'. apply filesRead_chat_ok.
    exact Hok.
  - destruct (snd _); apply Some_eq in Hstep; subst w'.
    + apply filesRead_chat_ok. exact Hok.
    + exact Hok.
  - apply Some_eq in Hstep; subst w'. apply afterGroups_chat_ok; assumption.
  - apply (RefuseUrl_step X key clock) in Hstep. destruct Hstep as [e ->].
    exact Hok.
Qed.

Lemma init_chat_ok (key : option jsstring) (clock : nat -> N) :
  chat_ok (App.init key clock).
Proof.
  unfold App.init. cbv zeta.
  apply add_fetch_chat_ok; try reflexivity.
  - cbn. intros m [<- | []]. discriminate.
  - unfold chat_ok. cbn. repeat split; try contradiction. discriminate.
Qed.

Lemma run_chat_ok (X : KnowledgeBaseManager.Extractors)
  (key : option jsstring) (trace : list (App.Event * (nat -> N)))
  (w w' : App.World) :
  App.run X key trace w = Some w' -> chat_ok w -> chat_ok w'.
Proof.
  revert w. induction trace as [|[e clock] trace IH]; simpl; intros w H Hok.
  - apply Some_eq in H; subst; assumption.
  - destruct (App.step X key clock e w) as [w1|] eqn:E; [|discriminate].
    apply (IH w1 H). apply (step_chat_ok X key clock e w w1 E Hok).
Qed.

Lemma reachable_chat_ok (X : KnowledgeBaseManager.Extractors)
  (key : option jsstring) (w : App.World) :
  App.reachable X key w -> chat_ok w.
Proof.
  intros (clock & trace & Hrun).
  apply (run_chat_ok X key trace _ w Hrun). apply init_chat_ok.
Qed.

(** ** Sending *)

Lemma dropWhile_all (p : N -> bool) (s : jsstring) :
  Forall (fun c => p c = true) s -> dropWhile p s = [].
Proof.
  induction 1 as [|c s Hc _ IH]; simpl; [reflexivity|].
  rewrite Hc. assumption.
Qed.

Lemma trim_whitespace_only (s : jsstring) :
  Forall (fun c => is_whitespace c = true) s -> trim s = [].
Proof.
  intros H. unfold trim, trimStart, trimEnd.
  rewrite (dropWhile_all _ s H). reflexivity.
Qed.

Lemma world_eta (w : App.World) :
  App.set_sends (App.sends w ++ []) (App.set_state (App.state w) w) = w.
Proof.
  destruct w; unfold App.set_sends, App.set_state; simpl.
  rewrite app_nil_r. reflexivity.
Qed.

(** C5.  A send whose text is empty or made of white space only, with no
    image attached, does nothing: [handleSendMessage] returns the state it
    was given and issues no call, so the world -- transcript, flags,
    outstanding calls -- is the same after the event; and the send button of
    the chat panel ([handleSend]) does not even call it. *)
Theorem empty_send_ignored :
  forall (query : jsstring) (images : list AttachedImage.t),
    Forall (fun c => is_whitespace c = true) query ->
    images = [] ->
    (forall API_KEY clock st,
        App.handleSendMessage API_KEY clock query images st = (st, None))
    /\ (forall X API_KEY clock w,
        App.step X API_KEY clock (App.Send query images) w = Some w)
    /\ (forall isLoading st,
        ChatInterface.userQuery st = query ->
        ChatInterface.attachedImages st = images ->
        ChatInterface.handleSend isLoading st = (st, None)).
Proof.
  intros query images Hws ->.
  assert (Hsend : forall API_KEY clock st,
    App.handleSendMessage API_KEY clock query [] st = (st, None)).
  { intros key clock st. unfold App.handleSendMessage.
    rewrite (trim_whitespace_only query Hws). reflexivity. }
  repeat split.
  - exact Hsend.
  - intros X key clock w. unfold App.step. cbv zeta. rewrite Hsend.
    cbn [fst snd]. rewrite world_eta. reflexivity.
  - intros isLoading st Hq Hi. unfold ChatInterface.handleSend. cbv zeta.
    rewrite Hq, Hi, (trim_whitespace_only query Hws). reflexivity.
Qed.

Lemma empty_send_ignored_witness :
  (forall API_KEY clock st,
      App.handleSendMessage API_KEY clock [32; 10; 9; 160]%N [] st
      = (st, None))
  /\ (forall X API_KEY clock w,
      App.step X API_KEY clock (App.Send [32; 10; 9; 160]%N []) w = Some w)
  /\ (forall isLoading st,
      ChatInterface.userQuery st = [32; 10; 9; 160]%N ->
      ChatInterface.attachedImages st = [] ->
      ChatInterface.handleSend isLoading st = (st, None)).
Proof.
  apply (empty_send_ignored [32; 10; 9; 160]%N []).
  - repeat constructor.
  - reflexivity.
Defined.

Lemma handleSendMessage_issues (key : option jsstring) (clock : nat -> N)
  (query : jsstring) (images : list AttachedImage.t) (st st1 : App.State)
  (call : App.SendCall) :
  App.handleSendMessage key clock query images st = (st1, Some call) ->
  truthy_opt key = true
  /\ App.isLoading st = false
  /\ App.isFetchingSuggestions st = false
  /\ (exists userMessage,
         App.chatMessages st1
         = App.chatMessages st
           ++ [userMessage; App.modelPlaceholderMessage call]
         /\ ChatMessage.sender userMessage = USER
         /\ ChatMessage.text userMessage = query
         /\ loading userMessage = false
         /\ ChatMessage.id userMessage = js "user-" ++ ofN (clock 0))
  /\ loading (App.modelPlaceholderMessage call) = true
  /\ ChatMessage.sender (App.modelPlaceholderMessage call) = MODEL
  /\ ChatMessage.id (App.modelPlaceholderMessage call)
     = js "model-response-" ++ ofN (clock 2)
  /\ App.isLoading st1 = true.
Proof.
  unfold App.handleSendMessage.
  destruct (_ || _) eqn:Eguard; [discriminate|].
  apply orb_false_iff in Eguard as [Eguard Efetch].
  apply orb_false_iff in Eguard as [_ Eload].
  destruct (truthy_opt key); cbn [negb]; [|discriminate].
  cbv zeta. intros E. inversion E; subst; clear E. cbn.
  repeat split; try assumption.
  eexists. repeat split.
Qed.

Lemma handleSendMessage_passes (key : option jsstring) (clock : nat -> N)
  (query : jsstring) (images : list AttachedImage.t) (st : App.State) :
  truthy (trim query) || negb (length images =? 0) = true ->
  App.isLoading st = false ->
  App.isFetchingSuggestions st = false ->
  truthy_opt key = true ->
  exists call,
    snd (App.handleSendMessage key clock query images st) = Some call.
Proof.
  intros Hin Hl Hf Hk. unfold App.handleSendMessage.
  rewrite Hl, Hf, Hk.
  replace (negb (truthy (trim query)) && (length images =? 0)) with false.
  - cbn. eexists; reflexivity.
  - destruct (truthy (trim query)); simpl in *; [reflexivity|].
    destruct (length images =? 0); simpl in *; congruence.
Qed.

Lemma user_id_not_placeholder_id (a b : jsstring) :
  eqb (js "user-" ++ a) (js "model-response-" ++ b) = false.
Proof. reflexivity. Qed.

Lemma map_replace_fresh (pid : jsstring) (t : ChatMessage.t)
  (l : list ChatMessage.t) :
  (forall m, In m l -> ChatMessage.id m <> pid) ->
  List.map (fun m => if eqb (ChatMessage.id m) pid then t else m) l = l.
Proof.
  induction l as [|m l IH]; intros H; simpl; [reflexivity|].
  rewrite IH by (intros m' Hm'; apply H; right; assumption).
  destruct (eqb (ChatMessage.id m) pid) eqn:E; [|reflexivity].
  apply eqb_eq in E. exfalso. apply (H m); [left; reflexivity | assumption].
Qed.

Lemma handleSendMessage_call (key : option jsstring) (clock : nat -> N)
  (query : jsstring) (images : list AttachedImage.t) (st st1 : App.State)
  (call : App.SendCall) :
  App.handleSendMessage key clock query images st = (st1, Some call) ->
  (exists userMessage,
      App.chatMessages st1
      = App.chatMessages st ++ [userMessage; App.modelPlaceholderMessage call]
      /\ ChatMessage.images userMessage
         = Some (List.map AttachedImage.dataUrl images))
  /\ ChatMessage.text (App.modelPlaceholderMessage call) = js "Thinking..."
  /\ App.send_query call = query
  /\ App.send_images call = images
  /\ App.send_urls call
     = App.currentUrls (App.knowledgeGroups st) (App.activeGroupId st)
  /\ App.send_files call
     = App.currentFiles (App.knowledgeGroups st) (App.activeGroupId st)
  /\ App.send_model call = App.selectedModel st.
Proof.
  unfold App.handleSendMessage.
  destruct (_ || _); [discriminate|].
  destruct (negb _); [discriminate|].
  cbv zeta. intros E. inversion E; subst; clear E. cbn.
  repeat split. eexists. split; reflexivity.
Qed.

(** C2, as amended.  In a world the component can reach:
    - a send that passes the input guard while a credential is configured
      issues one remote call, with the query, the images, the sources of
      the active group and the selected model, and appends the user message
      -- from the user, with the query as its text and the images attached,
      not loading -- followed by one placeholder from the model, which is
      then the only loading message of the transcript; the call is then the
      one outstanding chat call;
    - when an outstanding call settles, every entry of the transcript that
      bears the placeholder's id is replaced, in place, by the terminal
      message -- not loading, from the model with the response text on
      success, from the system with the error text on failure -- and no
      message of the transcript is loading afterwards;
    - when the call settles on the transcript as the send left it and the
      placeholder's id was new, the transcript is the one before the send
      followed by the user message -- from the user, with the query as its
      text -- and that one terminal message. *)
Theorem send_placeholder_lifecycle :
  forall (X : KnowledgeBaseManager.Extractors) (API_KEY : option jsstring)
         (w : App.World),
    App.reachable X API_KEY w ->
    (forall clock query images,
        truthy (trim query) || negb (length images =? 0) = true ->
        App.isLoading (App.state w) = false ->
        App.isFetchingSuggestions (App.state w) = false ->
        truthy_opt API_KEY = true ->
        exists st1 userMessage call,
          App.handleSendMessage API_KEY clock query images (App.state w)
          = (st1, Some call)
          /\ App.chatMessages st1
             = App.chatMessages (App.state w)
               ++ [userMessage; App.modelPlaceholderMessage call]
          /\ loading userMessage = false
          /\ loading (App.modelPlaceholderMessage call) = true
          /\ (forall m, In m (App.chatMessages (App.state w)) ->
                        loading m = false)
          /\ ChatMessage.sender userMessage = USER
          /\ ChatMessage.text userMessage = query
          /\ ChatMessage.images userMessage
             = Some (List.map AttachedImage.dataUrl images)
          /\ ChatMessage.sender (App.modelPlaceholderMessage call) = MODEL
          /\ ChatMessage.text (App.modelPlaceholderMessage call)
             = js "Thinking..."
          /\ App.send_query call = query
          /\ App.send_images call = images
          /\ App.send_urls call
             = App.currentUrls (App.knowledgeGroups (App.state w))
                 (App.activeGroupId (App.state w))
          /\ App.send_files call
             = App.currentFiles (App.knowledgeGroups (App.state w))
                 (App.activeGroupId (App.state w))
          /\ App.send_model call = App.selectedModel (App.state w)
          /\ exists w',
               App.step X API_KEY clock (App.Send query images) w = Some w'
               /\ App.state w' = st1
               /\ App.sends w' = [call])
    /\ (forall clock i call r,
        nth_error (App.sends w) i = Some call ->
        let terminal :=
          App.terminalMessage (App.modelPlaceholderMessage call) r in
        exists w',
          App.step X API_KEY clock (App.SendSettled i r) w = Some w'
          /\ App.chatMessages (App.state w')
             = List.map (fun m =>
                 if eqb (ChatMessage.id m)
                      (ChatMessage.id (App.modelPlaceholderMessage call))
                 then terminal else m) (App.chatMessages (App.state w))
          /\ (forall m, In m (App.chatMessages (App.state w')) ->
                        loading m = false)
          /\ ChatMessage.isLoading terminal = Some false
          /\ match r with
             | App.resolved response =>
                 ChatMessage.sender terminal = MODEL
                 /\ ChatMessage.text terminal
                    = or_else (GeminiResponse.text response)
                        (js "I received an empty response.")
             | App.threw message =>
                 ChatMessage.sender terminal = SYSTEM
                 /\ ChatMessage.text terminal
                    = js "Error: "
                      ++ or_else message (js "Failed to get response from AI.")
             end)
    /\ (forall clock query images st1 call r,
        App.handleSendMessage API_KEY clock query images (App.state w)
        = (st1, Some call) ->
        (forall m, In m (App.chatMessages (App.state w)) ->
                   ChatMessage.id m
                   <> ChatMessage.id (App.modelPlaceholderMessage call)) ->
        exists userMessage,
          App.chatMessages st1
          = App.chatMessages (App.state w)
            ++ [userMessage; App.modelPlaceholderMessage call]
          /\ App.chatMessages (App.handleSendMessage_settled call r st1)
             = App.chatMessages (App.state w)
               ++ [userMessage;
                   App.terminalMessage (App.modelPlaceholderMessage call) r]
          /\ ChatMessage.sender userMessage = USER
          /\ ChatMessage.text userMessage = query
          /\ loading userMessage = false).
Proof.
  intros X key w Hreach. pose proof (reachable_chat_ok X key w Hreach) as Hok.
  split; [|split].
  - intros clock query images Hin Hl Hf Hk.
    destruct (handleSendMessage_passes key clock query images (App.state w)
                Hin Hl Hf Hk) as (call & Hcall).
    destruct (App.handleSendMessage key clock query images (App.state w))
      as [st1 o] eqn:E.
    simpl in Hcall; subst o.
    destruct (handleSendMessage_issues key clock query images _ _ _ E)
      as (_ & _ & _ & (u & Hc & Hus & Hut & Hu & _) & Hp & Hps & _).
    destruct (handleSendMessage_call key clock query images _ _ _ E)
      as ((u' & Hc' & Hui) & Hpt & Hq & Hi & Hurls & Hfiles & Hmodel).
    assert (u' = u).
    { rewrite Hc in Hc'. apply app_inv_head in Hc'. congruence. }
    subst u'.
    destruct (chat_ok_idle w Hok Hl) as [Hsends Hnone].
    exists st1, u, call. split; [reflexivity|].
    repeat (split; [assumption|]).
    unfold App.step. cbv zeta. rewrite E. cbn [fst snd]. eexists.
    split; [reflexivity|]. split; [reflexivity|].
    cbn [App.sends App.set_sends]. rewrite Hsends. reflexivity.
  - intros clock i call r Hi terminal.
    destruct (chat_ok_one_send w i call Hok Hi) as (-> & Hsends & Hl).
    pose proof Hok as (_ & _ & Hcall & _).
    destruct (Hcall call) as [Hmodel Hload]; [rewrite Hsends; left; reflexivity|].
    unfold App.step. cbv zeta. rewrite Hi. eexists. split; [reflexivity|].
    cbn [App.state]. split; [reflexivity|]. split; [|split].
    + assert (Hok' : chat_ok
        (App.set_sends (App.remove_at 0 (App.sends w))
           (App.set_state
              (App.handleSendMessage_settled call r (App.state w)) w))).
      { apply (step_chat_ok X key clock (App.SendSettled 0 r) w); [|assumption].
        unfold App.step. cbv zeta. rewrite Hi. reflexivity. }
      apply (chat_ok_idle _ Hok'). reflexivity.
    + subst terminal. destruct r; reflexivity.
    + subst terminal. destruct r; simpl; split; auto.
  - intros clock query images st1 call r E Hfresh.
    destruct (handleSendMessage_issues key clock query images _ _ _ E)
      as (_ & _ & _ & (u & Hc & Hus & Hut & Hul & Hu) & _ & _ & Hp & _).
    exists u. split; [assumption|].
    split; [|repeat split; assumption].
    unfold App.handleSendMessage_settled. cbn. rewrite Hc, map_app.
    rewrite map_replace_fresh by assumption. simpl.
    rewrite eqb_refl, Hu, Hp, user_id_not_placeholder_id. reflexivity.
Qed.

Lemma send_placeholder_lifecycle_witness :
  exists w',
    App.step sampleExtractors sampleKey sampleClock
      (App.SendSettled 0 sampleAnswer) (run_from_init sampleKey sendTrace)
    = Some w'
    /\ List.map ChatMessage.sender (App.chatMessages (App.state w'))
       = [SYSTEM; USER; MODEL]
    /\ forall m, In m (App.chatMessages (App.state w')) -> loading m = false.
Proof.
  assert (Hreach : App.reachable sampleExtractors sampleKey
                     (run_from_init sampleKey sendTrace)).
  { exists sampleClock, sendTrace. vm_compute. reflexivity. }
  destruct (send_placeholder_lifecycle sampleExtractors sampleKey
              (run_from_init sampleKey sendTrace) Hreach) as (_ & Hsettle & _).
  assert (Hcall : exists call,
             nth_error (App.sends (run_from_init sampleKey sendTrace)) 0
             = Some call).
  { vm_compute. eexists; reflexivity. }
  destruct Hcall as (call & Hcall).
  destruct (Hsettle sampleClock 0 call sampleAnswer Hcall)
    as (w' & Hstep & _ & Hnone & _).
  exists w'. split; [assumption|]. split; [|assumption].
  vm_compute in Hstep. apply Some_eq in Hstep. subst w'. reflexivity.
Defined.

(** C2 as stated fails in two ways.  Without a credential, a send of
    "hello" passes the input guard (text not empty, nothing in flight) and
    yet appends no placeholder: it appends one system message and issues no
    call.  With a credential, when the user selects another group while the
    answer is awaited, the transcript is reset to the welcome message, and
    the settling call finds no placeholder to replace: the transcript ends
    without a terminal message for that send. *)
Lemma send_without_placeholder_or_terminal_message :
  (let w0 := App.init None sampleClock in
   let r :=
     App.handleSendMessage None sampleClock (js "hello") [] (App.state w0) in
   truthy (trim (js "hello")) = true
   /\ App.isLoading (App.state w0) = false
   /\ App.isFetchingSuggestions (App.state w0) = false
   /\ snd r = None
   /\ List.map ChatMessage.sender (App.chatMessages (fst r))
      = [SYSTEM; SYSTEM]
   /\ existsb loading (App.chatMessages (fst r)) = false)
  /\ (let w1 := run_from_init sampleKey switchTrace in
      App.run sampleExtractors sampleKey switchTrace
        (App.init sampleKey sampleClock) = Some w1
      /\ length (App.sends w1) = 1
      /\ exists w2,
          App.step sampleExtractors sampleKey sampleClock
            (App.SendSettled 0 sampleAnswer) w1 = Some w2
          /\ App.sends w2 = []
          /\ List.map ChatMessage.sender (App.chatMessages (App.state w2))
             = [SYSTEM]
          /\ existsb (fun m => eqb (ChatMessage.text m) (js "Hi"))
               (App.chatMessages (App.state w2)) = false).
Proof.
  split.
  - vm_compute. repeat split; reflexivity.
  - cbv zeta. split; [vm_compute; reflexivity|]. split; [reflexivity|].
    eexists. split; [vm_compute; reflexivity|].
    vm_compute. repeat split; reflexivity.
Qed.

(** The suggestions effect starts a call when a credential is configured
    and the active group holds a source, whatever is outstanding. *)
Lemma suggestions_start (key : option jsstring) (w : App.World)
  (st : App.State) :
  truthy_opt key = true ->
  has_sources (App.state (App.add_fetch w (App.suggestionsEffect key st))) ->
  exists call,
    App.fetches (App.add_fetch w (App.suggestionsEffect key st))
    = App.fetches w ++ [call]
    /\ App.state (App.add_fetch w (App.suggestionsEffect key st))
       = App.setInitialQuerySuggestions []
           (App.setIsFetchingSuggestions true st)
    /\ App.fetch_urls call
       = App.currentUrls (App.knowledgeGroups st) (App.activeGroupId st)
    /\ App.fetch_files call
       = App.currentFiles (App.knowledgeGroups st) (App.activeGroupId st)
    /\ App.fetch_model call = App.selectedModel st.
Proof.
  intros Hk Hsrc. unfold has_sources in Hsrc.
  rewrite add_fetch_state in Hsrc.
  destruct (suggestionsEffect_groups key st) as [Eg Ea].
  rewrite Eg, Ea in Hsrc. clear Eg Ea.
  unfold App.suggestionsEffect, App.fetchAndSetInitialSuggestions.
  cbv zeta. rewrite Hk, andb_true_r.
  destruct (App.currentUrls _ _) as [|u urls];
    destruct (App.currentFiles _ _) as [|f files];
    try (cbn; eexists; repeat split; reflexivity).
  destruct Hsrc as [H | H]; contradiction H; reflexivity.
Qed.

Lemma afterGroups_start (key : option jsstring) (clock : nat -> N)
  (w : App.World) (f : list KnowledgeGroup.t -> list KnowledgeGroup.t) :
  truthy_opt key = true ->
  has_sources (App.state (App.afterGroups key clock true w f)) ->
  exists call,
    App.fetches (App.afterGroups key clock true w f) = App.fetches w ++ [call]
    /\ App.isFetchingSuggestions
         (App.state (App.afterGroups key clock true w f)) = true
    /\ App.fetch_urls call
       = App.currentUrls
           (App.knowledgeGroups (App.state (App.afterGroups key clock true w f)))
           (App.activeGroupId (App.state (App.afterGroups key clock true w f)))
    /\ App.fetch_files call
       = App.currentFiles
           (App.knowledgeGroups (App.state (App.afterGroups key clock true w f)))
           (App.activeGroupId (App.state (App.afterGroups key clock true w f)))
    /\ App.fetch_model call
       = App.selectedModel (App.state (App.afterGroups key clock true w f)).
Proof.
  unfold App.afterGroups. cbv zeta. cbn [fst]. intros Hk Hsrc.
  destruct (suggestions_start key w _ Hk Hsrc)
    as (call & Ef & Es & Eu & Efl & Em).
  exists call. rewrite Ef, Es, Eu, Efl, Em. repeat split.
Qed.

Lemma filesRead_start (X : KnowledgeBaseManager.Extractors)
  (key : option jsstring) (clock : nat -> N)
  (import : jsstring * list KnowledgeBaseManager.File.t) (w : App.World) :
  truthy_opt key = true ->
  hands_over X (App.kb_error w) import (App.activeGroupId (App.state w))
  = true ->
  has_sources (App.state (App.filesRead X key clock import w)) ->
  exists call,
    App.fetches (App.filesRead X key clock import w) = App.fetches w ++ [call]
    /\ App.isFetchingSuggestions
         (App.state (App.filesRead X key clock import w)) = true
    /\ App.fetch_urls call
       = App.currentUrls
           (App.knowledgeGroups (App.state (App.filesRead X key clock import w)))
           (App.activeGroupId (App.state (App.filesRead X key clock import w)))
    /\ App.fetch_files call
       = App.currentFiles
           (App.knowledgeGroups (App.state (App.filesRead X key clock import w)))
           (App.activeGroupId (App.state (App.filesRead X key clock import w)))
    /\ App.fetch_model call
       = App.selectedModel (App.state (App.filesRead X key clock import w)).
Proof.
  unfold hands_over, App.filesRead. cbv zeta. intros Hk Hc.
  apply andb_true_iff in Hc as [Ha Hadd].
  destruct (KnowledgeBaseManager.onAddFiles _) as [newFiles|];
    [|discriminate].
  rewrite set_kb_error_state, Ha. intros Hsrc.
  exact (afterGroups_start key clock _ _ Hk Hsrc).
Qed.

(** A change of the sources or of the model, in the presence of a
    credential, starts a suggestion call when it leaves the active group
    with a source. *)
Lemma changes_start (X : KnowledgeBaseManager.Extractors)
  (key : option jsstring) (clock : nat -> N) (e : App.Event)
  (w w' : App.World) :
  truthy_opt key = true ->
  changes_sources_or_model X e w = true ->
  App.step X key clock e w = Some w' ->
  has_sources (App.state w') ->
  exists call,
    App.fetches w' = App.fetches w ++ [call]
    /\ App.isFetchingSuggestions (App.state w') = true
    /\ App.fetch_urls call
       = App.currentUrls (App.knowledgeGroups (App.state w'))
           (App.activeGroupId (App.state w'))
    /\ App.fetch_files call
       = App.currentFiles (App.knowledgeGroups (App.state w'))
           (App.activeGroupId (App.state w'))
    /\ App.fetch_model call = App.selectedModel (App.state w').
Proof.
  intros Hk Hc Hstep Hsrc. unfold App.step in Hstep. cbv zeta in Hstep.
  unfold changes_sources_or_model in Hc. cbv zeta in Hc.
  destruct e; try discriminate.
  - apply negb_true_iff in Hc. rewrite Hc in Hstep.
    apply Some_eq in Hstep; subst w'.
    destruct (suggestions_start key w _ Hk Hsrc)
      as (call & Ef & Es & Eu & Efl & Em).
    exists call. rewrite Ef, Es, Eu, Efl, Em. repeat split.
  - apply negb_true_iff in Hc. destruct (existsb _ _); [|discriminate].
    rewrite Hc in Hstep. apply Some_eq in Hstep; subst w'.
    destruct (suggestions_start key w _ Hk Hsrc)
      as (call & Ef & Es & Eu & Efl & Em).
    exists call. rewrite Ef, Es, Eu, Efl, Em. repeat split.
  - destruct (App.activeGroup _ _) as [g|] eqn:Eg; [|discriminate].
    assert (Hadded :
      negb (length (App.currentUrls
                      (App.handleAddUrl (App.activeGroupId (App.state w)) url
                         (App.knowledgeGroups (App.state w)))
                      (App.activeGroupId (App.state w)))
            =? length (App.currentUrls (App.knowledgeGroups (App.state w))
                         (App.activeGroupId (App.state w)))) = true).
    { unfold App.currentUrls, App.handleAddUrl.
      rewrite activeGroup_map
        by (intros g0; destruct (eqb _ _); [|reflexivity];
            match goal with
            | |- context [if ?c then _ else _] => destruct c
            end; reflexivity).
      rewrite Eg. cbn [option_map].
      rewrite (activeGroup_id _ _ _ Eg), eqb_refl, Hc.
      cbn [KnowledgeGroup.urls]. rewrite length_app. cbn [length].
      apply negb_true_iff, Nat.eqb_neq. lia. }
    rewrite Hadded in Hstep. apply Some_eq in Hstep; subst w'.
    exact (afterGroups_start key clock _ _ Hk Hsrc).
  - apply Some_eq in Hstep; subst w'.
    exact (afterGroups_start key clock _ _ Hk Hsrc).
  - destruct (nth_error (App.imports w) i) as [import|]; [|discriminate].
    apply Some_eq in Hstep; subst w'.
    match type of Hsrc with
    | has_sources (App.state (App.filesRead _ _ _ ?imp ?w0)) =>
        exact (filesRead_start X key clock imp w0 Hk Hc Hsrc)
    end.
  - destruct (snd _) as [filesToProcess|]; [|discriminate].
    apply Some_eq in Hstep; subst w'.
    match type of Hsrc with
    | has_sources (App.state (App.filesRead _ _ _ ?imp ?w0)) =>
        exact (filesRead_start X key clock imp w0 Hk Hc Hsrc)
    end.
  - apply Some_eq in Hstep; subst w'.
    exact (afterGroups_start key clock _ _ Hk Hsrc).
Qed.

(** C6, as amended.  In a world the component can reach, at most one chat
    call is outstanding and [isLoading] is set exactly while there is one;
    while [isLoading] or [isFetchingSuggestions] is set, a send leaves the
    world as it is (no message, no call); the settling of the chat call
    clears [isLoading]; [isFetchingSuggestions] is set only while some
    suggestion call is outstanding, and the settling of any suggestion call
    clears it, whatever else is outstanding.  Suggestion calls are not
    limited to one: with a credential configured, every change of the
    sources or of the model that leaves the active group with a source
    starts another call -- for the sources of the active group and the
    selected model as they then are -- beside those that are outstanding,
    and sets [isFetchingSuggestions]. *)
Theorem one_outstanding_send :
  forall (X : KnowledgeBaseManager.Extractors) (API_KEY : option jsstring)
         (w : App.World),
    App.reachable X API_KEY w ->
    length (App.sends w) <= 1
    /\ (App.isLoading (App.state w) = true <-> App.sends w <> [])
    /\ (App.isLoading (App.state w) = true
        \/ App.isFetchingSuggestions (App.state w) = true ->
        forall clock query images,
          App.step X API_KEY clock (App.Send query images) w = Some w)
    /\ (forall clock i r w',
        App.step X API_KEY clock (App.SendSettled i r) w = Some w' ->
        App.isLoading (App.state w') = false /\ App.sends w' = [])
    /\ (App.isFetchingSuggestions (App.state w) = true -> App.fetches w <> [])
    /\ (forall clock i r w',
        App.step X API_KEY clock (App.FetchSettled i r) w = Some w' ->
        App.isFetchingSuggestions (App.state w') = false
        /\ S (length (App.fetches w')) = length (App.fetches w))
    /\ (forall clock e w',
        truthy_opt API_KEY = true ->
        changes_sources_or_model X e w = true ->
        App.step X API_KEY clock e w = Some w' ->
        has_sources (App.state w') ->
        exists call,
          App.fetches w' = App.fetches w ++ [call]
          /\ App.isFetchingSuggestions (App.state w') = true
          /\ App.fetch_urls call
             = App.currentUrls (App.knowledgeGroups (App.state w'))
                 (App.activeGroupId (App.state w'))
          /\ App.fetch_files call
             = App.currentFiles (App.knowledgeGroups (App.state w'))
                 (App.activeGroupId (App.state w'))
          /\ App.fetch_model call = App.selectedModel (App.state w')).
Proof.
  intros X key w Hreach. pose proof (reachable_chat_ok X key w Hreach) as Hok.
  pose proof Hok as (Hs & _ & _ & Hfetch).
  split; [|split; [|split; [|split; [|split; [|split]]]]];
    [| | | | | |
     intros clock e w' Hk Hc Hstep Hsrc;
     exact (changes_start X key clock e w w' Hk Hc Hstep Hsrc)].
  all: repeat split.
  - destruct (App.isLoading (App.state w)); lia.
  - intros Hl Hnil. rewrite Hl, Hnil in Hs. discriminate.
  - intros Hne. destruct (App.isLoading (App.state w)); [reflexivity|].
    destruct (App.sends w); [congruence | discriminate].
  - intros Hflag clock query images. unfold App.step. cbv zeta.
    assert (E : App.handleSendMessage key clock query images (App.state w)
                = (App.state w, None)).
    { unfold App.handleSendMessage.
      destruct Hflag as [-> | ->]; rewrite ?orb_true_r; reflexivity. }
    rewrite E. cbn [fst snd]. rewrite world_eta. reflexivity.
  - unfold App.step in H. cbv zeta in H.
    destruct (nth_error (App.sends w) i); [|discriminate].
    apply Some_eq in H; subst w'. reflexivity.
  - unfold App.step in H. cbv zeta in H.
    destruct (nth_error (App.sends w) i) as [call|] eqn:Ei; [|discriminate].
    apply Some_eq in H; subst w'.
    destruct (chat_ok_one_send w i call Hok Ei) as (-> & -> & _).
    reflexivity.
  - assumption.
  - unfold App.step in H. cbv zeta in H.
    destruct (nth_error (App.fetches w) i); [|discriminate].
    apply Some_eq in H; subst w'. cbn [App.state].
    apply fetch_settled_chat.
  - unfold App.step in H. cbv zeta in H.
    destruct (nth_error (App.fetches w) i) as [c|] eqn:Ei; [|discriminate].
    apply Some_eq in H; subst w'. cbn [App.fetches].
    clear - Ei. revert i Ei.
    induction (App.fetches w) as [|x l IH]; intros [|i] Ei; simpl in *;
      try discriminate; [reflexivity|].
    rewrite (IH i Ei). reflexivity.
Qed.

Lemma one_outstanding_send_witness :
  length (App.sends (run_from_init sampleKey sendTrace)) <= 1
  /\ (App.isLoading (App.state (run_from_init sampleKey sendTrace)) = true
      <-> App.sends (run_from_init sampleKey sendTrace) <> [])
  /\ (forall clock query images,
      App.step sampleExtractors sampleKey clock (App.Send query images)
        (run_from_init sampleKey sendTrace)
      = Some (run_from_init sampleKey sendTrace))
  /\ exists call,
      App.fetches (run_from_init sampleKey (sendTrace ++ twoFetchesTrace))
      = App.fetches (run_from_init sampleKey sendTrace) ++ [call]
      /\ App.fetch_model call = js "gemini-2.5-pro".
Proof.
  assert (Hreach : App.reachable sampleExtractors sampleKey
                     (run_from_init sampleKey sendTrace)).
  { exists sampleClock, sendTrace. vm_compute. reflexivity. }
  destruct (one_outstanding_send sampleExtractors sampleKey
              (run_from_init sampleKey sendTrace) Hreach)
    as (H1 & H2 & H3 & _ & _ & _ & H7).
  split; [exact H1|]. split; [exact H2|].
  split; [apply H3; left; vm_compute; reflexivity|].
  destruct (H7 sampleClock (App.SetModel (js "gemini-2.5-pro"))
              (run_from_init sampleKey (sendTrace ++ twoFetchesTrace)))
    as (call & Hf & _ & _ & _ & Hm).
  - reflexivity.
  - vm_compute. reflexivity.
  - vm_compute. reflexivity.
  - left. vm_compute. discriminate.
  - exists call. split; [exact Hf|]. rewrite Hm. vm_compute. reflexivity.
Defined.

(** C6 as stated fails for suggestion calls: nothing guards
    [fetchAndSetInitialSuggestions].  The first render starts one; when the
    user changes the model before it settles, a second one is started, so
    two are outstanding; when the first of them settles,
    [isFetchingSuggestions] is cleared although the second is outstanding,
    and a send is then accepted. *)
Lemma two_suggestion_calls_outstanding :
  let w2 := run_from_init sampleKey twoFetchesTrace in
  let w3 := run_from_init sampleKey firstFetchSettledTrace in
  App.run sampleExtractors sampleKey twoFetchesTrace
    (App.init sampleKey sampleClock) = Some w2
  /\ length (App.fetches w2) = 2
  /\ App.run sampleExtractors sampleKey firstFetchSettledTrace
       (App.init sampleKey sampleClock) = Some w3
  /\ length (App.fetches w3) = 1
  /\ App.isFetchingSuggestions (App.state w3) = false
  /\ exists call,
      snd (App.handleSendMessage sampleKey sampleClock (js "hello") []
             (App.state w3)) = Some call.
Proof.
  cbv zeta. split; [vm_compute; reflexivity|]. split; [reflexivity|].
  split; [vm_compute; reflexivity|]. split; [reflexivity|].
  split; [reflexivity|]. vm_compute. eexists; reflexivity.
Qed.

(** ** The regular-expression matcher *)

Lemma m_chr_take (p : N -> bool) (pos : nat) (c : N) (s : jsstring)
  (caps : list (nat * jsstring)) (k : Regex.Cont) :
  p c = true ->
  Regex.m (Regex.Chr p) (at_ pos (c :: s) caps) k = k (at_ (S pos) s caps).
Proof. intros H. simpl. rewrite H. reflexivity. Qed.

Lemma m_chr_stop (p : N -> bool) (pos : nat) (s : jsstring)
  (caps : list (nat * jsstring)) (k : Regex.Cont) :
  stops p s -> Regex.m (Regex.Chr p) (at_ pos s caps) k = None.
Proof.
  destruct s as [|c s]; simpl; intros H; [reflexivity|].
  rewrite H. reflexivity.
Qed.

Lemma progressed_advanced (pos pos' : nat) (s s' : jsstring)
  (caps caps' : list (nat * jsstring)) (k : Regex.Cont) :
  pos' <> pos ->
  Regex.progressed (at_ pos s caps) k (at_ pos' s' caps')
  = k (at_ pos' s' caps').
Proof.
  intros H. unfold Regex.progressed. simpl.
  destruct (Nat.eqb_spec pos' pos); [contradiction | reflexivity].
Qed.

(** A greedy run of one-unit atoms takes the longest run there is, when
    what follows can then be matched. *)
Lemma star_greedy_run (p : N -> bool) (k : Regex.Cont) (a b : jsstring)
  (caps : list (nat * jsstring)) (res : Regex.State) :
  all p a -> stops p b ->
  forall fuel pos,
    length a <= fuel ->
    k (at_ (pos + length a) b caps) = Some res ->
    Regex.star (Regex.m (Regex.Chr p)) true k fuel (at_ pos (a ++ b) caps)
    = Some res.
Proof.
  intros Ha Hb. induction Ha as [|c a Hc Ha IH]; intros fuel pos Hfuel Hk.
  - simpl in Hk. rewrite Nat.add_0_r in Hk.
    destruct fuel; cbn [Regex.star app].
    + exact Hk.
    + rewrite (m_chr_stop p pos b caps _ Hb). cbn [Regex.or_try]. exact Hk.
  - destruct fuel as [|fuel]; [simpl in Hfuel; lia|].
    cbn [Regex.star app]. rewrite (m_chr_take p pos c (a ++ b) caps _ Hc).
    rewrite progressed_advanced by lia.
    rewrite (IH fuel (S pos)).
    + reflexivity.
    + simpl in Hfuel; lia.
    + simpl in Hk. rewrite <- Nat.add_succ_comm in Hk. exact Hk.
Qed.

(** A lazy run of any units stops at the first position from which what
    follows can be matched. *)
Lemma star_lazy_first (k : Regex.Cont) (pre post : jsstring)
  (caps : list (nat * jsstring)) (res : Regex.State) :
  forall fuel pos,
    length pre <= fuel ->
    (forall j, j < length pre ->
               k (at_ (pos + j) (skipn j pre ++ post) caps) = None) ->
    k (at_ (pos + length pre) post caps) = Some res ->
    Regex.star (Regex.m (Regex.Chr Regex.any)) false k fuel
      (at_ pos (pre ++ post) caps)
    = Some res.
Proof.
  induction pre as [|c pre IH]; intros fuel pos Hfuel Hnone Hk.
  - simpl in Hk. rewrite Nat.add_0_r in Hk.
    destruct fuel; cbn [Regex.star app]; [exact Hk|].
    rewrite Hk. reflexivity.
  - destruct fuel as [|fuel]; [simpl in Hfuel; lia|].
    cbn [Regex.star app].
    pose proof (Hnone 0 ltac:(simpl; lia)) as H0.
    rewrite Nat.add_0_r in H0. simpl in H0. rewrite H0.
    cbn [Regex.or_try].
    rewrite (m_chr_take Regex.any pos c (pre ++ post) caps _ eq_refl).
    rewrite progressed_advanced by lia.
    apply IH.
    + simpl in Hfuel; lia.
    + intros j Hj. specialize (Hnone (S j) ltac:(simpl; lia)).
      rewrite <- Nat.add_succ_comm in Hnone. exact Hnone.
    + simpl in Hk. rewrite <- Nat.add_succ_comm in Hk. exact Hk.
Qed.

(** Whatever a run of one-unit atoms leads to, it took a run of such units
    and went on from there. *)
Lemma star_run_inv (p : N -> bool) (greedy : bool) (k : Regex.Cont)
  (res : Regex.State) :
  forall fuel pos s caps,
    Regex.star (Regex.m (Regex.Chr p)) greedy k fuel (at_ pos s caps)
    = Some res ->
    exists a b,
      s = a ++ b /\ all p a /\ k (at_ (pos + length a) b caps) = Some res.
Proof.
  induction fuel as [|fuel IH]; intros pos s caps H.
  - simpl in H. exists [], s. simpl. rewrite Nat.add_0_r.
    repeat split; [constructor | assumption].
  - assert (Hhere : k (at_ pos s caps) = Some res ->
              exists a b, s = a ++ b /\ all p a
                          /\ k (at_ (pos + length a) b caps) = Some res).
    { intros Hk. exists [], s. simpl. rewrite Nat.add_0_r.
      repeat split; [constructor | assumption]. }
    assert (Hiter :
      Regex.m (Regex.Chr p) (at_ pos s caps)
        (Regex.progressed (at_ pos s caps)
           (Regex.star (Regex.m (Regex.Chr p)) greedy k fuel)) = Some res ->
      exists a b, s = a ++ b /\ all p a
                  /\ k (at_ (pos + length a) b caps) = Some res).
    { destruct s as [|c s].
      { rewrite (m_chr_stop p pos [] caps _ I). discriminate. }
      destruct (p c) eqn:Hc.
      2:{ rewrite (m_chr_stop p pos (c :: s) caps _ Hc). discriminate. }
      rewrite (m_chr_take p pos c s caps _ Hc).
      rewrite progressed_advanced by lia. intros Hs.
      destruct (IH (S pos) s caps Hs) as (a & b & -> & Ha & Hk).
      exists (c :: a), b. repeat split.
      - constructor; assumption.
      - simpl. rewrite <- Nat.add_succ_comm. exact Hk. }
    cbn [Regex.star] in H. destruct greedy; unfold Regex.or_try in H.
    + destruct (Regex.m (Regex.Chr p) (at_ pos s caps) _) eqn:E.
      * apply Hiter. exact H.
      * apply Hhere. exact H.
    + destruct (k (at_ pos s caps)) eqn:E.
      * apply Hhere. exact H.
      * apply Hiter. exact H.
Qed.

Lemma m_literal (l : jsstring) (pos : nat) (s : jsstring)
  (caps : list (nat * jsstring)) (k : Regex.Cont) :
  Regex.m (Regex.literal l) (at_ pos (l ++ s) caps) k
  = k (at_ (pos + length l) s caps).
Proof.
  revert pos. induction l as [|c l IH]; intros pos; simpl.
  - rewrite Nat.add_0_r. reflexivity.
  - rewrite N.eqb_refl. unfold Regex.advance. simpl.
    change {| Regex.pos := S pos; Regex.rest := l ++ s;
              Regex.captures := caps |} with (at_ (S pos) (l ++ s) caps).
    rewrite IH. rewrite <- Nat.add_succ_comm. reflexivity.
Qed.

Lemma m_literal_exact (l : jsstring) (pos : nat)
  (caps : list (nat * jsstring)) (k : Regex.Cont) :
  Regex.m (Regex.literal l) (at_ pos l caps) k
  = k (at_ (pos + length l) [] caps).
Proof.
  pose proof (m_literal l pos [] caps k) as H.
  rewrite app_nil_r in H. exact H.
Qed.

Lemma m_literal_inv (l : jsstring) (k : Regex.Cont) (res : Regex.State) :
  forall pos s caps,
    Regex.m (Regex.literal l) (at_ pos s caps) k = Some res ->
    exists s', s = l ++ s' /\ k (at_ (pos + length l) s' caps) = Some res.
Proof.
  induction l as [|c l IH]; intros pos s caps H; simpl in H.
  - exists s. simpl. rewrite Nat.add_0_r. auto.
  - destruct s as [|c' s]; [discriminate|].
    destruct (N.eqb_spec c c'); [subst c'|discriminate].
    unfold Regex.advance in H. simpl in H.
    change {| Regex.pos := S pos; Regex.rest := s;
              Regex.captures := caps |} with (at_ (S pos) s caps) in H.
    destruct (IH (S pos) s caps H) as (s' & -> & Hk).
    exists s'. split; [reflexivity|]. simpl.
    rewrite <- Nat.add_succ_comm. exact Hk.
Qed.

Lemma m_opt (a : Regex.t) (x : Regex.State) (k : Regex.Cont) :
  Regex.m (Regex.Opt a) x k
  = Regex.or_try (Regex.m a x (Regex.progressed x k)) (fun _ => k x).
Proof. reflexivity. Qed.

Lemma m_seq (a b : Regex.t) (x : Regex.State) (k : Regex.Cont) :
  Regex.m (Regex.Seq a b) x k = Regex.m a x (fun y => Regex.m b y k).
Proof. reflexivity. Qed.

Lemma m_group (i : nat) (a : Regex.t) (x : Regex.State) (k : Regex.Cont) :
  Regex.m (Regex.Group i a) x k
  = Regex.m a x (fun y => k (Regex.capture i x y)).
Proof. reflexivity. Qed.

Lemma m_star (greedy : bool) (a : Regex.t) (x : Regex.State)
  (k : Regex.Cont) :
  Regex.m (Regex.Star greedy a) x k
  = Regex.star (Regex.m a) greedy k (length (Regex.rest x)) x.
Proof. reflexivity. Qed.

Lemma m_opt_chr_inv (p : N -> bool) (k : Regex.Cont) (res : Regex.State)
  (pos : nat) (s : jsstring) (caps : list (nat * jsstring)) :
  Regex.m (Regex.Opt (Regex.Chr p)) (at_ pos s caps) k = Some res ->
  k (at_ pos s caps) = Some res
  \/ exists c s', s = c :: s' /\ p c = true
                  /\ k (at_ (S pos) s' caps) = Some res.
Proof.
  rewrite m_opt. unfold Regex.or_try.
  destruct s as [|c s].
  { rewrite (m_chr_stop p pos [] caps _ I). auto. }
  destruct (p c) eqn:Hc.
  2:{ rewrite (m_chr_stop p pos (c :: s) caps _ Hc). auto. }
  rewrite (m_chr_take p pos c s caps _ Hc).
  rewrite progressed_advanced by lia.
  destruct (k (at_ (S pos) s caps)) eqn:E; [|auto].
  intros H. right. exists c, s. repeat split; congruence.
Qed.

Lemma m_opt_chr_skip (p : N -> bool) (k : Regex.Cont) (pos : nat)
  (s : jsstring) (caps : list (nat * jsstring)) :
  stops p s ->
  Regex.m (Regex.Opt (Regex.Chr p)) (at_ pos s caps) k = k (at_ pos s caps).
Proof.
  intros H. rewrite m_opt, (m_chr_stop p pos s caps _ H).
  reflexivity.
Qed.

Lemma m_bol (s : jsstring) (caps : list (nat * jsstring)) (k : Regex.Cont) :
  Regex.m Regex.Bol (at_ 0 s caps) k = k (at_ 0 s caps).
Proof. reflexivity. Qed.

Lemma m_eol_inv (pos : nat) (s : jsstring) (caps : list (nat * jsstring))
  (res : Regex.State) :
  Regex.m Regex.Eol (at_ pos s caps) Some = Some res -> s = [].
Proof. destruct s; simpl; [reflexivity | discriminate]. Qed.

Lemma newline_whitespace (c : N) :
  Regex.newline c = true -> is_whitespace c = true.
Proof.
  unfold Regex.newline. intros H. apply N.eqb_eq in H. subst. reflexivity.
Qed.

Lemma stops_newline (s : jsstring) :
  stops is_whitespace s -> stops Regex.newline s.
Proof.
  destruct s as [|c s]; simpl; [auto|]. intros H.
  destruct (Regex.newline c) eqn:E; [|reflexivity].
  apply newline_whitespace in E. congruence.
Qed.

Lemma fenceClose_match (W : jsstring) (pos : nat)
  (caps : list (nat * jsstring)) :
  all is_whitespace W ->
  exists pos',
    Regex.m fenceClose (at_ pos (W ++ js "```") caps) Some
    = Some (at_ pos' [] caps).
Proof.
  intros HW. eexists. unfold fenceClose. rewrite m_seq, m_star.
  apply (star_greedy_run is_whitespace _ W (js "```") caps _ HW).
  - reflexivity.
  - cbn [Regex.rest at_]. rewrite length_app. lia.
  - cbv beta. rewrite m_seq, m_literal_exact. reflexivity.
Qed.

Lemma fenceTail_match (W : jsstring) (pos : nat)
  (caps : list (nat * jsstring)) :
  all is_whitespace W ->
  exists pos',
    Regex.m fenceTail (at_ pos (W ++ js "```") caps) Some
    = Some (at_ pos' [] caps).
Proof.
  intros HW. unfold fenceTail. destruct W as [|w0 W].
  - destruct (fenceClose_match [] pos caps HW) as (pos' & E).
    exists pos'. rewrite m_seq, m_opt_chr_skip by reflexivity. exact E.
  - destruct (Regex.newline w0) eqn:Enl.
    + inversion HW as [|? ? _ HW']; subst.
      destruct (fenceClose_match W (S pos) caps HW') as (pos' & E).
      exists pos'. rewrite m_seq, m_opt. cbn [app].
      rewrite (m_chr_take Regex.newline pos w0 (W ++ js "```") caps _ Enl).
      rewrite progressed_advanced by lia. rewrite E. reflexivity.
    + destruct (fenceClose_match (w0 :: W) pos caps HW) as (pos' & E).
      exists pos'. rewrite m_seq, m_opt_chr_skip by exact Enl. exact E.
Qed.

Lemma fenceClose_inv (pos : nat) (s : jsstring)
  (caps : list (nat * jsstring)) (res : Regex.State) :
  Regex.m fenceClose (at_ pos s caps) Some = Some res ->
  exists W, s = W ++ js "```" /\ all is_whitespace W.
Proof.
  unfold fenceClose. rewrite m_seq, m_star. intros H.
  apply star_run_inv in H as (a & b & -> & Ha & H).
  rewrite m_seq in H. apply m_literal_inv in H as (s' & -> & H).
  apply m_eol_inv in H. subst s'. rewrite app_nil_r.
  exists a. split; [reflexivity | assumption].
Qed.

Lemma fenceTail_inv (pos : nat) (s : jsstring)
  (caps : list (nat * jsstring)) (res : Regex.State) :
  Regex.m fenceTail (at_ pos s caps) Some = Some res ->
  exists W, s = W ++ js "```" /\ all is_whitespace W.
Proof.
  unfold fenceTail. rewrite m_seq. intros H.
  apply m_opt_chr_inv in H as [H | (c & s' & -> & Hc & H)].
  - apply fenceClose_inv in H. exact H.
  - apply fenceClose_inv in H as (W & -> & HW).
    exists (c :: W). split; [reflexivity|].
    constructor; [apply newline_whitespace; assumption | assumption].
Qed.

(** No proper suffix of the payload's core, followed by the closing
    fence, is itself a closing fence: the core ends in a unit that is not
    white space. *)
Lemma fenceTail_inside (core' : jsstring) (z : N) (W : jsstring) (j pos : nat)
  (caps : list (nat * jsstring)) :
  is_whitespace z = false ->
  j < length (core' ++ [z]) ->
  Regex.m fenceTail
    (at_ pos (skipn j (core' ++ [z]) ++ W ++ js "```") caps) Some
  = None.
Proof.
  intros Hz Hj.
  destruct (Regex.m fenceTail _ Some) as [res|] eqn:E; [|reflexivity].
  exfalso. apply fenceTail_inv in E as (W' & E & HW').
  rewrite length_app in Hj. simpl in Hj.
  rewrite skipn_app in E.
  replace (j - length core') with 0 in E by lia. cbn [skipn] in E.
  rewrite app_assoc in E. apply app_inv_tail in E.
  assert (Hin : In z W').
  { rewrite <- E. apply in_or_app; left. apply in_or_app; right.
    left; reflexivity. }
  unfold all in HW'. rewrite Forall_forall in HW'.
  rewrite (HW' z Hin) in Hz. discriminate.
Qed.

Lemma firstn_exact (A : Type) (l r : list A) (n : nat) :
  n = length l -> firstn n (l ++ r) = l.
Proof.
  intros ->. induction l as [|x l IH]; simpl; [reflexivity|].
  rewrite IH. reflexivity.
Qed.

Lemma stops_app (p : N -> bool) (s t : jsstring) :
  s <> [] -> stops p s -> stops p (s ++ t).
Proof. destruct s; simpl; [congruence | auto]. Qed.

Lemma star_stop (p : N -> bool) (k : Regex.Cont) (fuel pos : nat)
  (s : jsstring) (caps : list (nat * jsstring)) :
  stops p s ->
  Regex.star (Regex.m (Regex.Chr p)) true k fuel (at_ pos s caps)
  = k (at_ pos s caps).
Proof.
  intros H. destruct fuel; cbn [Regex.star]; [reflexivity|].
  rewrite (m_chr_stop p pos s caps _ H). reflexivity.
Qed.

Lemma fenceRegex_parts :
  App.fenceRegex
  = Regex.Seq Regex.Bol
      (Regex.Seq (Regex.literal (js "```")) (Regex.Seq fenceTag fenceBody)).
Proof. reflexivity. Qed.

Lemma fenceBody_match (W1 core' : jsstring) (z : N) (W2 : jsstring)
  (pos : nat) (caps : list (nat * jsstring)) :
  all is_whitespace W1 -> all is_whitespace W2 ->
  stops is_whitespace (core' ++ [z]) -> is_whitespace z = false ->
  exists res,
    Regex.m fenceBody
      (at_ pos (W1 ++ (core' ++ [z]) ++ W2 ++ js "```") caps) Some
    = Some res
    /\ Regex.group 2 res = Some (core' ++ [z]).
Proof.
  intros H1 H2 Hhead Hz. set (core := core' ++ [z]) in *.
  assert (Hne : core <> []).
  { unfold core. intros E. apply app_eq_nil in E as [_ E]. discriminate. }
  destruct (fenceTail_match W2 (pos + length W1 + length core)
              ((2, core) :: caps) H2) as (pos' & Etail).
  exists (at_ pos' [] ((2, core) :: caps)).
  split; [|reflexivity].
  unfold fenceBody. rewrite m_seq, m_star.
  apply (star_greedy_run is_whitespace _ W1 _ caps _ H1).
  { apply stops_app; assumption. }
  { cbn [Regex.rest at_]. rewrite length_app. lia. }
  cbv beta. rewrite m_seq, m_opt_chr_skip
    by (apply stops_newline, stops_app; assumption).
  rewrite m_seq, m_group, m_star.
  apply (star_lazy_first _ core (W2 ++ js "```") caps).
  - cbn [Regex.rest at_]. rewrite length_app. lia.
  - intros j Hj. unfold Regex.capture. cbn [Regex.pos Regex.rest
      Regex.captures at_].
    apply (fenceTail_inside core' z W2 j); assumption.
  - unfold Regex.capture. cbn [Regex.pos Regex.rest Regex.captures at_].
    rewrite firstn_exact by lia. exact Etail.
Qed.

Lemma fenceTag_match (tag b : jsstring) (pos : nat)
  (caps : list (nat * jsstring)) (k : Regex.Cont)
  (P : Regex.State -> Prop) :
  all Regex.is_word tag -> stops Regex.is_word b ->
  (forall caps',
      exists res, k (at_ (pos + length tag) b caps') = Some res /\ P res) ->
  exists res,
    Regex.m fenceTag (at_ pos (tag ++ b) caps) k = Some res /\ P res.
Proof.
  intros Htag Hb Hk. unfold fenceTag. destruct tag as [|c t].
  - destruct (Hk caps) as (res & E & HP). exists res. split; [|assumption].
    simpl in E. rewrite Nat.add_0_r in E.
    rewrite m_opt, m_group, m_star. cbn [app].
    rewrite (star_stop Regex.is_word _ _ pos b caps Hb).
    unfold Regex.progressed, Regex.capture.
    cbn [Regex.pos Regex.rest Regex.captures at_].
    rewrite Nat.eqb_refl. cbn [Regex.or_try]. exact E.
  - destruct (Hk ((1, c :: t) :: caps)) as (res & E & HP).
    exists res. split; [|assumption].
    rewrite m_opt, m_group, m_star.
    rewrite (star_greedy_run Regex.is_word _ (c :: t) b caps res Htag Hb).
    + reflexivity.
    + cbn [Regex.rest at_]. rewrite length_app. lia.
    + unfold Regex.progressed, Regex.capture.
      cbn [Regex.pos Regex.rest Regex.captures at_].
      destruct (Nat.eqb_spec (pos + length (c :: t)) pos);
        [simpl in *; lia|].
      rewrite firstn_exact by lia. exact E.
Qed.

(** The fence pattern on a fenced payload: it matches, and its second
    group is the payload with the white space around it taken off. *)
Lemma fenceRegex_match (tag lead core' : jsstring) (z : N)
  (trail : jsstring) :
  all Regex.is_word tag ->
  all is_whitespace lead -> all is_whitespace trail ->
  stops is_whitespace (core' ++ [z]) -> is_whitespace z = false ->
  exists res,
    Regex.exec App.fenceRegex
      (fenced tag (lead ++ (core' ++ [z]) ++ trail)) = Some res
    /\ Regex.group 2 res = Some (core' ++ [z]).
Proof.
  intros Htag Hlead Htrail Hhead Hz.
  assert (Hm : exists res,
    Regex.m App.fenceRegex
      (at_ 0 (fenced tag (lead ++ (core' ++ [z]) ++ trail)) []) Some
    = Some res
    /\ Regex.group 2 res = Some (core' ++ [z])).
  { rewrite fenceRegex_parts. unfold fenced.
    rewrite m_seq, m_bol, m_seq, m_literal, m_seq.
    apply fenceTag_match; [assumption | reflexivity |].
    intros caps'.
    replace ([10%N] ++ (lead ++ (core' ++ [z]) ++ trail)
             ++ [10%N] ++ js "```")
      with ((10%N :: lead) ++ (core' ++ [z]) ++ (trail ++ [10%N])
            ++ js "```")
      by (simpl; rewrite <- !app_assoc; reflexivity).
    apply fenceBody_match; try assumption.
    - constructor; [reflexivity | assumption].
    - apply Forall_app. split; [assumption | repeat constructor]. }
  destruct Hm as (res & E & Hg). exists res. split; [|assumption].
  unfold Regex.exec. destruct (fenced tag _) as [|c s] eqn:Ef;
    cbn [Regex.exec_from];
    change {| Regex.pos := 0; Regex.rest := ?s0; Regex.captures := [] |}
      with (at_ 0 s0 []) in *.
  - fold (at_ 0 [] []). rewrite E. reflexivity.
  - fold (at_ 0 (c :: s) []). rewrite E. reflexivity.
Qed.

(** ** [trim] *)

Lemma dropWhile_split (p : N -> bool) (s : jsstring) :
  exists a, s = a ++ dropWhile p s /\ all p a /\ stops p (dropWhile p s).
Proof.
  induction s as [|c s (a & E & Ha & Hs)]; simpl.
  - exists []. repeat split. constructor.
  - destruct (p c) eqn:Hc.
    + exists (c :: a). repeat split.
      * simpl. f_equal. exact E.
      * constructor; assumption.
      * assumption.
    + exists []. repeat split; [constructor | exact Hc].
Qed.

Lemma dropWhile_stops (p : N -> bool) (s : jsstring) :
  stops p s -> dropWhile p s = s.
Proof.
  destruct s as [|c s]; simpl; [reflexivity|]. intros ->. reflexivity.
Qed.

Lemma trim_fixed (s : jsstring) :
  stops is_whitespace s -> stops is_whitespace (rev s) -> trim s = s.
Proof.
  intros H1 H2. unfold trim, trimStart, trimEnd.
  rewrite (dropWhile_stops _ s H1), (dropWhile_stops _ (rev s) H2).
  apply rev_involutive.
Qed.

(** A string is its trimmed part between two runs of white space; the
    trimmed part neither begins nor ends with white space. *)
Lemma trim_shape (s : jsstring) :
  exists lead trail,
    s = lead ++ trim s ++ trail
    /\ all is_whitespace lead /\ all is_whitespace trail
    /\ stops is_whitespace (trim s)
    /\ stops is_whitespace (rev (trim s)).
Proof.
  unfold trim, trimStart, trimEnd.
  destruct (dropWhile_split is_whitespace s) as (lead & Es & Hlead & Ht).
  set (t := dropWhile is_whitespace s) in *.
  destruct (dropWhile_split is_whitespace (rev t)) as (a & Er & Ha & Hd).
  set (d := dropWhile is_whitespace (rev t)) in *.
  assert (Et : t = rev d ++ rev a).
  { rewrite <- rev_app_distr, <- Er. symmetry. apply rev_involutive. }
  exists lead, (rev a). repeat split.
  - rewrite <- Et. exact Es.
  - assumption.
  - apply Forall_rev. assumption.
  - destruct (rev d) as [|c r] eqn:Erd; [exact I|].
    rewrite Et in Ht. exact Ht.
  - rewrite rev_involutive. assumption.
Qed.

Lemma trim_idempotent (s : jsstring) : trim (trim s) = trim s.
Proof.
  destruct (trim_shape s) as (_ & _ & _ & _ & _ & H1 & H2).
  apply trim_fixed; assumption.
Qed.

Lemma ends_with (s : jsstring) :
  s <> [] -> stops is_whitespace (rev s) ->
  exists s' z, s = s' ++ [z] /\ is_whitespace z = false.
Proof.
  intros Hne H. destruct (rev s) as [|z r] eqn:E.
  - apply (f_equal (@rev N)) in E. rewrite rev_involutive in E.
    contradiction.
  - exists (rev r), z. split; [|exact H].
    apply (f_equal (@rev N)) in E. rewrite rev_involutive in E.
    exact E.
Qed.

Lemma fenced_trim (tag payload : jsstring) :
  trim (fenced tag payload) = fenced tag payload.
Proof.
  apply trim_fixed.
  - reflexivity.
  - unfold fenced. rewrite !rev_app_distr. reflexivity.
Qed.

Lemma exec_from_bol (r : Regex.t) (s : jsstring) (i : nat) :
  0 < i -> Regex.exec_from (Regex.Seq Regex.Bol r) i s = None.
Proof.
  revert i. induction s as [|c s IH]; intros i Hi; cbn [Regex.exec_from];
    rewrite m_seq; cbn [Regex.m Regex.pos];
    destruct (Nat.eqb_spec i 0); try lia; cbn [Regex.or_try];
    [reflexivity|].
  apply IH. lia.
Qed.

(** The fence pattern does not match a text that does not begin with a
    backtick. *)
Lemma fenceRegex_no_match (c : N) (s : jsstring) :
  c <> 96%N -> Regex.exec App.fenceRegex (c :: s) = None.
Proof.
  intros Hc. rewrite fenceRegex_parts. unfold Regex.exec.
  cbn [Regex.exec_from].
  assert (E : Regex.m
    (Regex.Seq Regex.Bol
       (Regex.Seq (Regex.literal (js "```")) (Regex.Seq fenceTag fenceBody)))
    {| Regex.pos := 0; Regex.rest := c :: s; Regex.captures := [] |} Some
    = None).
  { change {| Regex.pos := 0; Regex.rest := c :: s; Regex.captures := [] |}
      with (at_ 0 (c :: s) []).
    rewrite m_seq, m_bol, m_seq.
    destruct (Regex.m (Regex.literal (js "```")) _ _) eqn:E; [|reflexivity].
    apply m_literal_inv in E as (s' & E & _). inversion E. congruence. }
  rewrite E. apply exec_from_bol. lia.
Qed.

(** ** Suggestions *)

Lemma stripFence_fenced (tag payload : jsstring) (c : N) (rest : jsstring) :
  all Regex.is_word tag ->
  trim payload = c :: rest ->
  App.stripFence (fenced tag payload) = trim payload.
Proof.
  intros Htag Hcore.
  destruct (trim_shape payload) as (lead & trail & Ep & Hl & Ht & H1 & H2).
  destruct (ends_with (trim payload)) as (core' & z & Ez & Hz);
    [congruence | assumption |].
  rewrite Ez in H1.
  destruct (fenceRegex_match tag lead core' z trail Htag Hl Ht H1 Hz)
    as (res & Eexec & Eg).
  unfold App.stripFence. rewrite fenced_trim.
  rewrite Ep at 1. rewrite Ez at 1. rewrite Eexec, Eg.
  rewrite <- Ez, Hcore. cbn [truthy]. rewrite <- Hcore.
  apply trim_idempotent.
Qed.

Lemma stripFence_plain (payload : jsstring) (c : N) (rest : jsstring) :
  trim payload = c :: rest -> c <> 96%N ->
  App.stripFence payload = trim payload.
Proof.
  intros Hcore Hc. unfold App.stripFence.
  rewrite Hcore, (fenceRegex_no_match c rest Hc). reflexivity.
Qed.

(** C7, as amended.  For a language tag made of word characters (letters,
    digits, underscore) and a payload whose first character that is not
    white space is not a backtick -- as is the case for every JSON text --
    the text that goes to [JSON.parse] is the trimmed payload both for the
    fenced payload and for the payload itself; so, whatever [JSON.parse]
    does, parsing yields the same outcome, the same suggestion list is set,
    and the component ends in the same state. *)
Theorem fenced_suggestions_parse_alike :
  forall (JSON_parse : jsstring -> option JSON.value)
         (tag payload : jsstring) (c : N) (rest : jsstring),
    all Regex.is_word tag ->
    trim payload = c :: rest ->
    c <> 96%N ->
    App.stripFence (fenced tag payload) = App.stripFence payload
    /\ App.parseSuggestions JSON_parse (fenced tag payload)
       = App.parseSuggestions JSON_parse payload
    /\ App.suggestionsOfText JSON_parse (Some (fenced tag payload))
       = App.suggestionsOfText JSON_parse (Some payload)
    /\ (forall clock urlContextMetadata st,
        App.fetchAndSetInitialSuggestions_settled JSON_parse clock
          (App.resolved
             (GeminiResponse.mk (Some (fenced tag payload))
                urlContextMetadata)) st
        = App.fetchAndSetInitialSuggestions_settled JSON_parse clock
            (App.resolved
               (GeminiResponse.mk (Some payload) urlContextMetadata)) st).
Proof.
  intros parse tag payload c rest Htag Hcore Hc.
  assert (Hstrip : App.stripFence (fenced tag payload)
                   = App.stripFence payload).
  { rewrite (stripFence_fenced tag payload c rest Htag Hcore).
    rewrite (stripFence_plain payload c rest Hcore Hc). reflexivity. }
  assert (Hparse : App.parseSuggestions parse (fenced tag payload)
                   = App.parseSuggestions parse payload).
  { unfold App.parseSuggestions. rewrite Hstrip. reflexivity. }
  assert (Hp : exists p ps, payload = p :: ps).
  { destruct payload as [|p ps]; [discriminate | eauto]. }
  destruct Hp as (p & ps & Ep).
  assert (Hf : exists f fs, fenced tag payload = f :: fs).
  { unfold fenced. simpl. eauto. }
  destruct Hf as (f & fs & Ef).
  repeat split; try assumption.
  - unfold App.suggestionsOfText. rewrite Ef, <- Ef, Hparse, Ep. reflexivity.
  - intros clock u st. unfold App.fetchAndSetInitialSuggestions_settled.
    cbn [GeminiResponse.text]. rewrite Ef, <- Ef, Hparse, Ep. reflexivity.
Qed.

Lemma fenced_suggestions_parse_alike_witness :
  App.suggestionsOfText JSON.parse
    (Some (fenced (js "json") examplePayload))
  = [js "A?"; js "B?"].
Proof.
  destruct (fenced_suggestions_parse_alike JSON.parse (js "json")
              examplePayload 123%N (tl examplePayload))
    as (_ & _ & H & _).
  - repeat constructor.
  - vm_compute. reflexivity.
  - discriminate.
  - rewrite H. vm_compute. reflexivity.
Defined.

(** C7 as stated fails for a language tag that is not made of word
    characters: with the tag [c++], the first group takes [c], the second
    group begins with [++], and [JSON.parse] rejects it, so the fenced
    payload yields no suggestion where the payload itself yields two. *)
Lemma fence_with_other_tag_differs :
  App.stripFence (fenced (js "c++") examplePayload)
  = js "++" ++ [10%N] ++ examplePayload
  /\ App.parseSuggestions JSON.parse (fenced (js "c++") examplePayload)
     = App.parseError
  /\ App.suggestionsOfText JSON.parse
       (Some (fenced (js "c++") examplePayload)) = []
  /\ App.suggestionsOfText JSON.parse (Some examplePayload)
     = [js "A?"; js "B?"].
Proof. vm_compute. repeat split; reflexivity. Qed.

(** ** The service *)

(** C10.  With no URL and no file, [getInitialSuggestions] returns at once
    -- whatever the credential, even none, and whatever the model: it makes
    no call and does not throw -- a response whose text is the JSON object
    with the one suggestion "Add URLs or import files to get suggestions.",
    which the suggestion parser reads back as that one string. *)
Theorem getInitialSuggestions_without_sources :
  forall (API_KEY : option jsstring) (modelName : jsstring),
    GeminiService.getInitialSuggestions API_KEY [] [] modelName
    = GeminiService.Return (GeminiResponse.mk (Some cannedPayload) None)
    /\ JSON.parse cannedPayload
       = Some (JSON.Object
                 [(js "suggestions",
                   JSON.Array
                     [JSON.Str
                        (js "Add URLs or import files to get suggestions.")])])
    /\ App.suggestionsOfText JSON.parse (Some cannedPayload)
       = [js "Add URLs or import files to get suggestions."].
Proof.
  intros key modelName. repeat split; vm_compute; reflexivity.
Qed.

(** With a source and no credential the same function throws, and with a
    credential it calls the remote model: the early return is what spares
    the empty case both. *)
Remark getInitialSuggestions_with_sources :
  GeminiService.getInitialSuggestions None [js "https://x.test/doc"] []
    (js "gemini-2.5-flash")
  = GeminiService.Throw
      (js "Gemini API Key not configured. Set process.env.API_KEY.")
  /\ exists request k,
      GeminiService.getInitialSuggestions sampleKey [js "https://x.test/doc"]
        [] (js "gemini-2.5-flash")
      = GeminiService.GenerateContent request k.
Proof.
  split; [reflexivity|]. eexists; eexists. reflexivity.
Qed.

(** * Further properties of the code *)

(** ** Runs of the component *)

Lemma reachable_invariant (X : KnowledgeBaseManager.Extractors)
  (key : option jsstring) (P : App.World -> Prop) :
  (forall clock, P (App.init key clock)) ->
  (forall clock e w w', App.step X key clock e w = Some w' -> P w -> P w') ->
  forall w, App.reachable X key w -> P w.
Proof.
  intros Hinit Hstep w (clock & trace & Hrun).
  revert Hrun. generalize (Hinit clock). generalize (App.init key clock).
  induction trace as [|[e c] trace IH]; simpl; intros w0 H0 Hrun.
  - apply Some_eq in Hrun; subst; assumption.
  - destruct (App.step X key c e w0) as [w1|] eqn:E; [|discriminate].
    apply (IH w1); [|assumption]. apply (Hstep c e w0 w1 E H0).
Qed.

Lemma filesRead_active (X : KnowledgeBaseManager.Extractors)
  (key : option jsstring) (clock : nat -> N)
  (import : jsstring * list KnowledgeBaseManager.File.t) (w : App.World) :
  App.activeGroupId (App.state (App.filesRead X key clock import w))
  = App.activeGroupId (App.state w).
Proof.
  unfold App.filesRead. cbv zeta.
  destruct (KnowledgeBaseManager.onAddFiles _); [|reflexivity].
  match goal with
  | |- context [App.afterGroups ?k ?c ?b ?w0 ?f] =>
      destruct (afterGroups_groups k c b w0 f) as [_ ->]
  end.
  reflexivity.
Qed.

(** What an event can do to the groups and to the active id: the groups
    stay, or one of the four handlers is applied to them; the active id
    stays, or becomes the id of one of the groups, which then stay. *)
Lemma step_groups_cases (X : KnowledgeBaseManager.Extractors)
  (key : option jsstring) (clock : nat -> N) (e : App.Event)
  (w w' : App.World) :
  App.step X key clock e w = Some w' ->
  (App.knowledgeGroups (App.state w') = App.knowledgeGroups (App.state w)
   \/ (exists a url,
          App.knowledgeGroups (App.state w')
          = App.handleAddUrl a url (App.knowledgeGroups (App.state w)))
   \/ (exists a url,
          App.knowledgeGroups (App.state w')
          = App.handleRemoveUrl a url (App.knowledgeGroups (App.state w)))
   \/ (exists a newFiles,
          App.knowledgeGroups (App.state w')
          = App.handleAddFiles a newFiles (App.knowledgeGroups (App.state w)))
   \/ (exists a fileName,
          App.knowledgeGroups (App.state w')
          = App.handleRemoveFile a fileName
              (App.knowledgeGroups (App.state w))))
  /\ (App.activeGroupId (App.state w') = App.activeGroupId (App.state w)
      \/ (App.knowledgeGroups (App.state w')
          = App.knowledgeGroups (App.state w)
          /\ In (App.activeGroupId (App.state w'))
               (List.map KnowledgeGroup.id
                  (App.knowledgeGroups (App.state w))))).
Proof.
  intros Hstep. unfold App.step in Hstep. cbv zeta in Hstep.
  destruct e.
  - apply Some_eq in Hstep; subst w'. world_simpl.
    destruct (handleSendMessage_groups key clock query images (App.state w))
      as [-> ->]. auto.
  - destruct (nth_error (App.sends w) i); [|discriminate].
    apply Some_eq in Hstep; subst w'. auto.
  - destruct (nth_error (App.fetches w) i); [|discriminate].
    apply Some_eq in Hstep; subst w'. world_simpl.
    destruct (fetch_settled_groups JSON.parse clock r (App.state w))
      as [-> ->]. auto.
  - destruct (eqb model _); apply Some_eq in Hstep; subst w'; [auto|].
    rewrite add_fetch_state.
    destruct (suggestionsEffect_groups key
                (App.setSelectedModel model (App.state w))) as [-> ->].
    auto.
  - destruct (existsb _ _) eqn:Ex; [|discriminate].
    destruct (eqb id _); apply Some_eq in Hstep; subst w'; [auto|].
    rewrite add_fetch_state.
    destruct (suggestionsEffect_groups key
                (App.welcomeEffect key clock
                   (App.setActiveGroupId id (App.state w)))) as [-> ->].
    split; [left; reflexivity|]. right. split; [reflexivity|].
    cbn. apply existsb_exists in Ex as (g & Hg & Eg).
    apply eqb_eq in Eg. subst id. apply in_map. assumption.
  - apply Some_eq in Hstep; subst w'. rewrite !set_kb_error_state.
    match goal with
    | |- context [App.afterGroups ?k ?c ?b ?w0 ?f] =>
        destruct (afterGroups_groups k c b w0 f) as [-> ->]
    end.
    split; [|auto]. right; left. eauto.
  - apply Some_eq in Hstep; subst w'.
    match goal with
    | |- context [App.afterGroups ?k ?c ?b ?w0 ?f] =>
        destruct (afterGroups_groups k c b w0 f) as [-> ->]
    end.
    split; [|auto]. right; right; left. eauto.
  - apply Some_eq in Hstep; subst w'. auto.
  - destruct (nth_error (App.imports w) i); [|discriminate].
    apply Some_eq in Hstep; subst w'.
    rewrite filesRead_groups, filesRead_active. world_simpl.
    split; [|auto].
    destruct (KnowledgeBaseManager.onAddFiles _); [|auto].
    right; right; right; left. eauto.
  - destruct (snd _); apply Some_eq in Hstep; subst w'; [|auto].
    rewrite filesRead_groups, filesRead_active. world_simpl.
    split; [|auto].
    destruct (KnowledgeBaseManager.onAddFiles _); [|auto].
    right; right; right; left. eauto.
  - apply Some_eq in Hstep; subst w'.
    match goal with
    | |- context [App.afterGroups ?k ?c ?b ?w0 ?f] =>
        destruct (afterGroups_groups k c b w0 f) as [-> ->]
    end.
    split; [|auto]. right; right; right; right. eauto.
  - apply (RefuseUrl_step X key clock) in Hstep. destruct Hstep as [e ->].
    auto.
Qed.

(** ** The data model in every run *)

Lemma distinctb_NoDup (l : list jsstring) : distinctb l = true -> NoDup l.
Proof.
  induction l as [|x l IH]; simpl; intros H; constructor.
  - apply andb_true_iff in H as [H _]. apply negb_true_iff in H.
    apply array_includes_not_In. assumption.
  - apply IH. apply andb_true_iff in H as [_ H]. assumption.
Qed.

Lemma urls_distinct_map (f : KnowledgeGroup.t -> KnowledgeGroup.t)
  (groups : list KnowledgeGroup.t) :
  (forall g, NoDup (KnowledgeGroup.urls g) ->
             NoDup (KnowledgeGroup.urls (f g))) ->
  urls_distinct groups -> urls_distinct (List.map f groups).
Proof.
  intros Hf H. unfold urls_distinct in *.
  induction H as [|g l Hg _ IH]; simpl; constructor; auto.
Qed.

Lemma handlers_keep_urls_distinct (a : jsstring)
  (groups : list KnowledgeGroup.t) :
  urls_distinct groups ->
  (forall url, urls_distinct (App.handleAddUrl a url groups))
  /\ (forall url, urls_distinct (App.handleRemoveUrl a url groups))
  /\ (forall newFiles, urls_distinct (App.handleAddFiles a newFiles groups))
  /\ (forall fileName,
         urls_distinct (App.handleRemoveFile a fileName groups)).
Proof.
  intros H. repeat split; intros x; apply urls_distinct_map; try assumption;
    intros g Hg; destruct (eqb (KnowledgeGroup.id g) a); try assumption.
  - destruct (_ <? _); cbn [andb]; [|assumption].
    destruct (array_includes (KnowledgeGroup.urls g) x) eqn:E; cbn [negb];
      [assumption|].
    cbn [KnowledgeGroup.urls]. apply array_includes_not_In in E.
    apply NoDup_app; [assumption | repeat constructor; intros [] |].
    intros u Hu [<- | []]. contradiction.
  - cbn [KnowledgeGroup.urls]. apply NoDup_filter. assumption.
Qed.

Lemma initial_urls_distinct : urls_distinct App.INITIAL_KNOWLEDGE_GROUPS.
Proof.
  unfold urls_distinct, App.INITIAL_KNOWLEDGE_GROUPS.
  constructor; [|constructor; [|constructor]];
    cbn [KnowledgeGroup.urls]; apply distinctb_NoDup; vm_compute;
    reflexivity.
Qed.

(** X1.  In every world the component reaches, whatever the events and
    their interleaving, no group lists a URL twice: the initial lists have
    no repetition, [handleAddUrl] appends a URL only when the group does not
    include it, and the other handlers only filter the URLs or leave them. *)
Theorem reachable_urls_distinct :
  forall (X : KnowledgeBaseManager.Extractors) (API_KEY : option jsstring)
         (w : App.World),
    App.reachable X API_KEY w ->
    urls_distinct (App.knowledgeGroups (App.state w)).
Proof.
  intros X key.
  apply (reachable_invariant X key
           (fun w => urls_distinct (App.knowledgeGroups (App.state w)))).
  - intros clock. rewrite init_groups. apply initial_urls_distinct.
  - intros clock e w w' Hstep H.
    destruct (step_groups_cases X key clock e w w' Hstep) as [Hg _].
    destruct Hg as [-> | [(a & x & ->) | [(a & x & ->) | [(a & x & ->)
                   | (a & x & ->)]]]]; try assumption;
      apply (handlers_keep_urls_distinct a _ H).
Qed.

Lemma reachable_urls_distinct_witness :
  urls_distinct
    (App.knowledgeGroups (App.state (run_from_init sampleKey fillTrace))).
Proof.
  apply (reachable_urls_distinct sampleExtractors sampleKey).
  exists sampleClock, fillTrace. vm_compute. reflexivity.
Defined.

Lemma map_group_names (f : KnowledgeGroup.t -> KnowledgeGroup.t)
  (groups : list KnowledgeGroup.t) :
  (forall g, KnowledgeGroup.name (f g) = KnowledgeGroup.name g) ->
  List.map KnowledgeGroup.name (List.map f groups)
  = List.map KnowledgeGroup.name groups.
Proof.
  intros H. rewrite map_map. apply map_ext. assumption.
Qed.

Lemma handlers_keep_ids_and_names (a : jsstring)
  (groups : list KnowledgeGroup.t) :
  (forall url,
      List.map KnowledgeGroup.id (App.handleAddUrl a url groups)
      = List.map KnowledgeGroup.id groups
      /\ List.map KnowledgeGroup.name (App.handleAddUrl a url groups)
         = List.map KnowledgeGroup.name groups)
  /\ (forall url,
      List.map KnowledgeGroup.id (App.handleRemoveUrl a url groups)
      = List.map KnowledgeGroup.id groups
      /\ List.map KnowledgeGroup.name (App.handleRemoveUrl a url groups)
         = List.map KnowledgeGroup.name groups)
  /\ (forall newFiles,
      List.map KnowledgeGroup.id (App.handleAddFiles a newFiles groups)
      = List.map KnowledgeGroup.id groups
      /\ List.map KnowledgeGroup.name (App.handleAddFiles a newFiles groups)
         = List.map KnowledgeGroup.name groups)
  /\ (forall fileName,
      List.map KnowledgeGroup.id (App.handleRemoveFile a fileName groups)
      = List.map KnowledgeGroup.id groups
      /\ List.map KnowledgeGroup.name (App.handleRemoveFile a fileName groups)
         = List.map KnowledgeGroup.name groups).
Proof.
  repeat split; (apply map_group_ids || apply map_group_names); intros g;
    destruct (eqb (KnowledgeGroup.id g) a); try reflexivity;
    destruct (_ && _); reflexivity.
Qed.

Lemma activeGroup_of_id (groups : list KnowledgeGroup.t) (a : jsstring) :
  In a (List.map KnowledgeGroup.id groups) ->
  exists g, App.activeGroup groups a = Some g
            /\ In g groups /\ KnowledgeGroup.id g = a.
Proof.
  unfold App.activeGroup, array_find.
  induction groups as [|x l IH]; simpl; intros H; [contradiction|].
  destruct (eqb (KnowledgeGroup.id x) a) eqn:E.
  - apply eqb_eq in E. exists x. auto.
  - destruct H as [H | H]; [apply eqb_neq in E; contradiction|].
    destruct (IH H) as (g & Hg & Hin & Hid). exists g. auto.
Qed.

Lemma step_groups_fixed (X : KnowledgeBaseManager.Extractors)
  (key : option jsstring) (clock : nat -> N) (e : App.Event)
  (w w' : App.World) :
  App.step X key clock e w = Some w' ->
  groups_fixed (App.state w) -> groups_fixed (App.state w').
Proof.
  intros Hstep (Hid & Hname & Hact). unfold groups_fixed.
  destruct (step_groups_cases X key clock e w w' Hstep) as [Hg Ha].
  assert (Hgs :
    List.map KnowledgeGroup.id (App.knowledgeGroups (App.state w'))
    = List.map KnowledgeGroup.id (App.knowledgeGroups (App.state w))
    /\ List.map KnowledgeGroup.name (App.knowledgeGroups (App.state w'))
       = List.map KnowledgeGroup.name (App.knowledgeGroups (App.state w))).
  { destruct Hg as [-> | [(a & x & ->) | [(a & x & ->) | [(a & x & ->)
                   | (a & x & ->)]]]]; [split; reflexivity | | | |];
      apply (handlers_keep_ids_and_names a). }
  destruct Hgs as [Ei En]. rewrite Ei, En. repeat split; try assumption.
  destruct Ha as [-> | [_ Hin]]; assumption.
Qed.

Lemma reachable_keeps_groups_fixed (X : KnowledgeBaseManager.Extractors)
  (key : option jsstring) (w : App.World) :
  App.reachable X key w -> groups_fixed (App.state w).
Proof.
  revert w.
  apply (reachable_invariant X key (fun w => groups_fixed (App.state w))).
  - intros clock. unfold groups_fixed. rewrite init_groups.
    repeat split. unfold App.init. cbv zeta. rewrite add_fetch_state.
    match goal with
    | |- context [App.suggestionsEffect key ?st] =>
        destruct (suggestionsEffect_groups key st) as [_ ->]
    end.
    left. reflexivity.
  - intros clock e w w'. apply step_groups_fixed.
Qed.

(** X2.  In every world the component reaches, the knowledge groups are
    still the two initial ones, in their order, with their ids and names --
    no event adds, removes, renames or reorders a group -- and the active id
    is the id of one of them, so that [activeGroup] is defined. *)
Theorem reachable_groups_fixed :
  forall (X : KnowledgeBaseManager.Extractors) (API_KEY : option jsstring)
         (w : App.World),
    App.reachable X API_KEY w ->
    List.map KnowledgeGroup.id (App.knowledgeGroups (App.state w))
    = [js "gemini-overview"; js "model-capabilities"]
    /\ List.map KnowledgeGroup.name (App.knowledgeGroups (App.state w))
       = [js "Gemini Docs Overview"; js "Model Capabilities"]
    /\ exists g,
        App.activeGroup (App.knowledgeGroups (App.state w))
          (App.activeGroupId (App.state w)) = Some g
        /\ In g (App.knowledgeGroups (App.state w))
        /\ KnowledgeGroup.id g = App.activeGroupId (App.state w).
Proof.
  intros X key w Hreach.
  destruct (reachable_keeps_groups_fixed X key w Hreach)
    as (Hid & Hname & Hact).
  split; [exact Hid|]. split; [exact Hname|].
  apply activeGroup_of_id. assumption.
Qed.

Lemma reachable_groups_fixed_witness :
  List.map KnowledgeGroup.id
    (App.knowledgeGroups (App.state (run_from_init sampleKey fillTrace)))
  = [js "gemini-overview"; js "model-capabilities"].
Proof.
  assert (Hreach : App.reachable sampleExtractors sampleKey
                     (run_from_init sampleKey fillTrace)).
  { exists sampleClock, fillTrace. vm_compute. reflexivity. }
  exact (proj1 (reachable_groups_fixed sampleExtractors sampleKey _ Hreach)).
Defined.

(** ** Without a credential *)

Lemma suggestionsEffect_no_key (key : option jsstring) (st : App.State) :
  truthy_opt key = false ->
  App.suggestionsEffect key st = (App.setInitialQuerySuggestions [] st, None).
Proof.
  intros H. unfold App.suggestionsEffect. cbv zeta.
  rewrite H, andb_false_r. reflexivity.
Qed.

Lemma afterGroups_quiet (key : option jsstring) (clock : nat -> N)
  (b : bool) (w : App.World)
  (f : list KnowledgeGroup.t -> list KnowledgeGroup.t) :
  truthy_opt key = false -> quiet w -> quiet (App.afterGroups key clock b w f).
Proof.
  intros Hk (Hs & Hf & Hl & Hfs & Hq & Hm). unfold App.afterGroups.
  cbv zeta. destruct b.
  - rewrite (suggestionsEffect_no_key key _ Hk). unfold quiet, App.add_fetch.
    cbn. rewrite Hf. repeat split; try assumption. repeat constructor.
  - unfold quiet. cbn. repeat split; try assumption. repeat constructor.
Qed.

Lemma filesRead_quiet (X : KnowledgeBaseManager.Extractors)
  (key : option jsstring) (clock : nat -> N)
  (import : jsstring * list KnowledgeBaseManager.File.t) (w : App.World) :
  truthy_opt key = false -> quiet w -> quiet (App.filesRead X key clock import w).
Proof.
  intros Hk Hq. unfold App.filesRead. cbv zeta.
  destruct (KnowledgeBaseManager.onAddFiles _).
  - apply afterGroups_quiet; [assumption | exact Hq].
  - exact Hq.
Qed.

Lemma step_quiet (X : KnowledgeBaseManager.Extractors)
  (key : option jsstring) (clock : nat -> N) (e : App.Event)
  (w w' : App.World) :
  truthy_opt key = false ->
  App.step X key clock e w = Some w' -> quiet w -> quiet w'.
Proof.
  intros Hk Hstep Hq. pose proof Hq as (Hs & Hf & Hl & Hfs & Hsg & Hm).
  unfold App.step in Hstep. cbv zeta in Hstep.
  destruct e.
  - apply Some_eq in Hstep; subst w'. unfold App.handleSendMessage.
    rewrite Hl, Hfs, Hk. cbn [negb orb].
    destruct (_ && _); cbn [orb fst snd].
    + unfold quiet. world_simpl. rewrite Hs. repeat split; assumption.
    + unfold quiet. world_simpl. rewrite Hs. cbn.
      repeat split; try assumption.
      apply Forall_app. split; [assumption | repeat constructor].
  - rewrite Hs in Hstep. destruct i; discriminate.
  - rewrite Hf in Hstep. destruct i; discriminate.
  - destruct (eqb model _); apply Some_eq in Hstep; subst w'; [exact Hq|].
    rewrite (suggestionsEffect_no_key key _ Hk). unfold quiet, App.add_fetch.
    cbn. rewrite Hf. repeat split; assumption.
  - destruct (existsb _ _); [|discriminate].
    destruct (eqb id _); apply Some_eq in Hstep; subst w'; [exact Hq|].
    rewrite (suggestionsEffect_no_key key _ Hk). unfold quiet, App.add_fetch.
    cbn. rewrite Hf. repeat split; try assumption. repeat constructor.
  - apply Some_eq in Hstep; subst w'. apply afterGroups_quiet; assumption.
  - apply Some_eq in Hstep; subst w'. apply afterGroups_quiet; assumption.
  - apply Some_eq in Hstep; subst w'. exact Hq.
  - destruct (nth_error (App.imports w) i); [|discriminate].
    apply Some_eq in Hstep; subst w'. apply filesRead_quiet; [assumption|].
    exact Hq.
  - destruct (snd _); apply Some_eq in Hstep; subst w'.
    + apply filesRead_quiet; [assumption | exact Hq].
    + exact Hq.
  - apply Some_eq in Hstep; subst w'. apply afterGroups_quiet; assumption.
  - apply (RefuseUrl_step X key clock) in Hstep. destruct Hstep as [e ->].
    exact Hq.
Qed.

Lemma init_quiet (key : option jsstring) (clock : nat -> N) :
  truthy_opt key = false -> quiet (App.init key clock).
Proof.
  intros Hk. unfold App.init. cbv zeta.
  rewrite (suggestionsEffect_no_key key _ Hk). unfold quiet, App.add_fetch.
  cbn. repeat split. repeat constructor.
Qed.

(** X3.  When no API key is configured ([process.env.API_KEY] is
    [undefined] or empty), then in every world the component reaches no
    remote call is outstanding -- neither a chat call nor a suggestion call
    has been started -- both loading flags are off, no suggestion is offered,
    and every message of the transcript is a system message. *)
Theorem no_key_no_remote_call :
  forall (X : KnowledgeBaseManager.Extractors) (API_KEY : option jsstring)
         (w : App.World),
    truthy_opt API_KEY = false ->
    App.reachable X API_KEY w ->
    App.sends w = [] /\ App.fetches w = []
    /\ App.isLoading (App.state w) = false
    /\ App.isFetchingSuggestions (App.state w) = false
    /\ App.initialQuerySuggestions (App.state w) = []
    /\ Forall (fun m => ChatMessage.sender m = SYSTEM)
         (App.chatMessages (App.state w)).
Proof.
  intros X key w Hk. revert w.
  apply (reachable_invariant X key quiet).
  - intros clock. apply init_quiet. assumption.
  - intros clock e w w'. apply step_quiet. assumption.
Qed.

Lemma no_key_no_remote_call_witness :
  App.sends (run_from_init None noKeyTrace) = []
  /\ App.fetches (run_from_init None noKeyTrace) = []
  /\ App.isLoading (App.state (run_from_init None noKeyTrace)) = false
  /\ App.isFetchingSuggestions (App.state (run_from_init None noKeyTrace))
     = false
  /\ App.initialQuerySuggestions (App.state (run_from_init None noKeyTrace))
     = []
  /\ Forall (fun m => ChatMessage.sender m = SYSTEM)
       (App.chatMessages (App.state (run_from_init None noKeyTrace))).
Proof.
  assert (Hreach : App.reachable sampleExtractors None
                     (run_from_init None noKeyTrace)).
  { exists sampleClock, noKeyTrace. vm_compute. reflexivity. }
  exact (no_key_no_remote_call sampleExtractors None _ eq_refl Hreach).
Defined.

(** ** Suggestions *)

Lemma suggestionsEffect_suggestions (key : option jsstring) (st : App.State) :
  App.initialQuerySuggestions (fst (App.suggestionsEffect key st)) = [].
Proof.
  unfold App.suggestionsEffect, App.fetchAndSetInitialSuggestions.
  cbv zeta. destruct (_ && _); [|reflexivity].
  destruct (_ && _); reflexivity.
Qed.

Lemma afterGroups_suggestions (key : option jsstring) (clock : nat -> N)
  (b : bool) (w : App.World)
  (f : list KnowledgeGroup.t -> list KnowledgeGroup.t) :
  App.initialQuerySuggestions (App.state (App.afterGroups key clock b w f))
  = if b then [] else App.initialQuerySuggestions (App.state w).
Proof.
  unfold App.afterGroups. cbv zeta. destruct b; [|reflexivity].
  rewrite add_fetch_state. apply suggestionsEffect_suggestions.
Qed.

Lemma filesRead_suggestions (X : KnowledgeBaseManager.Extractors)
  (key : option jsstring) (clock : nat -> N)
  (import : jsstring * list KnowledgeBaseManager.File.t) (w : App.World) :
  App.initialQuerySuggestions (App.state (App.filesRead X key clock import w))
  = App.initialQuerySuggestions (App.state w)
  \/ App.initialQuerySuggestions
       (App.state (App.filesRead X key clock import w)) = [].
Proof.
  unfold App.filesRead. cbv zeta.
  destruct (KnowledgeBaseManager.onAddFiles _); [|left; reflexivity].
  rewrite afterGroups_suggestions. destruct (eqb _ _); [right | left];
    reflexivity.
Qed.

(** What an event can do to the suggestions offered: they stay, they are
    cleared, or they become the first four of a list. *)
Lemma step_suggestions_cases (X : KnowledgeBaseManager.Extractors)
  (key : option jsstring) (clock : nat -> N) (e : App.Event)
  (w w' : App.World) :
  App.step X key clock e w = Some w' ->
  App.initialQuerySuggestions (App.state w')
  = App.initialQuerySuggestions (App.state w)
  \/ App.initialQuerySuggestions (App.state w') = []
  \/ exists l, App.initialQuerySuggestions (App.state w') = firstn 4 l.
Proof.
  intros Hstep. unfold App.step in Hstep. cbv zeta in Hstep.
  destruct e.
  - apply Some_eq in Hstep; subst w'. world_simpl.
    unfold App.handleSendMessage. destruct (_ || _); [auto|].
    destruct (negb _); auto.
  - destruct (nth_error (App.sends w) i); [|discriminate].
    apply Some_eq in Hstep; subst w'. auto.
  - destruct (nth_error (App.fetches w) i); [|discriminate].
    apply Some_eq in Hstep; subst w'. world_simpl.
    unfold App.fetchAndSetInitialSuggestions_settled.
    destruct r as [response | message]; [|auto].
    destruct (GeminiResponse.text response) as [[|c t]|]; auto.
    destruct (App.parseSuggestions JSON.parse (c :: t)); cbn; eauto.
  - destruct (eqb model _); apply Some_eq in Hstep; subst w'; [auto|].
    rewrite add_fetch_state, suggestionsEffect_suggestions. auto.
  - destruct (existsb _ _); [|discriminate].
    destruct (eqb id _); apply Some_eq in Hstep; subst w'; [auto|].
    rewrite add_fetch_state, suggestionsEffect_suggestions. auto.
  - apply Some_eq in Hstep; subst w'. rewrite set_kb_error_state.
    rewrite afterGroups_suggestions. destruct (negb _); auto.
  - apply Some_eq in Hstep; subst w'. rewrite afterGroups_suggestions. auto.
  - apply Some_eq in Hstep; subst w'. auto.
  - destruct (nth_error (App.imports w) i); [|discriminate].
    apply Some_eq in Hstep; subst w'.
    match goal with
    | |- context [App.filesRead X key clock ?imp ?w0] =>
        destruct (filesRead_suggestions X key clock imp w0) as [-> | ->]
    end; auto.
  - destruct (snd _); apply Some_eq in Hstep; subst w'; [|auto].
    match goal with
    | |- context [App.filesRead X key clock ?imp ?w0] =>
        destruct (filesRead_suggestions X key clock imp w0) as [-> | ->]
    end; auto.
  - apply Some_eq in Hstep; subst w'. rewrite afterGroups_suggestions. auto.
  - apply (RefuseUrl_step X key clock) in Hstep. destruct Hstep as [e ->].
    auto.
Qed.

(** X4.  In every world the component reaches, at most four suggestions
    are offered, however many the model returned and however the suggestion
    calls and the other events interleave. *)
Theorem reachable_suggestions_at_most_four :
  forall (X : KnowledgeBaseManager.Extractors) (API_KEY : option jsstring)
         (w : App.World),
    App.reachable X API_KEY w ->
    length (App.initialQuerySuggestions (App.state w)) <= 4.
Proof.
  intros X key.
  apply (reachable_invariant X key
           (fun w => length (App.initialQuerySuggestions (App.state w)) <= 4)).
  - intros clock. unfold App.init. cbv zeta.
    rewrite add_fetch_state, suggestionsEffect_suggestions. simpl. lia.
  - intros clock e w w' Hstep H.
    destruct (step_suggestions_cases X key clock e w w' Hstep)
      as [-> | [-> | (l & ->)]]; [assumption | simpl; lia |].
    rewrite length_firstn. lia.
Qed.

Lemma reachable_suggestions_at_most_four_witness :
  App.initialQuerySuggestions
    (App.state (run_from_init sampleKey sixSuggestionsTrace))
  = [js "A?"; js "B?"; js "C?"; js "D?"]
  /\ length (App.initialQuerySuggestions
               (App.state (run_from_init sampleKey sixSuggestionsTrace))) <= 4.
Proof.
  split; [vm_compute; reflexivity|].
  apply (reachable_suggestions_at_most_four sampleExtractors sampleKey).
  exists sampleClock, sixSuggestionsTrace. vm_compute. reflexivity.
Defined.

(** ** The welcome effect *)

Lemma afterGroups_welcomed (key : option jsstring) (clock : nat -> N)
  (b : bool) (w : App.World)
  (f : list KnowledgeGroup.t -> list KnowledgeGroup.t) :
  welcomed clock (App.activeGroupId (App.state w))
    (App.chatMessages (App.state (App.afterGroups key clock b w f)))
  /\ App.sends (App.afterGroups key clock b w f) = App.sends w
  /\ App.isLoading (App.state (App.afterGroups key clock b w f))
     = App.isLoading (App.state w).
Proof.
  unfold App.afterGroups. cbv zeta.
  assert (Hw : welcomed clock (App.activeGroupId (App.state w))
                 (App.chatMessages
                    (App.welcomeEffect key clock
                       (App.setKnowledgeGroups f (App.state w))))).
  { unfold welcomed. eexists. split; [reflexivity|]. repeat split. }
  destruct b; [|repeat split; assumption].
  rewrite add_fetch_state.
  match goal with
  | |- context [App.suggestionsEffect key ?st] =>
      destruct (suggestionsEffect_chat key st) as (-> & -> & _)
  end.
  repeat split. assumption.
Qed.

(** X5.  Every change of the sources wipes the conversation: after
    [handleAddUrl], [handleRemoveUrl] or [handleRemoveFile] -- even when the
    handler leaves every group as it was -- and after the selection of
    another group, the transcript is the one welcome message of the system,
    whatever it held before; an outstanding chat call is not cancelled by
    that, and [isLoading] stays as it was. *)
Theorem source_change_resets_transcript :
  forall (X : KnowledgeBaseManager.Extractors) (API_KEY : option jsstring)
         (clock : nat -> N) (w : App.World),
    (forall e,
        (exists url, e = App.AddUrl url)
        \/ (exists url, e = App.RemoveUrl url)
        \/ (exists fileName, e = App.RemoveFile fileName) ->
        exists w',
          App.step X API_KEY clock e w = Some w'
          /\ welcomed clock (App.activeGroupId (App.state w))
               (App.chatMessages (App.state w'))
          /\ App.sends w' = App.sends w
          /\ App.isLoading (App.state w') = App.isLoading (App.state w))
    /\ (forall id w',
        id <> App.activeGroupId (App.state w) ->
        App.step X API_KEY clock (App.SetGroupId id) w = Some w' ->
        welcomed clock id (App.chatMessages (App.state w'))
        /\ App.sends w' = App.sends w
        /\ App.isLoading (App.state w') = App.isLoading (App.state w)).
Proof.
  intros X key clock w. split.
  - intros e [(url & ->) | [(url & ->) | (fileName & ->)]];
      unfold App.step; cbv zeta; eexists; (split; [reflexivity|]);
      apply afterGroups_welcomed.
  - intros id w' Hne Hstep. unfold App.step in Hstep. cbv zeta in Hstep.
    destruct (existsb _ _); [|discriminate].
    destruct (eqb id _) eqn:E; [apply eqb_eq in E; contradiction|].
    apply Some_eq in Hstep; subst w'. rewrite add_fetch_state.
    match goal with
    | |- context [App.suggestionsEffect key ?st] =>
        destruct (suggestionsEffect_chat key st) as (-> & -> & _)
    end.
    repeat split. unfold welcomed. eexists. split; [reflexivity|].
    repeat split.
Qed.

Lemma source_change_resets_transcript_witness :
  exists w',
    App.step sampleExtractors sampleKey sampleClock
      (App.RemoveUrl (js "https://x.test/none"))
      (run_from_init sampleKey sendTrace) = Some w'
    /\ length (App.chatMessages (App.state w')) = 1
    /\ length (App.sends w') = 1.
Proof.
  destruct (proj1 (source_change_resets_transcript sampleExtractors sampleKey
                     sampleClock (run_from_init sampleKey sendTrace))
              (App.RemoveUrl (js "https://x.test/none")))
    as (w' & Hstep & (m & Hm & _) & Hsends & _).
  - right; left. eexists; reflexivity.
  - exists w'. split; [assumption|]. rewrite Hm, Hsends. split; reflexivity.
Defined.

(** ** The algebra of the group handlers *)

Lemma filter_idempotent (A : Type) (p : A -> bool) (l : list A) :
  List.filter p (List.filter p l) = List.filter p l.
Proof.
  induction l as [|x l IH]; simpl; [reflexivity|].
  destruct (p x) eqn:E; simpl; [rewrite E, IH|]; auto.
Qed.

Lemma filter_all (A : Type) (p : A -> bool) (l : list A) :
  (forall x, In x l -> p x = true) -> List.filter p l = l.
Proof.
  induction l as [|x l IH]; simpl; intros H; [reflexivity|].
  rewrite (H x) by (left; reflexivity). f_equal. apply IH.
  intros y Hy. apply H. right; assumption.
Qed.

Lemma firstByName_complete (seen : list jsstring) (l : list ManagedFile.t)
  (n : jsstring) :
  In n (file_names l) -> ~ In n seen ->
  In n (file_names (firstByName seen l)).
Proof.
  revert seen. induction l as [|f l IH]; simpl; intros seen Hin Hs;
    [contradiction|].
  destruct (array_includes seen (ManagedFile.name f)) eqn:E.
  - apply array_includes_In in E. destruct Hin as [<- | Hin];
      [contradiction|]. apply IH; assumption.
  - simpl. destruct (eqb (ManagedFile.name f) n) eqn:En.
    + apply eqb_eq in En. left; assumption.
    + apply eqb_neq in En. destruct Hin as [Hin | Hin]; [contradiction|].
      right. apply IH; [assumption|]. intros [H | H]; auto.
Qed.

Lemma uniqueFiles_absorbs (files newFiles : list ManagedFile.t) :
  App.uniqueFiles (App.uniqueFiles (files ++ newFiles) ++ newFiles)
  = App.uniqueFiles (files ++ newFiles).
Proof.
  rewrite !uniqueFiles_firstByName.
  set (D := firstByName [] (files ++ newFiles)).
  rewrite firstByName_app, app_nil_r.
  rewrite (firstByName_id [] D) by
    (try (apply firstByName_names); intros ? _ []).
  rewrite firstByName_seen; [apply app_nil_r|].
  intros f Hf. apply firstByName_complete; [|intros []].
  unfold file_names. rewrite map_app. apply in_or_app. right.
  apply in_map. assumption.
Qed.

(** X6.  Each of the four knowledge-group handlers is idempotent: applied
    twice with the same argument it gives what it gives applied once.  For
    [handleAddFiles] this holds whatever the batch, also when the batch or
    the group repeats a name. *)
Theorem group_handlers_idempotent :
  forall (activeGroupId : jsstring) (groups : list KnowledgeGroup.t),
    (forall url,
        App.handleAddUrl activeGroupId url
          (App.handleAddUrl activeGroupId url groups)
        = App.handleAddUrl activeGroupId url groups)
    /\ (forall url,
        App.handleRemoveUrl activeGroupId url
          (App.handleRemoveUrl activeGroupId url groups)
        = App.handleRemoveUrl activeGroupId url groups)
    /\ (forall newFiles,
        App.handleAddFiles activeGroupId newFiles
          (App.handleAddFiles activeGroupId newFiles groups)
        = App.handleAddFiles activeGroupId newFiles groups)
    /\ (forall fileName,
        App.handleRemoveFile activeGroupId fileName
          (App.handleRemoveFile activeGroupId fileName groups)
        = App.handleRemoveFile activeGroupId fileName groups).
Proof.
  intros a groups.
  repeat split; intros x;
    unfold App.handleAddUrl, App.handleRemoveUrl, App.handleAddFiles,
      App.handleRemoveFile;
    rewrite map_map; apply map_ext; intros g;
    destruct (eqb (KnowledgeGroup.id g) a) eqn:E.
  - destruct (_ <? _) eqn:Ecap; cbn [andb]; [|rewrite E, Ecap; reflexivity].
    destruct (array_includes (KnowledgeGroup.urls g) x) eqn:Ein; cbn [negb].
    + rewrite E, Ecap, Ein. reflexivity.
    + cbn [KnowledgeGroup.id KnowledgeGroup.urls KnowledgeGroup.files].
      rewrite E. unfold array_includes at 1. rewrite existsb_app.
      cbn [existsb]. rewrite eqb_refl, orb_true_r, andb_false_r.
      reflexivity.
  - rewrite E. reflexivity.
  - cbn [KnowledgeGroup.id KnowledgeGroup.urls KnowledgeGroup.files
         KnowledgeGroup.name]. rewrite E, filter_idempotent. reflexivity.
  - rewrite E. reflexivity.
  - cbv zeta.
    cbn [KnowledgeGroup.id KnowledgeGroup.urls KnowledgeGroup.files
         KnowledgeGroup.name]. rewrite E, uniqueFiles_absorbs. reflexivity.
  - rewrite E. reflexivity.
  - cbn [KnowledgeGroup.id KnowledgeGroup.urls KnowledgeGroup.files
         KnowledgeGroup.name]. rewrite E, filter_idempotent. reflexivity.
  - rewrite E. reflexivity.
Qed.

(** X7.  Removing a URL undoes adding it: when no group of the active id
    lists the URL, [handleAddUrl] followed by [handleRemoveUrl] gives back
    the groups as they were -- whether the URL was admitted or turned away
    at the cap. *)
Theorem handleRemoveUrl_undoes_handleAddUrl :
  forall (activeGroupId url : jsstring) (groups : list KnowledgeGroup.t),
    (forall g, In g groups -> KnowledgeGroup.id g = activeGroupId ->
               ~ In url (KnowledgeGroup.urls g)) ->
    App.handleRemoveUrl activeGroupId url
      (App.handleAddUrl activeGroupId url groups)
    = groups.
Proof.
  intros a url groups Hfresh.
  unfold App.handleRemoveUrl, App.handleAddUrl. rewrite map_map.
  rewrite <- (map_id groups) at 2. apply map_ext_in. intros g Hg.
  destruct (eqb (KnowledgeGroup.id g) a) eqn:E; [|rewrite E; reflexivity].
  pose proof (Hfresh g Hg (proj1 (eqb_eq _ _) E)) as Hnot.
  assert (Hkeep : List.filter (fun u => negb (eqb u url))
                    (KnowledgeGroup.urls g) = KnowledgeGroup.urls g).
  { apply filter_all. intros u Hu. apply negb_true_iff, eqb_neq.
    intros ->. contradiction. }
  destruct (_ && _);
    cbn [KnowledgeGroup.id KnowledgeGroup.urls KnowledgeGroup.files
         KnowledgeGroup.name]; rewrite E.
  - rewrite filter_app, Hkeep. cbn [List.filter]. rewrite eqb_refl.
    cbn [negb]. rewrite app_nil_r. apply group_eta.
  - rewrite Hkeep. apply group_eta.
Qed.

Lemma handleRemoveUrl_undoes_handleAddUrl_witness :
  App.handleRemoveUrl (js "gemini-overview") (js "https://x.test/doc")
    (App.handleAddUrl (js "gemini-overview") (js "https://x.test/doc")
       App.INITIAL_KNOWLEDGE_GROUPS)
  = App.INITIAL_KNOWLEDGE_GROUPS.
Proof.
  apply (handleRemoveUrl_undoes_handleAddUrl (js "gemini-overview")
           (js "https://x.test/doc") App.INITIAL_KNOWLEDGE_GROUPS).
  intros g Hg _. apply array_includes_not_In.
  destruct Hg as [<- | [<- | []]]; vm_compute; reflexivity.
Defined.

(** X8.  Removing a file undoes adding it: when the files of every group
    of the active id have distinct names and none bears the name of [file],
    [handleAddFiles] of that one file followed by [handleRemoveFile] of its
    name gives back the groups as they were. *)
Theorem handleRemoveFile_undoes_handleAddFiles :
  forall (activeGroupId : jsstring) (file : ManagedFile.t)
         (groups : list KnowledgeGroup.t),
    (forall g, In g groups -> KnowledgeGroup.id g = activeGroupId ->
               NoDup (file_names (KnowledgeGroup.files g))
               /\ ~ In (ManagedFile.name file)
                       (file_names (KnowledgeGroup.files g))) ->
    App.handleRemoveFile activeGroupId (ManagedFile.name file)
      (App.handleAddFiles activeGroupId [file] groups)
    = groups.
Proof.
  intros a file groups Hfresh.
  unfold App.handleRemoveFile, App.handleAddFiles. rewrite map_map.
  rewrite <- (map_id groups) at 2. apply map_ext_in. intros g Hg.
  destruct (eqb (KnowledgeGroup.id g) a) eqn:E; [|rewrite E; reflexivity].
  destruct (Hfresh g Hg (proj1 (eqb_eq _ _) E)) as [ND Hnot].
  cbv zeta.
  cbn [KnowledgeGroup.id KnowledgeGroup.urls KnowledgeGroup.files
       KnowledgeGroup.name]. rewrite E.
  rewrite uniqueFiles_firstByName, firstByName_app, app_nil_r.
  rewrite (firstByName_id [] _ ND) by (intros ? _ []).
  cbn [firstByName].
  rewrite (proj2 (array_includes_not_In _ _) Hnot).
  rewrite filter_app. cbn [List.filter]. rewrite eqb_refl. cbn [negb].
  rewrite app_nil_r, filter_all; [apply group_eta|].
  intros f Hf. apply negb_true_iff, eqb_neq. intros Heq. apply Hnot.
  rewrite <- Heq. unfold file_names. apply in_map. assumption.
Qed.

Lemma handleRemoveFile_undoes_handleAddFiles_witness :
  App.handleRemoveFile (js "gemini-overview") (js "a.txt")
    (App.handleAddFiles (js "gemini-overview") [a_txt "A"]
       App.INITIAL_KNOWLEDGE_GROUPS)
  = App.INITIAL_KNOWLEDGE_GROUPS.
Proof.
  apply (handleRemoveFile_undoes_handleAddFiles (js "gemini-overview")
           (a_txt "A") App.INITIAL_KNOWLEDGE_GROUPS).
  intros g Hg _.
  destruct Hg as [<- | [<- | []]]; (split; [constructor | intros []]).
Defined.

(** ** The panels and the orchestrator *)

(** X9.  When the send button of the chat panel is enabled, a click goes
    through: [handleSend] clears the input and the attached images and calls
    [onSendMessage] with the trimmed text and the images; [handleSendMessage]
    does not turn that call away at its guard (the text it receives is
    already trimmed); with a key it issues the remote call for exactly that
    text and those images and appends the user message with that text; with
    no key it appends one system message and issues no call. *)
Theorem enabled_send_button_sends :
  forall (API_KEY : option jsstring) (clock : nat -> N)
         (ci : ChatInterface.State) (st : App.State),
    ChatInterface.sendDisabled (App.isLoading st)
      (App.isFetchingSuggestions st) ci = false ->
    let query := trim (ChatInterface.userQuery ci) in
    let images := ChatInterface.attachedImages ci in
    ChatInterface.handleSend (App.isLoading st) ci
    = ({| ChatInterface.userQuery := [];
          ChatInterface.attachedImages := [];
          ChatInterface.isManuallyExpanded := false |},
       Some (query, images))
    /\ (truthy_opt API_KEY = true ->
        exists st1 call userMessage,
          App.handleSendMessage API_KEY clock query images st
          = (st1, Some call)
          /\ App.send_query call = query
          /\ App.send_images call = images
          /\ App.chatMessages st1
             = App.chatMessages st
               ++ [userMessage; App.modelPlaceholderMessage call]
          /\ ChatMessage.sender userMessage = USER
          /\ ChatMessage.text userMessage = query)
    /\ (truthy_opt API_KEY = false ->
        exists m,
          App.handleSendMessage API_KEY clock query images st
          = (App.setChatMessages (fun prev => prev ++ [m]) st, None)
          /\ ChatMessage.sender m = SYSTEM).
Proof.
  intros key clock ci st Hen. cbv zeta.
  unfold ChatInterface.sendDisabled in Hen.
  apply orb_false_iff in Hen as [Hen Hguard].
  apply orb_false_iff in Hen as [Hl Hf].
  split; [|split].
  - unfold ChatInterface.handleSend. cbv zeta.
    rewrite Hguard, Hl. reflexivity.
  - intros Hk. unfold App.handleSendMessage.
    rewrite trim_idempotent, Hguard, Hl, Hf, Hk. cbn [orb negb]. cbv zeta.
    eexists. eexists. eexists. split; [reflexivity|]. repeat split.
  - intros Hk. unfold App.handleSendMessage.
    rewrite trim_idempotent, Hguard, Hl, Hf, Hk. cbn [orb negb].
    eexists. split; [reflexivity|]. reflexivity.
Qed.

Lemma enabled_send_button_sends_witness :
  ChatInterface.handleSend false
    {| ChatInterface.userQuery := js " hello ";
       ChatInterface.attachedImages := [];
       ChatInterface.isManuallyExpanded := true |}
  = ({| ChatInterface.userQuery := [];
        ChatInterface.attachedImages := [];
        ChatInterface.isManuallyExpanded := false |},
     Some (js "hello", [])).
Proof.
  exact (proj1 (enabled_send_button_sends sampleKey sampleClock
                  {| ChatInterface.userQuery := js " hello ";
                     ChatInterface.attachedImages := [];
                     ChatInterface.isManuallyExpanded := true |}
                  (App.state (run_from_init sampleKey
                                (at_sample_clock
                                   [App.FetchSettled 0 sampleSuggestions])))
                  eq_refl)).
Defined.

(** X10.  A URL that the knowledge-base panel accepts is added by the
    orchestrator: when the panel's [handleAddUrl], run on the props of the
    current state with an active group, calls [onAddUrl], it does so with
    the text of the input field, which the URL parser accepts, and clears
    the field and the error; [App.handleAddUrl] then appends exactly that
    URL to the URLs of the active group, leaves its files alone, and the
    group stays within the cap. *)
Theorem panel_accepted_url_is_added :
  forall (isValidUrl : jsstring -> bool) (st : App.State)
         (error0 : option jsstring) (currentUrlInput url : jsstring)
         (g : KnowledgeGroup.t),
    App.activeGroup (App.knowledgeGroups st) (App.activeGroupId st) = Some g ->
    KnowledgeBaseManager.onAddUrl
      (KnowledgeBaseManager.handleAddUrl isValidUrl (App.props st) error0
         currentUrlInput) = Some url ->
    let groups' :=
      App.handleAddUrl (App.activeGroupId st) url (App.knowledgeGroups st) in
    url = currentUrlInput
    /\ isValidUrl url = true
    /\ KnowledgeBaseManager.url_error
         (KnowledgeBaseManager.handleAddUrl isValidUrl (App.props st) error0
            currentUrlInput) = None
    /\ KnowledgeBaseManager.url_input
         (KnowledgeBaseManager.handleAddUrl isValidUrl (App.props st) error0
            currentUrlInput) = []
    /\ App.currentUrls groups' (App.activeGroupId st)
       = App.currentUrls (App.knowledgeGroups st) (App.activeGroupId st)
         ++ [url]
    /\ App.currentFiles groups' (App.activeGroupId st)
       = App.currentFiles (App.knowledgeGroups st) (App.activeGroupId st)
    /\ length (App.currentUrls groups' (App.activeGroupId st))
       + length (App.currentFiles groups' (App.activeGroupId st))
       <= App.MAX_SOURCES.
Proof.
  intros isValidUrl st error0 input url g Hg Hcall. cbv zeta.
  unfold KnowledgeBaseManager.handleAddUrl in *.
  destruct (negb (truthy (trim input))); [discriminate|].
  destruct (isValidUrl input) eqn:Ev; cbn [negb] in *; [|discriminate].
  destruct (Nat.leb_spec
              (KnowledgeBaseManager.maxSources (App.props st))
              (KnowledgeBaseManager.totalSources (App.props st)))
    as [|Hcap]; [discriminate|].
  destruct (array_includes (KnowledgeBaseManager.urls (App.props st)) input)
    eqn:Ein; [discriminate|].
  cbn [KnowledgeBaseManager.onAddUrl KnowledgeBaseManager.url_error
       KnowledgeBaseManager.url_input] in *.
  apply Some_eq in Hcall. subst url.
  unfold KnowledgeBaseManager.totalSources, App.props in Hcap, Ein.
  cbn [KnowledgeBaseManager.urls KnowledgeBaseManager.files
       KnowledgeBaseManager.maxSources] in Hcap, Ein.
  unfold App.currentUrls, App.currentFiles in *.
  rewrite Hg in Hcap, Ein.
  unfold App.handleAddUrl.
  rewrite activeGroup_map
    by (intros g0; destruct (eqb _ _); [destruct (_ && _)|]; reflexivity).
  rewrite Hg. cbn [option_map].
  rewrite (activeGroup_id _ _ _ Hg), eqb_refl, Ein.
  destruct (Nat.ltb_spec
              (length (KnowledgeGroup.urls g)
               + length (KnowledgeGroup.files g)) App.MAX_SOURCES);
    [|lia].
  cbn [andb negb KnowledgeGroup.urls KnowledgeGroup.files].
  repeat split; try assumption. rewrite length_app. cbn [length]. lia.
Qed.

Lemma panel_accepted_url_is_added_witness :
  App.currentUrls
    (App.handleAddUrl (js "gemini-overview") (js "https://x.test/doc")
       App.INITIAL_KNOWLEDGE_GROUPS) (js "gemini-overview")
  = App.GEMINI_DOCS_URLS ++ [js "https://x.test/doc"].
Proof.
  destruct (panel_accepted_url_is_added sampleValidUrl
              (App.state (App.init sampleKey sampleClock)) None
              (js "https://x.test/doc") (js "https://x.test/doc")
              (KnowledgeGroup.mk (js "gemini-overview")
                 (js "Gemini Docs Overview") App.GEMINI_DOCS_URLS [])
              eq_refl eq_refl)
    as (_ & _ & _ & _ & H & _).
  exact H.
Defined.

(** ** File names and extensions *)

Lemma split_no_separator (sep : N) (s : jsstring) :
  ~ In sep s -> split sep s = [s].
Proof.
  induction s as [|c s IH]; simpl; intros H; [reflexivity|].
  rewrite IH by tauto.
  destruct (N.eqb_spec c sep); [exfalso; apply H; left; assumption|].
  reflexivity.
Qed.

Lemma split_last_part (sep : N) (base ext : jsstring) :
  ~ In sep ext ->
  exists p rest,
    split sep (base ++ sep :: ext) = p :: rest
    /\ rest <> [] /\ pop rest = Some ext.
Proof.
  intros Hext. induction base as [|c base (p & rest & E & Hne & Hpop)].
  - simpl. rewrite (split_no_separator sep ext Hext), N.eqb_refl.
    exists [], [ext]. repeat split. discriminate.
  - simpl. rewrite E. destruct (N.eqb c sep).
    + exists [], (p :: rest). repeat split; [discriminate|].
      simpl. destruct rest; [contradiction | assumption].
    + exists (c :: p), rest. repeat split; assumption.
Qed.

Lemma split_not_empty (sep : N) (s : jsstring) : split sep s <> [].
Proof.
  destruct s as [|c s]; simpl; [discriminate|].
  destruct (split sep s); [discriminate|].
  destruct (N.eqb c sep); discriminate.
Qed.

Lemma pop_not_empty (A : Type) (l : list A) : l <> [] -> pop l <> None.
Proof.
  induction l as [|x l IH]; [contradiction|]. intros _.
  destruct l as [|y l]; [discriminate|]. apply IH. discriminate.
Qed.

(** X11.  The extension that decides how a file is read is never
    [undefined].  For a name whose part after the last dot is made of Basic
    Latin (ASCII) code units it is that part with the letters A to Z in
    lower case; for a name of Basic Latin code units without a dot it is the
    whole name in lower case, so that a file called [pdf] is read as a
    PDF. *)
Theorem fileExtension_is_last_part :
  forall (name : jsstring) (bytes : list N) (readable : bool),
    (forall base ext,
        name = base ++ [46%N] ++ ext -> ~ In 46%N ext -> basic_latin ext ->
        KnowledgeBaseManager.fileExtension
          (KnowledgeBaseManager.File.mk name bytes readable)
        = Some (toLowerCase ext))
    /\ (~ In 46%N name -> basic_latin name ->
        KnowledgeBaseManager.fileExtension
          (KnowledgeBaseManager.File.mk name bytes readable)
        = Some (toLowerCase name))
    /\ KnowledgeBaseManager.fileExtension
         (KnowledgeBaseManager.File.mk name bytes readable) <> None.
Proof.
  intros name bytes readable. unfold KnowledgeBaseManager.fileExtension.
  cbn [KnowledgeBaseManager.File.name]. split; [|split].
  - intros base ext -> Hext _.
    destruct (split_last_part 46%N base ext Hext) as (p & rest & E & Hne & Hp).
    cbn [app]. rewrite E. simpl.
    destruct rest; [contradiction|]. rewrite Hp. reflexivity.
  - intros H _. rewrite (split_no_separator 46%N name H). reflexivity.
  - pose proof (pop_not_empty _ (split 46 name) (split_not_empty 46 name))
      as H.
    destruct (pop (split 46 name)); [discriminate | contradiction].
Qed.

Lemma fileExtension_is_last_part_witness :
  KnowledgeBaseManager.fileExtension (sampleFile "Report.v2.PDF" "x")
  = Some (js "pdf")
  /\ KnowledgeBaseManager.fileExtension (sampleFile "pdf" "x")
     = Some (js "pdf").
Proof.
  destruct (fileExtension_is_last_part (js "Report.v2.PDF") (js "x") true)
    as [H _].
  destruct (fileExtension_is_last_part (js "pdf") (js "x") true)
    as (_ & H' & _).
  split.
  - apply (H (js "Report.v2") (js "PDF")); [reflexivity| |].
    + vm_compute. intuition discriminate.
    + vm_compute. repeat constructor.
  - apply H'.
    + vm_compute. intuition discriminate.
    + vm_compute. repeat constructor.
Defined.

(** ** Reading the files of an import *)

(** X12.  A [.doc] or [.pptx] file is never imported, whatever the
    libraries do: its promise is never fulfilled, and when the file is read
    with a text that is not empty it is rejected as not supported. *)
Theorem doc_and_pptx_are_never_imported :
  forall (X : KnowledgeBaseManager.Extractors)
         (file : KnowledgeBaseManager.File.t) (e : jsstring),
    KnowledgeBaseManager.fileExtension file = Some e ->
    e = js "doc" \/ e = js "pptx" ->
    (forall value,
        KnowledgeBaseManager.readPromise X file
        <> KnowledgeBaseManager.fulfilled value)
    /\ (KnowledgeBaseManager.File.readable file = true ->
        KnowledgeBaseManager.readAsText X
          (KnowledgeBaseManager.File.bytes file) <> [] ->
        KnowledgeBaseManager.readPromise X file
        = KnowledgeBaseManager.rejected
            (js "." ++ e ++ js " is not supported")).
Proof.
  intros X file e He Hdoc. unfold KnowledgeBaseManager.readPromise.
  rewrite He. cbv zeta.
  destruct (KnowledgeBaseManager.File.readable file); cbn [negb];
    [|split; [discriminate | discriminate]].
  assert (Htext :
    array_includes [js "docx"; js "xlsx"; js "pdf"] e = false).
  { destruct Hdoc as [-> | ->]; reflexivity. }
  rewrite Htext. cbn [KnowledgeBaseManager.content_truthy].
  destruct (KnowledgeBaseManager.readAsText X
              (KnowledgeBaseManager.File.bytes file)) as [|c t];
    cbn [truthy negb]; [split; [discriminate | congruence]|].
  destruct Hdoc as [-> | ->]; split; try discriminate; reflexivity.
Qed.

Lemma doc_and_pptx_are_never_imported_witness :
  KnowledgeBaseManager.readPromise sampleExtractors
    (sampleFile "slides.PPTX" "binary")
  = KnowledgeBaseManager.rejected (js ".pptx is not supported").
Proof.
  apply (doc_and_pptx_are_never_imported sampleExtractors
           (sampleFile "slides.PPTX" "binary") (js "pptx")).
  - reflexivity.
  - right; reflexivity.
  - reflexivity.
  - discriminate.
Defined.

(** X13.  A file of one of the ten text formats ([txt], [js], [ts], [jsx],
    [tsx], [json], [md], [html], [css], [py]) that is read with a text that
    is not empty is imported under its own name with that text, verbatim,
    as its content; no library is involved. *)
Theorem text_formats_are_imported_verbatim :
  forall (X : KnowledgeBaseManager.Extractors)
         (file : KnowledgeBaseManager.File.t) (e : jsstring),
    KnowledgeBaseManager.fileExtension file = Some e ->
    In e textExtensions ->
    KnowledgeBaseManager.File.readable file = true ->
    KnowledgeBaseManager.readAsText X (KnowledgeBaseManager.File.bytes file)
    <> [] ->
    KnowledgeBaseManager.readPromise X file
    = KnowledgeBaseManager.fulfilled
        (ManagedFile.mk (KnowledgeBaseManager.File.name file)
           (KnowledgeBaseManager.readAsText X
              (KnowledgeBaseManager.File.bytes file))).
Proof.
  intros X file e He Hin Hr Hne. unfold KnowledgeBaseManager.readPromise.
  rewrite He, Hr. cbv zeta. cbn [negb].
  assert (Htext :
    array_includes [js "docx"; js "xlsx"; js "pdf"] e = false).
  { unfold textExtensions in Hin. simpl in Hin.
    repeat (destruct Hin as [<- | Hin]; [reflexivity|]). contradiction. }
  rewrite Htext. cbn [KnowledgeBaseManager.content_truthy].
  destruct (KnowledgeBaseManager.readAsText X
              (KnowledgeBaseManager.File.bytes file)) as [|c t];
    [congruence|].
  cbn [truthy negb KnowledgeBaseManager.as_string].
  unfold textExtensions in Hin. simpl in Hin.
  repeat (destruct Hin as [<- | Hin]; [reflexivity|]). contradiction.
Qed.

Lemma text_formats_are_imported_verbatim_witness :
  KnowledgeBaseManager.readPromise sampleExtractors
    (sampleFile "notes.MD" "# Title")
  = KnowledgeBaseManager.fulfilled
      (ManagedFile.mk (js "notes.MD") (js "# Title")).
Proof.
  apply (text_formats_are_imported_verbatim sampleExtractors
           (sampleFile "notes.MD" "# Title") (js "md")).
  - reflexivity.
  - unfold textExtensions. simpl. tauto.
  - reflexivity.
  - discriminate.
Defined.

Lemma readPromise_name (X : KnowledgeBaseManager.Extractors)
  (file : KnowledgeBaseManager.File.t) (value : ManagedFile.t) :
  KnowledgeBaseManager.readPromise X file
  = KnowledgeBaseManager.fulfilled value ->
  ManagedFile.name value = KnowledgeBaseManager.File.name file.
Proof.
  unfold KnowledgeBaseManager.readPromise. cbv zeta. intros H.
  repeat match type of H with
         | context [if ?b then _ else _] => destruct b
         | context [match ?x with _ => _ end] => destruct x
         end;
    try discriminate; inversion H; reflexivity.
Qed.

Lemma successful_names (X : KnowledgeBaseManager.Extractors)
  (l : list KnowledgeBaseManager.File.t) :
  file_names
    (KnowledgeBaseManager.successfulFiles
       (List.map (KnowledgeBaseManager.readPromise X) l))
  = List.map KnowledgeBaseManager.File.name
      (List.filter
         (fun f => is_fulfilled (KnowledgeBaseManager.readPromise X f)) l).
Proof.
  induction l as [|f l IH]; simpl; [reflexivity|].
  destruct (KnowledgeBaseManager.readPromise X f) as [v|m] eqn:E; simpl.
  - rewrite IH, (readPromise_name X f v E). reflexivity.
  - exact IH.
Qed.

Lemma settled_partition (results : list KnowledgeBaseManager.Settled) :
  length (KnowledgeBaseManager.successfulFiles results)
  + length (KnowledgeBaseManager.errorMessages results)
  = length results.
Proof.
  induction results as [|[v|m] l IH]; simpl; lia.
Qed.

(** X14.  Partial failure is tolerated in an import: each file whose read
    was started ends either as one imported file, which bears the name of
    the selected file, or as one error message; the files that succeed go to
    [onAddFiles], in the order of the selection, whether or not others fail
    ([onAddFiles] is not called only when none succeeds); and the error
    shown afterwards lists every failure, or is the error as it was when
    none failed. *)
Theorem import_tolerates_partial_failure :
  forall (X : KnowledgeBaseManager.Extractors) (error1 : option jsstring)
         (filesToProcess : list KnowledgeBaseManager.File.t),
    let results :=
      List.map (KnowledgeBaseManager.readPromise X) filesToProcess in
    let successes := KnowledgeBaseManager.successfulFiles results in
    let failures := KnowledgeBaseManager.errorMessages results in
    let r :=
      KnowledgeBaseManager.handleFileChange_settled X error1 filesToProcess in
    length successes + length failures = length filesToProcess
    /\ file_names successes
       = List.map KnowledgeBaseManager.File.name
           (List.filter
              (fun f => is_fulfilled (KnowledgeBaseManager.readPromise X f))
              filesToProcess)
    /\ (successes <> [] -> KnowledgeBaseManager.onAddFiles r = Some successes)
    /\ (successes = [] -> KnowledgeBaseManager.onAddFiles r = None)
    /\ (failures <> [] ->
        KnowledgeBaseManager.error r
        = Some (js "Import errors: " ++ join (js ", ") failures ++ js "."))
    /\ (failures = [] -> KnowledgeBaseManager.error r = error1).
Proof.
  intros X error1 l. cbv zeta.
  unfold KnowledgeBaseManager.handleFileChange_settled. cbv zeta.
  cbn [KnowledgeBaseManager.onAddFiles KnowledgeBaseManager.error].
  split; [|split].
  - rewrite settled_partition. apply length_map.
  - apply successful_names.
  - destruct (KnowledgeBaseManager.successfulFiles _);
      destruct (KnowledgeBaseManager.errorMessages _);
      repeat split; congruence.
Qed.

Lemma import_tolerates_partial_failure_witness :
  let r :=
    KnowledgeBaseManager.handleFileChange_settled sampleExtractors None
      [sampleFile "a.txt" "A"; sampleFile "old.doc" "D";
       sampleFile "b.md" "B"] in
  KnowledgeBaseManager.onAddFiles r
  = Some [ManagedFile.mk (js "a.txt") (js "A");
          ManagedFile.mk (js "b.md") (js "B")]
  /\ KnowledgeBaseManager.error r
     = Some (js "Import errors: .doc is not supported.").
Proof.
  destruct (import_tolerates_partial_failure sampleExtractors None
              [sampleFile "a.txt" "A"; sampleFile "old.doc" "D";
               sampleFile "b.md" "B"])
    as (_ & _ & Hs & _ & Hf & _).
  cbv zeta. split.
  - rewrite Hs; [reflexivity | discriminate].
  - rewrite Hf; [reflexivity | discriminate].
Defined.

Lemma filesToProcess_present (p : KnowledgeBaseManager.Props)
  (selected : list KnowledgeBaseManager.File.t) :
  (forall f, In f selected ->
             In (KnowledgeBaseManager.File.name f)
               (file_names (KnowledgeBaseManager.files p))) ->
  KnowledgeBaseManager.filesToProcess p selected = [].
Proof.
  unfold KnowledgeBaseManager.filesToProcess.
  induction selected as [|f l IH]; simpl; intros H; [reflexivity|].
  rewrite existsb_name_includes.
  rewrite (proj2 (array_includes_In _ _) (H f (or_introl eq_refl))).
  simpl. apply IH. intros f' Hf'. apply H. right; assumption.
Qed.

(** X15.  Selecting again files that the group already holds: below the
    cap nothing happens at all -- no read is started, [onAddFiles] is not
    called, no error is shown (an earlier one is cleared), and in the
    component the state is left as it was; at the cap (where the two
    buttons that add a source are disabled) the selection is answered with
    the maximum-reached error although it would add nothing. *)
Theorem reselecting_held_files_adds_nothing :
  forall (X : KnowledgeBaseManager.Extractors)
         (p : KnowledgeBaseManager.Props) (error0 : option jsstring)
         (selectedFiles : list KnowledgeBaseManager.File.t),
    selectedFiles <> [] ->
    (forall f, In f selectedFiles ->
               In (KnowledgeBaseManager.File.name f)
                 (file_names (KnowledgeBaseManager.files p))) ->
    (KnowledgeBaseManager.totalSources p < KnowledgeBaseManager.maxSources p ->
     KnowledgeBaseManager.handleFileChange X p error0 selectedFiles
     = KnowledgeBaseManager.Build_FileChangeResult None None []
     /\ forall API_KEY clock w,
         App.props (App.state w) = p -> App.kb_error w = error0 ->
         App.step X API_KEY clock (App.ImportFiles selectedFiles) w
         = Some (App.set_kb_error None w))
    /\ (KnowledgeBaseManager.addDisabled p = true ->
        KnowledgeBaseManager.handleFileChange X p error0 selectedFiles
        = KnowledgeBaseManager.Build_FileChangeResult
            (Some (js "Maximum sources ("
                   ++ ofNat (KnowledgeBaseManager.maxSources p)
                   ++ js ") reached. Cannot add more files."))
            None []).
Proof.
  intros X p error0 selected Hne Hheld.
  pose proof (filesToProcess_present p selected Hheld) as Hnone.
  assert (Hcheck :
    KnowledgeBaseManager.totalSources p < KnowledgeBaseManager.maxSources p ->
    KnowledgeBaseManager.handleFileChange_check p error0 selected
    = (None, Some [])).
  { intros Hlt. unfold KnowledgeBaseManager.handleFileChange_check.
    destruct selected as [|f l]; [congruence|].
    destruct (Nat.leb_spec (KnowledgeBaseManager.maxSources p)
                (KnowledgeBaseManager.totalSources p)); [lia|].
    cbv zeta. rewrite Hnone. cbn [length].
    destruct (Nat.ltb_spec (KnowledgeBaseManager.maxSources p)
                (KnowledgeBaseManager.totalSources p + 0)); [lia|].
    reflexivity. }
  split.
  - intros Hlt. specialize (Hcheck Hlt). split.
    + unfold KnowledgeBaseManager.handleFileChange. rewrite Hcheck.
      reflexivity.
    + intros key clock w Hp Herr. unfold App.step. cbv zeta.
      rewrite Hp, Herr, Hcheck. reflexivity.
  - intros Hge. unfold KnowledgeBaseManager.addDisabled in Hge.
    unfold KnowledgeBaseManager.handleFileChange,
      KnowledgeBaseManager.handleFileChange_check.
    destruct selected as [|f l]; [congruence|].
    rewrite Hge. reflexivity.
Qed.

Lemma reselecting_held_files_adds_nothing_witness :
  KnowledgeBaseManager.handleFileChange sampleExtractors
    {| KnowledgeBaseManager.urls := [];
       KnowledgeBaseManager.files := [a_txt "old"];
       KnowledgeBaseManager.maxSources := 20 |}
    (Some (js "an earlier error")) [sampleFile "a.txt" "new"]
  = KnowledgeBaseManager.Build_FileChangeResult None None [].
Proof.
  apply (reselecting_held_files_adds_nothing sampleExtractors
           {| KnowledgeBaseManager.urls := [];
              KnowledgeBaseManager.files := [a_txt "old"];
              KnowledgeBaseManager.maxSources := 20 |}
           (Some (js "an earlier error")) [sampleFile "a.txt" "new"]).
  - discriminate.
  - intros f [<- | []]. left; reflexivity.
  - vm_compute. lia.
Defined.

(** ** The text of spreadsheets and PDFs *)

Lemma fold_left_append (A : Type) (line : A -> jsstring) (l : list A)
  (acc : jsstring) :
  List.fold_left (fun acc' x => acc' ++ line x) l acc
  = acc ++ List.concat (List.map line l).
Proof.
  revert acc. induction l as [|x l IH]; intros acc; simpl.
  - rewrite app_nil_r. reflexivity.
  - rewrite IH, app_assoc. reflexivity.
Qed.

Lemma fold_left_ext (A B : Type) (f g : B -> A -> B) (l : list A) (b : B) :
  (forall b' x, f b' x = g b' x) ->
  List.fold_left f l b = List.fold_left g l b.
Proof.
  intros H. revert b. induction l as [|x l IH]; intros b; simpl;
    [reflexivity|]. rewrite H. apply IH.
Qed.

(** X16.  The text extracted from a spreadsheet is the concatenation, sheet
    after sheet, of a header line with the sheet's name, a blank line, the
    rows that are not empty with their cells separated by tabs, and a blank
    line; the text extracted from a PDF is the concatenation, page after
    page, of the page's items separated by spaces and a newline.  So the
    text of a document is the text of its first sheets (pages) followed by
    the text of the others, and a document without sheets (pages) gives the
    empty text. *)
Theorem spreadsheet_and_pdf_text_by_parts :
  (forall workbook,
      KnowledgeBaseManager.xlsxText workbook
      = List.concat (List.map sheetText workbook))
  /\ (forall pages,
      KnowledgeBaseManager.pdfText pages
      = List.concat (List.map pageLine pages))
  /\ (forall a b,
      KnowledgeBaseManager.xlsxText (a ++ b)
      = KnowledgeBaseManager.xlsxText a ++ KnowledgeBaseManager.xlsxText b)
  /\ (forall a b,
      KnowledgeBaseManager.pdfText (a ++ b)
      = KnowledgeBaseManager.pdfText a ++ KnowledgeBaseManager.pdfText b).
Proof.
  assert (Hx : forall workbook,
    KnowledgeBaseManager.xlsxText workbook
    = List.concat (List.map sheetText workbook)).
  { intros workbook. unfold KnowledgeBaseManager.xlsxText.
    rewrite (fold_left_ext _ _ _ (fun acc sheet => acc ++ sheetText sheet)).
    - apply (fold_left_append _ sheetText workbook []).
    - intros acc sheet. cbv zeta.
      rewrite (fold_left_ext _ _ _ (fun acc' row => acc' ++ rowLine row)).
      + rewrite fold_left_append. unfold sheetText.
        rewrite <- !app_assoc. reflexivity.
      + intros acc' [|c row]; simpl; [rewrite app_nil_r|]; reflexivity. }
  assert (Hp : forall pages,
    KnowledgeBaseManager.pdfText pages
    = List.concat (List.map pageLine pages)).
  { intros pages. unfold KnowledgeBaseManager.pdfText.
    rewrite (fold_left_ext _ _ _ (fun acc items => acc ++ pageLine items)).
    - apply (fold_left_append _ pageLine pages []).
    - intros acc items. reflexivity. }
  repeat split; try assumption; intros a b.
  - rewrite !Hx, map_app, concat_app. reflexivity.
  - rewrite !Hp, map_app, concat_app. reflexivity.
Qed.

(** ** Substrings *)

Lemma includes_unfold (needle s : jsstring) :
  includes needle s
  = startsWith needle s
    || match s with [] => false | _ :: s' => includes needle s' end.
Proof. destruct s; reflexivity. Qed.

Lemma startsWith_app (needle s : jsstring) :
  startsWith needle (needle ++ s) = true.
Proof.
  induction needle as [|c n IH]; simpl; [reflexivity|].
  rewrite N.eqb_refl. exact IH.
Qed.

Lemma includes_middle (a needle b : jsstring) :
  includes needle (a ++ needle ++ b) = true.
Proof.
  induction a as [|c a IH].
  - cbn [app]. rewrite includes_unfold, startsWith_app. reflexivity.
  - cbn [app]. rewrite includes_unfold, IH. apply orb_true_r.
Qed.

Lemma startsWith_longer (needle l b : jsstring) :
  startsWith needle l = true -> startsWith needle (l ++ b) = true.
Proof.
  revert l. induction needle as [|x n IH]; intros [|y l]; simpl;
    try discriminate; try reflexivity.
  intros H. apply andb_true_iff in H as [Hxy H]. rewrite Hxy. simpl.
  apply IH. exact H.
Qed.

(** What occurs in a string occurs in every string around it. *)
Lemma includes_within (needle s a b : jsstring) :
  includes needle s = true -> includes needle (a ++ s ++ b) = true.
Proof.
  intros H. assert (Hs : includes needle (s ++ b) = true).
  { induction s as [|c s IH].
    - rewrite includes_unfold in H. destruct needle; [|discriminate].
      rewrite includes_unfold. reflexivity.
    - rewrite includes_unfold in H. apply orb_true_iff in H as [H | H].
      + rewrite includes_unfold, (startsWith_longer _ _ b H). reflexivity.
      + cbn [app]. rewrite includes_unfold, (IH H). apply orb_true_r. }
  induction a as [|c a IH]; [exact Hs|].
  cbn [app]. rewrite includes_unfold, IH. apply orb_true_r.
Qed.

Lemma join_holds (sep : jsstring) (parts : list jsstring) (u : jsstring) :
  In u parts -> exists a b, join sep parts = a ++ u ++ b.
Proof.
  induction parts as [|p l IH]; intros H; [contradiction|].
  destruct H as [-> | H].
  - destruct l as [|q l].
    + exists [], []. simpl. rewrite app_nil_r. reflexivity.
    + exists [], (sep ++ join sep (q :: l)). reflexivity.
  - destruct (IH H) as (a & b & E). destruct l as [|q l]; [contradiction|].
    exists (p ++ sep ++ a), b.
    change (join sep (p :: q :: l)) with (p ++ sep ++ join sep (q :: l)).
    rewrite E, <- !app_assoc. reflexivity.
Qed.

Lemma trim_of_nonblank (s : jsstring) (c : N) :
  In c s -> is_whitespace c = false -> truthy (trim s) = true.
Proof.
  intros Hin Hc.
  destruct (trim_shape s) as (lead & trail & E & Hl & Ht & _).
  destruct (trim s) as [|x t]; [|reflexivity].
  exfalso. rewrite E in Hin. cbn [app] in Hin.
  unfold all in Hl, Ht. rewrite Forall_forall in Hl, Ht.
  apply in_app_or in Hin as [Hin | Hin];
    [rewrite (Hl c Hin) in Hc | rewrite (Ht c Hin) in Hc]; discriminate.
Qed.

(** ** The chat call of the service *)

Lemma fullPrompt_holds_prompt (prompt : jsstring) (urls : list jsstring)
  (files : list ManagedFile.t) :
  exists pre post,
    GeminiService.fullPrompt prompt urls files = pre ++ prompt ++ post.
Proof.
  unfold GeminiService.fullPrompt. cbv zeta.
  destruct (0 <? length files); destruct (0 <? length urls).
  - match goal with
    | |- exists pre post,
           (?a ++ ?b ++ ?c ++ ?d ++ ?e ++ prompt) ++ ?f = _ =>
        exists (a ++ b ++ c ++ d ++ e), f
    end.
    rewrite <- !app_assoc. reflexivity.
  - match goal with
    | |- exists pre post, ?a ++ ?b ++ ?c ++ ?d ++ ?e ++ prompt = _ =>
        exists (a ++ b ++ c ++ d ++ e), []
    end.
    rewrite <- !app_assoc, app_nil_r. reflexivity.
  - exists []. eexists. reflexivity.
  - exists [], []. rewrite app_nil_r. reflexivity.
Qed.

Lemma fullPrompt_lists_urls (prompt : jsstring) (urls : list jsstring)
  (files : list ManagedFile.t) :
  urls <> [] ->
  exists pre,
    GeminiService.fullPrompt prompt urls files
    = pre ++ js "Additionally, use these URLs for context:" ++ [10%N]
      ++ join [10%N] urls.
Proof.
  intros Hne. unfold GeminiService.fullPrompt. cbv zeta.
  destruct urls as [|u us]; [congruence|]. cbn [length Nat.ltb Nat.leb].
  eexists. rewrite app_assoc. reflexivity.
Qed.

Lemma fullPrompt_holds_files (prompt : jsstring) (urls : list jsstring)
  (files : list ManagedFile.t) :
  files <> [] ->
  exists post,
    GeminiService.fullPrompt prompt urls files
    = (js "Based on the following file contents, answer the user's query."
       ++ [10; 10]%N)
      ++ join [10; 10]%N (List.map fileBlock files) ++ post.
Proof.
  intros Hne. unfold GeminiService.fullPrompt. cbv zeta.
  destruct files as [|f fs]; [congruence|]. cbn [length Nat.ltb Nat.leb].
  change (fun f0 : ManagedFile.t =>
            js "Content from file " ++ GeminiService.dq
            ++ ManagedFile.name f0 ++ GeminiService.dq ++ js ":" ++ [10%N]
            ++ js "---" ++ [10%N] ++ ManagedFile.content f0 ++ [10%N]
            ++ js "---" ++ [10%N]) with fileBlock.
  destruct urls as [|u us]; cbn [length].
  - match goal with
    | |- exists post, ?a ++ ?b ++ ?c ++ ?d = _ => exists d
    end.
    rewrite <- !app_assoc. reflexivity.
  - match goal with
    | |- exists post, (?a ++ ?b ++ ?c ++ ?d) ++ ?e = _ =>
        exists (d ++ e)
    end.
    rewrite <- !app_assoc. reflexivity.
Qed.

Lemma chat_request (key : option jsstring) (prompt : jsstring)
  (urls : list jsstring) (files : list ManagedFile.t) (modelName : jsstring)
  (images : list AttachedImage.t) :
  truthy_opt key = true ->
  exists request k,
    GeminiService.generateContentWithUrlContext key prompt urls files
      modelName images
    = GeminiService.AwaitGenerateContent request k
    /\ GeminiService.content_model request = modelName
    /\ GeminiService.parts request
       = (if truthy (trim (GeminiService.fullPrompt prompt urls files))
          then [GeminiService.text_part
                  (GeminiService.fullPrompt prompt urls files)]
          else [])
         ++ List.map imagePart images
    /\ GeminiService.tools request
       = if 0 <? length urls then [GeminiService.urlContext] else [].
Proof.
  intros Hk. unfold GeminiService.generateContentWithUrlContext,
    GeminiService.getAiInstance. rewrite Hk. cbv zeta.
  eexists. eexists. split; [reflexivity|]. repeat split.
Qed.

(** X17.  The request of a chat call carries the URL-context tool exactly
    when the group has at least one URL, and then its first part is a text
    in which every one of the URLs occurs -- as the tool requires. *)
Theorem url_context_tool_comes_with_the_urls :
  forall (API_KEY : option jsstring) (prompt : jsstring)
         (urls : list jsstring) (files : list ManagedFile.t)
         (modelName : jsstring) (images : list AttachedImage.t),
    truthy_opt API_KEY = true ->
    exists request k,
      GeminiService.generateContentWithUrlContext API_KEY prompt urls files
        modelName images
      = GeminiService.AwaitGenerateContent request k
      /\ GeminiService.content_model request = modelName
      /\ (urls = [] -> GeminiService.tools request = [])
      /\ (urls <> [] ->
          GeminiService.tools request = [GeminiService.urlContext]
          /\ exists text,
              GeminiService.parts request
              = GeminiService.text_part text :: List.map imagePart images
              /\ forall url, In url urls -> includes url text = true).
Proof.
  intros key prompt urls files modelName images Hk.
  destruct (chat_request key prompt urls files modelName images Hk)
    as (request & k & E & Hm & Hp & Ht).
  exists request, k. split; [exact E|]. split; [exact Hm|]. split.
  - intros ->. rewrite Ht. reflexivity.
  - intros Hne. split.
    + rewrite Ht. destruct urls; [congruence | reflexivity].
    + destruct (fullPrompt_lists_urls prompt urls files Hne) as (pre & Ef).
      exists (GeminiService.fullPrompt prompt urls files). split.
      * rewrite Hp.
        rewrite (trim_of_nonblank _ 65%N); [reflexivity | | reflexivity].
        rewrite Ef. apply in_or_app. right. apply in_or_app. left.
        vm_compute. left. reflexivity.
      * intros url Hu. rewrite Ef.
        destruct (join_holds [10%N] urls url Hu) as (a & b & Ej).
        rewrite Ej.
        rewrite (app_assoc pre), (app_assoc (pre ++ _)), (app_assoc _ a).
        apply includes_middle.
Qed.

Lemma url_context_tool_comes_with_the_urls_witness :
  exists request k,
    GeminiService.generateContentWithUrlContext sampleKey (js "hello")
      [js "https://x.test/doc"] [] (js "gemini-2.5-flash") []
    = GeminiService.AwaitGenerateContent request k
    /\ GeminiService.tools request = [GeminiService.urlContext].
Proof.
  destruct (url_context_tool_comes_with_the_urls sampleKey (js "hello")
              [js "https://x.test/doc"] [] (js "gemini-2.5-flash") []
              eq_refl)
    as (request & k & E & _ & _ & H).
  exists request, k. split; [exact E|]. apply H. discriminate.
Defined.

(** X18.  When the group holds files, the first part of the request of a
    chat call is a text in which the user's query occurs and, for every
    file, its name and its whole content: nothing of a file is cut off. *)
Theorem chat_prompt_holds_whole_files :
  forall (API_KEY : option jsstring) (prompt : jsstring)
         (urls : list jsstring) (files : list ManagedFile.t)
         (modelName : jsstring) (images : list AttachedImage.t),
    truthy_opt API_KEY = true ->
    files <> [] ->
    exists request k text,
      GeminiService.generateContentWithUrlContext API_KEY prompt urls files
        modelName images
      = GeminiService.AwaitGenerateContent request k
      /\ GeminiService.parts request
         = GeminiService.text_part text :: List.map imagePart images
      /\ includes prompt text = true
      /\ forall f, In f files ->
           includes (ManagedFile.name f) text = true
           /\ includes (ManagedFile.content f) text = true.
Proof.
  intros key prompt urls files modelName images Hk Hne.
  destruct (chat_request key prompt urls files modelName images Hk)
    as (request & k & E & _ & Hp & _).
  destruct (fullPrompt_holds_files prompt urls files Hne) as (post & Ef).
  exists request, k, (GeminiService.fullPrompt prompt urls files).
  split; [exact E|]. split; [|split].
  - rewrite Hp.
    rewrite (trim_of_nonblank _ 66%N); [reflexivity | | reflexivity].
    rewrite Ef. apply in_or_app. left. vm_compute. left. reflexivity.
  - destruct (fullPrompt_holds_prompt prompt urls files) as (a & b & Ep).
    rewrite Ep. apply includes_middle.
  - intros f Hf. rewrite Ef.
    destruct (join_holds [10; 10]%N (List.map fileBlock files) (fileBlock f)
                (in_map fileBlock files f Hf)) as (a & b & Ej).
    rewrite Ej.
    match goal with
    | |- includes _ (?h ++ (a ++ ?fb ++ b) ++ post) = true /\ _ =>
        replace (h ++ (a ++ fb ++ b) ++ post)
          with ((h ++ a) ++ fb ++ (b ++ post))
          by (rewrite <- !app_assoc; reflexivity)
    end.
    split; apply includes_within; unfold fileBlock.
    + rewrite (app_assoc (js "Content from file ")).
      apply includes_middle.
    + match goal with
      | |- includes ?c (?x1 ++ ?x2 ++ ?x3 ++ ?x4 ++ ?x5 ++ ?x6 ++ ?x7 ++ ?x8
                        ++ ?c ++ ?rest) = true =>
          replace (x1 ++ x2 ++ x3 ++ x4 ++ x5 ++ x6 ++ x7 ++ x8 ++ c ++ rest)
            with ((x1 ++ x2 ++ x3 ++ x4 ++ x5 ++ x6 ++ x7 ++ x8) ++ c ++ rest)
            by (rewrite <- !app_assoc; reflexivity)
      end.
      apply includes_middle.
Qed.

Lemma chat_prompt_holds_whole_files_witness :
  exists request k text,
    GeminiService.generateContentWithUrlContext sampleKey (js "hello") []
      [a_txt "the whole content"] (js "gemini-2.5-flash") []
    = GeminiService.AwaitGenerateContent request k
    /\ GeminiService.parts request = [GeminiService.text_part text]
    /\ includes (js "the whole content") text = true.
Proof.
  destruct (chat_prompt_holds_whole_files sampleKey (js "hello") []
              [a_txt "the whole content"] (js "gemini-2.5-flash") []
              eq_refl)
    as (request & k & text & E & Hp & _ & Hf); [discriminate|].
  exists request, k, text. split; [exact E|]. split; [exact Hp|].
  apply (Hf (a_txt "the whole content")). left. reflexivity.
Defined.



Lemma split_second_part (sep : N) (header payload : jsstring) :
  ~ In sep header -> ~ In sep payload ->
  nth_error (split sep (header ++ sep :: payload)) 1 = Some payload.
Proof.
  intros Hh Hp. induction header as [|c h IH].
  - simpl. rewrite (split_no_separator sep payload Hp), N.eqb_refl.
    reflexivity.
  - simpl. destruct (split sep (h ++ sep :: payload)) as [|p rest] eqn:E.
    + simpl in IH. specialize (IH (fun H => Hh (or_intror H))).
      discriminate.
    + destruct (N.eqb_spec c sep) as [->|_];
        [exfalso; apply Hh; left; reflexivity|].
      apply IH. intros H. apply Hh. right; assumption.
Qed.

(** X20.  For images whose data URL is a header, a comma and the encoded
    bytes, neither holding a comma -- as [readAsDataURL] produces them --
    the request of a chat call holds, after at most one text part, one
    inline-data part per image, in the order of the images, with the
    image's MIME type and exactly the encoded bytes.  An image whose data
    URL has no comma is sent without data. *)
Theorem image_parts_carry_the_encoded_bytes :
  forall (API_KEY : option jsstring) (prompt : jsstring)
         (urls : list jsstring) (files : list ManagedFile.t)
         (modelName : jsstring) (data : list ImageData),
    truthy_opt API_KEY = true ->
    (forall d, In d data ->
               ~ In 44%N (image_header d) /\ ~ In 44%N (image_payload d)) ->
    (exists request k textParts,
        GeminiService.generateContentWithUrlContext API_KEY prompt urls files
          modelName (List.map attached data)
        = GeminiService.AwaitGenerateContent request k
        /\ GeminiService.parts request
           = textParts
             ++ List.map (fun d =>
                  GeminiService.inlineData (image_type d)
                    (Some (image_payload d))) data
        /\ length textParts <= 1)
    /\ (forall image,
        ~ In 44%N (AttachedImage.dataUrl image) ->
        imagePart image
        = GeminiService.inlineData (AttachedImage.type image) None).
Proof.
  intros key prompt urls files modelName data Hk Hdata. split.
  - destruct (chat_request key prompt urls files modelName
                (List.map attached data) Hk)
      as (request & k & E & _ & Hp & _).
    exists request, k. eexists. split; [exact E|]. split.
    + rewrite Hp. f_equal. rewrite map_map. apply map_ext_in.
      intros d Hd. destruct (Hdata d Hd) as [Hh Hpl].
      unfold imagePart, attached.
      cbn [AttachedImage.type AttachedImage.dataUrl app].
      rewrite (split_second_part 44%N _ _ Hh Hpl). reflexivity.
    + destruct (truthy _); simpl; lia.
  - intros image Hno. unfold imagePart.
    rewrite (split_no_separator 44%N _ Hno). reflexivity.
Qed.

Lemma image_parts_carry_the_encoded_bytes_witness :
  exists request k,
    GeminiService.generateContentWithUrlContext sampleKey [] [] []
      (js "gemini-2.5-flash") [attached sampleImage]
    = GeminiService.AwaitGenerateContent request k
    /\ GeminiService.parts request
       = [GeminiService.inlineData (js "image/png")
            (Some (js "iVBORw0KGgo="))].
Proof.
  destruct (image_parts_carry_the_encoded_bytes sampleKey [] [] []
              (js "gemini-2.5-flash") [sampleImage] eq_refl)
    as ((request & k & textParts & E & Hp & _) & _).
  - intros d [<- | []]. split; vm_compute; intuition discriminate.
  - exists request, k. split; [exact E|].
    vm_compute in E. inversion E; subst. reflexivity.
Defined.

(** X21.  However a chat call fails, the caller gets an [Error] with a
    message that is not empty -- so the orchestrator's fallback text for a
    missing message is never what the user reads: without a key the
    function rejects before any call with the key-not-configured message;
    and whatever the SDK call throws, an [Error] or anything else, the
    function rejects.  Whenever the SDK call returns, the function
    resolves with the text of the response. *)
Theorem chat_call_failures_carry_a_message :
  forall (API_KEY : option jsstring) (prompt : jsstring)
         (urls : list jsstring) (files : list ManagedFile.t)
         (modelName : jsstring) (images : list AttachedImage.t),
    (truthy_opt API_KEY = false ->
     GeminiService.generateContentWithUrlContext API_KEY prompt urls files
       modelName images
     = GeminiService.Reject
         (js "Gemini API Key not configured. Set process.env.API_KEY."))
    /\ (forall request k,
        GeminiService.generateContentWithUrlContext API_KEY prompt urls files
          modelName images
        = GeminiService.AwaitGenerateContent request k ->
        (forall error,
            exists message,
              k (inl error) = GeminiService.Reject message
              /\ message <> []
              /\ or_else (Some message) (js "Failed to get response from AI.")
                 = message)
        /\ (forall response,
            exists result,
              k (inr response) = GeminiService.Resolve result
              /\ GeminiResponse.text result
                 = GeminiService.response_text response)).
Proof.
  intros key prompt urls files modelName images.
  unfold GeminiService.generateContentWithUrlContext,
    GeminiService.getAiInstance.
  destruct (truthy_opt key); split; try discriminate; try reflexivity.
  intros request k E. cbv zeta in E. inversion E; subst; clear E. split.
  - intros error.
    destruct (GeminiService.isError error).
    + destruct (_ && _);
        [eexists; split; [reflexivity|];
         split; [discriminate | reflexivity]|].
      destruct (_ && _);
        [eexists; split; [reflexivity|];
         split; [discriminate | reflexivity]|].
      destruct (_ && _); eexists; (split; [reflexivity|]);
        (split; [discriminate | reflexivity]).
    + eexists. split; [reflexivity|]. split; [discriminate | reflexivity].
  - intros response. eexists. split; reflexivity.
Qed.

Lemma chat_call_failures_carry_a_message_witness :
  exists request k message,
    GeminiService.generateContentWithUrlContext sampleKey (js "hello") [] []
      (js "gemini-2.5-flash") []
    = GeminiService.AwaitGenerateContent request k
    /\ k (inl sampleThrown) = GeminiService.Reject message
    /\ message <> [].
Proof.
  destruct (GeminiService.generateContentWithUrlContext sampleKey (js "hello")
              [] [] (js "gemini-2.5-flash") []) as [r | m | request k] eqn:E;
    try (vm_compute in E; discriminate).
  destruct (proj2 (chat_call_failures_carry_a_message sampleKey (js "hello")
                     [] [] (js "gemini-2.5-flash") []) request k E)
    as [H _].
  destruct (H sampleThrown) as (message & Em & Hne & _).
  exists request, k, message. auto.
Defined.

(** X22.  The suggestion call shows the model the first 500 code units of
    each file and nothing beyond.  When there are files, the prompt is the
    prompt for the URLs alone followed by the heading of the files and, one
    per line, for each file in order its name and the first 500 code units
    of its content followed by three dots; so each of these occurs in the
    prompt.  The prompt, and so the whole call, is the same for the files as
    for the files cut to their first 500 code units.  With a credential and
    a source, the one request of the call is made with this prompt, for the
    model given, asking for JSON. *)
Theorem suggestion_prompt_shows_500_units_of_a_file :
  forall (API_KEY : option jsstring) (urls : list jsstring)
         (files : list ManagedFile.t) (modelName : jsstring),
    GeminiService.suggestionsPrompt urls files
    = GeminiService.suggestionsPrompt urls (List.map truncated files)
    /\ GeminiService.getInitialSuggestions API_KEY urls files modelName
       = GeminiService.getInitialSuggestions API_KEY urls
           (List.map truncated files) modelName
    /\ (files <> [] ->
        GeminiService.suggestionsPrompt urls files
        = GeminiService.suggestionsPrompt urls []
          ++ [10%N] ++ js "File Contents:" ++ [10%N]
          ++ join [10%N] (List.map filePreview files))
    /\ (forall f, In f files ->
        includes (filePreview f) (GeminiService.suggestionsPrompt urls files)
        = true)
    /\ (truthy_opt API_KEY = true ->
        urls <> [] \/ files <> [] ->
        exists k,
          GeminiService.getInitialSuggestions API_KEY urls files modelName
          = GeminiService.GenerateContent
              {| GeminiService.model := modelName;
                 GeminiService.promptText :=
                   GeminiService.suggestionsPrompt urls files;
                 GeminiService.responseMimeType :=
                   Some (js "application/json") |} k).
Proof.
  intros key urls files modelName.
  assert (Hshape : files <> [] ->
    GeminiService.suggestionsPrompt urls files
    = GeminiService.suggestionsPrompt urls []
      ++ [10%N] ++ js "File Contents:" ++ [10%N]
      ++ join [10%N] (List.map filePreview files)).
  { intros Hne. destruct files as [|f0 l]; [contradiction|].
    unfold GeminiService.suggestionsPrompt. cbv zeta.
    cbn [length Nat.ltb Nat.leb]. rewrite app_nil_r.
    rewrite <- !app_assoc. reflexivity. }
  assert (Hp : GeminiService.suggestionsPrompt urls files
               = GeminiService.suggestionsPrompt urls
                   (List.map truncated files)).
  { unfold GeminiService.suggestionsPrompt. cbv zeta.
    rewrite length_map, map_map.
    assert (Hm :
      List.map (fun f =>
        js "File: " ++ ManagedFile.name f ++ [10%N] ++ js "Content: "
        ++ substring0 500 (ManagedFile.content f) ++ js "...") files
      = List.map (fun x =>
          js "File: " ++ ManagedFile.name (truncated x) ++ [10%N]
          ++ js "Content: "
          ++ substring0 500 (ManagedFile.content (truncated x))
          ++ js "...") files).
    { apply map_ext. intros f. unfold truncated, substring0.
      cbn [ManagedFile.name ManagedFile.content].
      rewrite firstn_firstn, Nat.min_id. reflexivity. }
    rewrite Hm. reflexivity. }
  split; [exact Hp|]. split; [|split; [exact Hshape|split]].
  - unfold GeminiService.getInitialSuggestions.
    rewrite length_map, Hp. reflexivity.
  - intros f Hf. rewrite Hshape by (intros ->; contradiction).
    destruct (join_holds [10%N] (List.map filePreview files) (filePreview f)
                (in_map filePreview files f Hf)) as (a & b & ->).
    replace (GeminiService.suggestionsPrompt urls [] ++ [10%N]
             ++ js "File Contents:" ++ [10%N] ++ a ++ filePreview f ++ b)
      with ((GeminiService.suggestionsPrompt urls [] ++ [10%N]
             ++ js "File Contents:" ++ [10%N] ++ a) ++ filePreview f ++ b)
      by (rewrite <- !app_assoc; reflexivity).
    apply includes_middle.
  - intros Hk Hsrc. unfold GeminiService.getInitialSuggestions,
      GeminiService.getAiInstance. rewrite Hk.
    replace ((length urls =? 0) && (length files =? 0)) with false.
    + eexists. reflexivity.
    + destruct urls; [|reflexivity]. destruct files; [|reflexivity].
      destruct Hsrc as [H | H]; contradiction H; reflexivity.
Qed.

Lemma suggestion_prompt_shows_500_units_of_a_file_witness :
  includes (filePreview longFile)
    (GeminiService.suggestionsPrompt [js "https://x.test/doc"] [longFile])
  = true
  /\ filePreview longFile
     = js "File: long.txt" ++ [10%N] ++ js "Content: " ++ repeat 97%N 500
       ++ js "..."
  /\ includes (repeat 97%N 501)
       (GeminiService.suggestionsPrompt [js "https://x.test/doc"] [longFile])
     = false.
Proof.
  destruct (suggestion_prompt_shows_500_units_of_a_file None
              [js "https://x.test/doc"] [longFile] (js "gemini-2.5-flash"))
    as (_ & _ & _ & H & _).
  split; [apply H; left; reflexivity|].
  split; vm_compute; reflexivity.
Defined.

(** ** The suggestion call of the service *)

(** X23.  However a suggestion call fails, the caller gets an [Error] with
    a message that is not empty: with a source and no key the function
    rejects before any call with the key-not-configured message, and
    whatever the SDK call throws, the function rejects; whenever the SDK
    call returns, the function resolves with the text of the response and
    no URL metadata. *)
Theorem suggestion_call_failures_carry_a_message :
  forall (API_KEY : option jsstring) (urls : list jsstring)
         (files : list ManagedFile.t) (modelName : jsstring),
    (truthy_opt API_KEY = false -> urls <> [] \/ files <> [] ->
     GeminiService.getInitialSuggestions API_KEY urls files modelName
     = GeminiService.Throw
         (js "Gemini API Key not configured. Set process.env.API_KEY."))
    /\ (forall request k,
        GeminiService.getInitialSuggestions API_KEY urls files modelName
        = GeminiService.GenerateContent request k ->
        GeminiService.model request = modelName
        /\ GeminiService.responseMimeType request
           = Some (js "application/json")
        /\ (forall error,
            exists message,
              k (inl error) = GeminiService.Throw message
              /\ message <> []
              /\ or_else (Some message)
                   (js "Failed to fetch initial suggestions.") = message)
        /\ (forall text,
            k (inr text)
            = GeminiService.Return (GeminiResponse.mk text None))).
Proof.
  intros key urls files modelName.
  unfold GeminiService.getInitialSuggestions, GeminiService.getAiInstance.
  split.
  - intros Hk Hsrc. rewrite Hk.
    destruct urls as [|u us]; [|reflexivity].
    destruct files as [|f fs]; [|reflexivity].
    destruct Hsrc; congruence.
  - intros request k E.
    destruct (_ && _); [discriminate|].
    destruct (truthy_opt key); [|discriminate].
    inversion E; subst; clear E. repeat split.
    intros error. destruct (GeminiService.instanceofError error).
    + destruct (_ && _);
        [eexists; split; [reflexivity|];
         split; [discriminate | reflexivity]|].
      destruct (_ && _); eexists; (split; [reflexivity|]);
        (split; [discriminate | reflexivity]).
    + eexists. split; [reflexivity|]. split; [discriminate | reflexivity].
Qed.

Lemma suggestion_call_failures_carry_a_message_witness :
  exists request k message,
    GeminiService.getInitialSuggestions sampleKey [js "https://x.test/doc"]
      [] (js "gemini-2.5-flash")
    = GeminiService.GenerateContent request k
    /\ k (inl sampleSuggestionThrown) = GeminiService.Throw message
    /\ message <> [].
Proof.
  destruct (GeminiService.getInitialSuggestions sampleKey
              [js "https://x.test/doc"] [] (js "gemini-2.5-flash"))
    as [r | m | request k] eqn:E; try (vm_compute in E; discriminate).
  destruct (proj2 (suggestion_call_failures_carry_a_message sampleKey
                     [js "https://x.test/doc"] [] (js "gemini-2.5-flash"))
              request k E) as (_ & _ & H & _).
  destruct (H sampleSuggestionThrown) as (message & Em & Hne & _).
  exists request, k, message. auto.
Defined.

(** ** The key kept in the browser *)

Lemma getItem_removeItem (key k : jsstring) (storage : LocalStorage.t) :
  LocalStorage.getItem k (LocalStorage.removeItem key storage)
  = if eqb k key then None else LocalStorage.getItem k storage.
Proof.
  unfold LocalStorage.removeItem.
  induction storage as [|[k0 v] l IH]; simpl.
  - destruct (eqb k key); reflexivity.
  - destruct (eqb k0 key) eqn:E0; simpl.
    + rewrite IH. destruct (eqb k key) eqn:E; [reflexivity|].
      destruct (eqb k0 k) eqn:E1; [|reflexivity].
      apply eqb_eq in E0, E1. subst. rewrite eqb_refl in E. discriminate.
    + rewrite IH. destruct (eqb k0 k) eqn:E1; [|reflexivity].
      apply eqb_eq in E1. subst. rewrite E0. reflexivity.
Qed.

Lemma getItem_setItem (key value k : jsstring) (storage : LocalStorage.t) :
  LocalStorage.getItem k (LocalStorage.setItem key value storage)
  = if eqb k key then Some value else LocalStorage.getItem k storage.
Proof.
  unfold LocalStorage.setItem. cbn [LocalStorage.getItem].
  rewrite getItem_removeItem, (eqb_sym key k).
  destruct (eqb k key); reflexivity.
Qed.

Lemma getItem_apiKeyEffect (apiKey k : jsstring) (storage : LocalStorage.t) :
  LocalStorage.getItem k (StoredKey.apiKeyEffect apiKey storage)
  = if eqb k (js "gemini-api-key")
    then match apiKey with [] => None | _ :: _ => Some apiKey end
    else LocalStorage.getItem k storage.
Proof.
  unfold StoredKey.apiKeyEffect. destruct apiKey as [|c s]; cbn [truthy].
  - apply getItem_removeItem.
  - apply getItem_setItem.
Qed.

Lemma initialApiKey_apiKeyEffect (apiKey : jsstring)
  (storage : LocalStorage.t) :
  StoredKey.initialApiKey (StoredKey.apiKeyEffect apiKey storage) = apiKey.
Proof.
  unfold StoredKey.initialApiKey. rewrite getItem_apiKeyEffect, eqb_refl.
  destruct apiKey; reflexivity.
Qed.

Lemma last_nonempty (A : Type) (x y : A) (l : list A) (d d' : A) :
  last (x :: l) d = last (y :: x :: l) d'.
Proof.
  cbn [last]. revert x. induction l as [|z l IH]; intros x; [reflexivity|].
  cbn [last]. apply IH.
Qed.

Lemma setApiKey_kept (key : jsstring) (st : StoredKey.State) :
  StoredKey.initialApiKey (StoredKey.localStorage st) = StoredKey.apiKey st ->
  StoredKey.apiKey (StoredKey.setApiKey key st) = key
  /\ StoredKey.initialApiKey
       (StoredKey.localStorage (StoredKey.setApiKey key st)) = key
  /\ forall k, k <> js "gemini-api-key" ->
       LocalStorage.getItem k
         (StoredKey.localStorage (StoredKey.setApiKey key st))
       = LocalStorage.getItem k (StoredKey.localStorage st).
Proof.
  intros Hinv. unfold StoredKey.setApiKey.
  destruct (eqb key (StoredKey.apiKey st)) eqn:E.
  - apply eqb_eq in E. rewrite Hinv, <- E. auto.
  - cbn [StoredKey.apiKey StoredKey.localStorage].
    rewrite initialApiKey_apiKeyEffect. repeat split.
    intros k Hk. rewrite getItem_apiKeyEffect.
    apply eqb_neq in Hk. rewrite Hk. reflexivity.
Qed.

(** X24.  A saved key survives a reload.  After the first render on any
    content of [localStorage] and any sequence of clicks on the panel's save
    button, the key in the state is the last input, trimmed (or the key
    found at the start when nothing was saved); the browser holds exactly
    that key -- a fresh start on the storage as it is now begins with it --
    and holds none when it is empty; and no other entry of the storage has
    been touched. *)
Theorem saved_key_survives_reload :
  forall (storage : LocalStorage.t) (inputs : list jsstring),
    let st := savedKeys storage inputs in
    StoredKey.apiKey st
    = last (List.map trim inputs) (StoredKey.initialApiKey storage)
    /\ StoredKey.apiKey (StoredKey.mount (StoredKey.localStorage st))
       = StoredKey.apiKey st
    /\ (StoredKey.apiKey st = [] ->
        LocalStorage.getItem (js "gemini-api-key") (StoredKey.localStorage st)
        = None)
    /\ (forall k, k <> js "gemini-api-key" ->
        LocalStorage.getItem k (StoredKey.localStorage st)
        = LocalStorage.getItem k storage).
Proof.
  intros storage inputs. cbv zeta. unfold savedKeys.
  assert (Hgen : forall st0,
    StoredKey.initialApiKey (StoredKey.localStorage st0)
    = StoredKey.apiKey st0 ->
    (StoredKey.apiKey st0 = [] ->
     LocalStorage.getItem (js "gemini-api-key") (StoredKey.localStorage st0)
     = None) ->
    let st :=
      List.fold_left (fun st input => StoredKey.saveApiKey input st) inputs
        st0 in
    StoredKey.apiKey st = last (List.map trim inputs) (StoredKey.apiKey st0)
    /\ StoredKey.initialApiKey (StoredKey.localStorage st)
       = StoredKey.apiKey st
    /\ (StoredKey.apiKey st = [] ->
        LocalStorage.getItem (js "gemini-api-key") (StoredKey.localStorage st)
        = None)
    /\ (forall k, k <> js "gemini-api-key" ->
        LocalStorage.getItem k (StoredKey.localStorage st)
        = LocalStorage.getItem k (StoredKey.localStorage st0))).
  { induction inputs as [|input l IH]; intros st0 Hinv Hnone; cbv zeta.
    - simpl. auto.
    - cbn [List.fold_left List.map].
      destruct (setApiKey_kept (trim input) st0 Hinv) as (Ha & Hi & Ho).
      assert (Hnone' :
        StoredKey.apiKey (StoredKey.saveApiKey input st0) = [] ->
        LocalStorage.getItem (js "gemini-api-key")
          (StoredKey.localStorage (StoredKey.saveApiKey input st0)) = None).
      { unfold StoredKey.saveApiKey, KnowledgeBaseManager.handleSaveApiKey,
          StoredKey.setApiKey.
        destruct (eqb (trim input) (StoredKey.apiKey st0)); [exact Hnone|].
        cbn [StoredKey.apiKey StoredKey.localStorage]. intros ->.
        rewrite getItem_apiKeyEffect, eqb_refl. reflexivity. }
      destruct (IH (StoredKey.saveApiKey input st0)) as (H1 & H2 & H3 & H4).
      + unfold StoredKey.saveApiKey, KnowledgeBaseManager.handleSaveApiKey.
        rewrite Ha, Hi. reflexivity.
      + exact Hnone'.
      + cbv zeta in H1, H2, H3, H4. split; [|split; [|split]].
        * rewrite H1. unfold StoredKey.saveApiKey,
            KnowledgeBaseManager.handleSaveApiKey. rewrite Ha.
          destruct l as [|j l]; [reflexivity|].
          cbn [List.map]. apply last_nonempty.
        * exact H2.
        * exact H3.
        * intros k Hk. rewrite (H4 k Hk). apply Ho. exact Hk. }
  destruct (Hgen (StoredKey.mount storage)) as (H1 & H2 & H3 & H4).
  - unfold StoredKey.mount. cbv zeta.
    cbn [StoredKey.apiKey StoredKey.localStorage].
    apply initialApiKey_apiKeyEffect.
  - unfold StoredKey.mount. cbv zeta.
    cbn [StoredKey.apiKey StoredKey.localStorage]. intros E.
    rewrite getItem_apiKeyEffect, eqb_refl, E. reflexivity.
  - cbv zeta in H1, H2, H3, H4. split; [|split; [|split]].
    + exact H1.
    + unfold StoredKey.mount at 1. cbv zeta. cbn [StoredKey.apiKey].
      exact H2.
    + exact H3.
    + intros k Hk. rewrite (H4 k Hk). unfold StoredKey.mount. cbv zeta.
      cbn [StoredKey.localStorage]. rewrite getItem_apiKeyEffect.
      apply eqb_neq in Hk. rewrite Hk. reflexivity.
Qed.

Lemma saved_key_survives_reload_witness :
  StoredKey.apiKey
    (StoredKey.mount
       (StoredKey.localStorage
          (savedKeys sampleStorage [js "  new-key "])))
  = js "new-key"
  /\ LocalStorage.getItem (js "gemini-api-key")
       (StoredKey.localStorage (savedKeys sampleStorage [js "   "])) = None
  /\ LocalStorage.getItem (js "theme")
       (StoredKey.localStorage (savedKeys sampleStorage [js "   "]))
     = Some (js "dark").
Proof.
  destruct (saved_key_survives_reload sampleStorage [js "  new-key "])
    as (H1 & H2 & _).
  destruct (saved_key_survives_reload sampleStorage [js "   "])
    as (_ & _ & H3 & H4).
  cbv zeta in *. split; [|split].
  - rewrite H2, H1. reflexivity.
  - apply H3. reflexivity.
  - rewrite H4; [reflexivity | discriminate].
Defined.

(** ** When suggestions are shown *)

Lemma nonSystem_app (a b : list ChatMessage.t) :
  nonSystem (a ++ b) = nonSystem a ++ nonSystem b.
Proof. apply filter_app. Qed.

Lemma nonSystem_of_system (l : list ChatMessage.t) :
  Forall (fun m => ChatMessage.sender m = SYSTEM) l -> nonSystem l = [].
Proof.
  induction 1 as [|m l Hm _ IH]; [reflexivity|].
  unfold nonSystem in *. simpl. rewrite Hm. exact IH.
Qed.

(** X25.  The suggestions are hidden for good once the conversation holds
    two messages that are not from the system (a question and its answer):
    whatever is appended later and whatever list a later suggestion call
    sets, [showSuggestions] is false.  Messages of the system do not count:
    appending them changes nothing.  And right after a send that
    [handleSendMessage] lets through nothing is shown, the list having been
    cleared; so it is after a click on a suggestion, which is sent as it
    is, with no image. *)
Theorem suggestions_hidden_after_an_exchange :
  forall (suggestions : option (list jsstring))
         (messages more : list ChatMessage.t),
    (2 <= length (nonSystem messages) ->
     ChatInterface.showSuggestions suggestions (messages ++ more) = false)
    /\ (Forall (fun m => ChatMessage.sender m = SYSTEM) more ->
        ChatInterface.showSuggestions suggestions (messages ++ more)
        = ChatInterface.showSuggestions suggestions messages)
    /\ (forall API_KEY clock query images st st1 call,
        App.handleSendMessage API_KEY clock query images st
        = (st1, Some call) ->
        ChatInterface.showSuggestions
          (Some (App.initialQuerySuggestions st1)) (App.chatMessages st1)
        = false)
    /\ (forall API_KEY clock query st st1 call,
        App.handleSuggestedQueryClick API_KEY clock query st
        = (st1, Some call) ->
        App.send_query call = query
        /\ App.send_images call = []
        /\ ChatInterface.showSuggestions
             (Some (App.initialQuerySuggestions st1)) (App.chatMessages st1)
           = false).
Proof.
  intros suggestions messages more.
  assert (Hsent : forall API_KEY clock query images st st1 call,
    App.handleSendMessage API_KEY clock query images st = (st1, Some call) ->
    App.send_query call = query
    /\ App.send_images call = images
    /\ ChatInterface.showSuggestions
         (Some (App.initialQuerySuggestions st1)) (App.chatMessages st1)
       = false).
  { intros key clock query images st st1 call Hsend.
    unfold App.handleSendMessage in Hsend.
    destruct (_ || _); [discriminate|].
    destruct (negb _); [discriminate|].
    cbv zeta in Hsend. inversion Hsend; subst. repeat split. }
  unfold ChatInterface.showSuggestions.
  fold (nonSystem (messages ++ more)). fold (nonSystem messages).
  rewrite nonSystem_app, length_app. split; [|split; [|split]].
  - intros H. destruct suggestions as [l|]; [|reflexivity].
    destruct (Nat.leb_spec
                (length (nonSystem messages) + length (nonSystem more)) 1);
      [lia|]. apply andb_false_r.
  - intros H. rewrite (nonSystem_of_system more H). cbn [length].
    rewrite Nat.add_0_r. reflexivity.
  - intros key clock query images st st1 call Hsend.
    apply (Hsent key clock query images st st1 call Hsend).
  - intros key clock query st st1 call Hsend.
    apply (Hsent key clock query [] st st1 call Hsend).
Qed.

Lemma suggestions_hidden_after_an_exchange_witness :
  ChatInterface.showSuggestions (Some [js "A?"])
    (App.chatMessages
       (App.state
          (run_from_init sampleKey
             (sendTrace ++ at_sample_clock [App.SendSettled 0 sampleAnswer])))
     ++ [])
  = false.
Proof.
  apply (proj1 (suggestions_hidden_after_an_exchange (Some [js "A?"])
                  (App.chatMessages
                     (App.state
                        (run_from_init sampleKey
                           (sendTrace
                            ++ at_sample_clock
                                 [App.SendSettled 0 sampleAnswer]))))
                  [])).
  vm_compute. lia.
Defined.

(** ** The settling of a suggestion call *)

(** X26.  When a suggestion call settles, the groups, the active group,
    the model and [isLoading] are left alone and [isFetchingSuggestions] is
    cleared; the transcript keeps every message and grows by at most one
    notice, which is from the system.  After a response, the suggestions
    offered are those read from its text -- at most four -- and the notice
    is there exactly when the text is not empty and cannot be parsed or has
    no array of suggestions; after a failure the suggestions stay as they
    were and the notice reports the error. *)
Theorem settled_suggestion_call_appends_at_most_a_notice :
  forall (JSON_parse : jsstring -> option JSON.value) (clock : nat -> N)
         (r : App.Settlement) (st : App.State),
    let st' := App.fetchAndSetInitialSuggestions_settled JSON_parse clock r st
    in
    App.knowledgeGroups st' = App.knowledgeGroups st
    /\ App.activeGroupId st' = App.activeGroupId st
    /\ App.selectedModel st' = App.selectedModel st
    /\ App.isLoading st' = App.isLoading st
    /\ App.isFetchingSuggestions st' = false
    /\ exists notice,
        App.chatMessages st' = App.chatMessages st ++ notice
        /\ length notice <= 1
        /\ Forall (fun m => ChatMessage.sender m = SYSTEM
                            /\ loading m = false) notice
        /\ match r with
           | App.resolved response =>
               App.initialQuerySuggestions st'
               = App.suggestionsOfText JSON_parse
                   (GeminiResponse.text response)
               /\ length (App.initialQuerySuggestions st') <= 4
               /\ (notice = [] <->
                   match GeminiResponse.text response with
                   | Some (c :: t) =>
                       exists l,
                         App.parseSuggestions JSON_parse (c :: t)
                         = App.suggestionsArray l
                   | _ => True
                   end)
           | App.threw message =>
               App.initialQuerySuggestions st'
               = App.initialQuerySuggestions st
               /\ exists m,
                   notice = [m]
                   /\ ChatMessage.text m
                      = js "Error fetching suggestions: "
                        ++ or_else message
                             (js "Failed to fetch initial suggestions.")
           end.
Proof.
  intros parse clock r st. cbv zeta.
  unfold App.fetchAndSetInitialSuggestions_settled, App.suggestionsOfText.
  destruct r as [response | message].
  - destruct (GeminiResponse.text response) as [[|c t]|].
    + do 5 (split; [reflexivity|]). exists []. rewrite app_nil_r.
      split; [reflexivity|]. split; [simpl; lia|]. split; [constructor|].
      split; [reflexivity|]. split; [simpl; lia|]. tauto.
    + destruct (App.parseSuggestions parse (c :: t)) as [l| |] eqn:Ep.
      * do 5 (split; [reflexivity|]). exists []. rewrite app_nil_r.
        split; [reflexivity|]. split; [simpl; lia|]. split; [constructor|].
        split; [reflexivity|]. split.
        -- cbn [App.initialQuerySuggestions App.setIsFetchingSuggestions
                App.setInitialQuerySuggestions].
           rewrite length_firstn. lia.
        -- split; [eauto | reflexivity].
      * do 5 (split; [reflexivity|]). eexists. split; [reflexivity|].
        split; [simpl; lia|]. split; [repeat constructor|].
        split; [reflexivity|]. split; [simpl; lia|].
        split; [discriminate | intros (l & Hl); discriminate].
      * do 5 (split; [reflexivity|]). eexists. split; [reflexivity|].
        split; [simpl; lia|]. split; [repeat constructor|].
        split; [reflexivity|]. split; [simpl; lia|].
        split; [discriminate | intros (l & Hl); discriminate].
    + do 5 (split; [reflexivity|]). exists []. rewrite app_nil_r.
      split; [reflexivity|]. split; [simpl; lia|]. split; [constructor|].
      split; [reflexivity|]. split; [simpl; lia|]. tauto.
  - do 5 (split; [reflexivity|]). eexists. split; [reflexivity|].
    split; [simpl; lia|]. split; [repeat constructor|].
    split; [reflexivity|]. eexists. split; reflexivity.
Qed.

(** ** An import that goes through *)

Lemma NoDup_map_filter (A B : Type) (f : A -> B) (p : A -> bool)
  (l : list A) :
  NoDup (List.map f l) -> NoDup (List.map f (List.filter p l)).
Proof.
  induction l as [|x l IH]; simpl; intros ND; [constructor|].
  inversion ND as [|? ? Hnot ND']; subst.
  destruct (p x); simpl; [constructor|]; auto.
  intros Hin. apply Hnot. apply in_map_iff in Hin as (y & E & Hy).
  apply filter_In in Hy. apply in_map_iff. exists y. tauto.
Qed.

Lemma filesToProcess_fresh (p : KnowledgeBaseManager.Props)
  (selected : list KnowledgeBaseManager.File.t) :
  (forall f, In f selected ->
             ~ In (KnowledgeBaseManager.File.name f)
                 (file_names (KnowledgeBaseManager.files p))) ->
  KnowledgeBaseManager.filesToProcess p selected = selected.
Proof.
  intros H. unfold KnowledgeBaseManager.filesToProcess. apply filter_all.
  intros f Hf. rewrite existsb_name_includes.
  apply negb_true_iff, array_includes_not_In. apply H. assumption.
Qed.

Lemma afterGroups_kb_error (key : option jsstring) (clock : nat -> N)
  (b : bool) (w : App.World)
  (f : list KnowledgeGroup.t -> list KnowledgeGroup.t) :
  App.kb_error (App.afterGroups key clock b w f) = App.kb_error w.
Proof. unfold App.afterGroups. cbv zeta. destruct b; reflexivity. Qed.

(** X27.  An import that fits goes through.  For a selection of files with
    distinct names, none of which the active group holds, that fits under
    the cap together with the sources of the group, and whose reads settle
    before anything else happens: the files of the group become the files
    it had followed by the files that could be read, in the order of the
    selection; its URLs stay; and the error shown lists the files that
    could not be read, or is cleared when all could. *)
Theorem import_that_fits_appends_the_read_files :
  forall (X : KnowledgeBaseManager.Extractors) (API_KEY : option jsstring)
         (clock : nat -> N) (w : App.World) (g : KnowledgeGroup.t)
         (selectedFiles : list KnowledgeBaseManager.File.t),
    App.activeGroup (App.knowledgeGroups (App.state w))
      (App.activeGroupId (App.state w)) = Some g ->
    NoDup (file_names (KnowledgeGroup.files g)) ->
    selectedFiles <> [] ->
    NoDup (List.map KnowledgeBaseManager.File.name selectedFiles) ->
    (forall f, In f selectedFiles ->
               ~ In (KnowledgeBaseManager.File.name f)
                   (file_names (KnowledgeGroup.files g))) ->
    length (KnowledgeGroup.urls g) + length (KnowledgeGroup.files g)
    + length selectedFiles <= App.MAX_SOURCES ->
    let results :=
      List.map (KnowledgeBaseManager.readPromise X) selectedFiles in
    exists w',
      App.step X API_KEY clock (App.ImportFiles selectedFiles) w = Some w'
      /\ App.activeGroupId (App.state w') = App.activeGroupId (App.state w)
      /\ App.currentFiles (App.knowledgeGroups (App.state w'))
           (App.activeGroupId (App.state w'))
         = KnowledgeGroup.files g
           ++ KnowledgeBaseManager.successfulFiles results
      /\ App.currentUrls (App.knowledgeGroups (App.state w'))
           (App.activeGroupId (App.state w'))
         = KnowledgeGroup.urls g
      /\ App.kb_error w'
         = match KnowledgeBaseManager.errorMessages results with
           | [] => None
           | _ :: _ =>
               Some (js "Import errors: "
                     ++ join (js ", ")
                          (KnowledgeBaseManager.errorMessages results)
                     ++ js ".")
           end.
Proof.
  intros X key clock w g selected Hg NDg Hne NDs Hfresh Hfit. cbv zeta.
  assert (Hprops : App.props (App.state w)
                   = {| KnowledgeBaseManager.urls := KnowledgeGroup.urls g;
                        KnowledgeBaseManager.files := KnowledgeGroup.files g;
                        KnowledgeBaseManager.maxSources := App.MAX_SOURCES |}).
  { unfold App.props, App.currentUrls, App.currentFiles. rewrite Hg.
    reflexivity. }
  assert (Hcheck : forall error0,
    KnowledgeBaseManager.handleFileChange_check (App.props (App.state w))
      error0 selected = (None, Some selected)).
  { intros error0. rewrite Hprops.
    unfold KnowledgeBaseManager.handleFileChange_check.
    destruct selected as [|f l] eqn:Es; [congruence|]. rewrite <- Es in *.
    unfold KnowledgeBaseManager.totalSources.
    cbn [KnowledgeBaseManager.urls KnowledgeBaseManager.files
         KnowledgeBaseManager.maxSources].
    assert (Hpos : 0 < length selected) by (rewrite Es; simpl; lia).
    destruct (Nat.leb_spec App.MAX_SOURCES
                (length (KnowledgeGroup.urls g)
                 + length (KnowledgeGroup.files g))); [lia|].
    cbv zeta. rewrite filesToProcess_fresh by exact Hfresh.
    destruct (Nat.ltb_spec App.MAX_SOURCES
                (length (KnowledgeGroup.urls g)
                 + length (KnowledgeGroup.files g) + length selected));
      [lia|]. reflexivity. }
  unfold App.step. cbv zeta. rewrite Hcheck. cbn [fst snd].
  eexists. split; [reflexivity|].
  unfold App.filesRead. cbv zeta. cbn [fst snd App.kb_error App.set_kb_error].
  unfold KnowledgeBaseManager.handleFileChange_settled. cbv zeta.
  cbn [KnowledgeBaseManager.onAddFiles KnowledgeBaseManager.error].
  set (results := List.map (KnowledgeBaseManager.readPromise X) selected).
  destruct (KnowledgeBaseManager.successfulFiles results) as [|s0 ss] eqn:Es.
  - cbn [App.state App.kb_error App.set_kb_error].
    unfold App.currentFiles, App.currentUrls. rewrite Hg, app_nil_r.
    repeat split.
  - rewrite <- Es. rewrite afterGroups_kb_error.
    match goal with
    | |- context [App.afterGroups ?k ?c ?b ?w0 ?f] =>
        destruct (afterGroups_groups k c b w0 f) as [-> ->]
    end.
    cbn [App.state App.kb_error App.set_kb_error].
    unfold App.currentFiles, App.currentUrls, App.handleAddFiles.
    rewrite activeGroup_map by (intros g0; destruct (eqb _ _); reflexivity).
    rewrite Hg. cbn [option_map].
    rewrite (activeGroup_id _ _ _ Hg), eqb_refl.
    cbn [KnowledgeGroup.files KnowledgeGroup.urls].
    repeat split.
    rewrite uniqueFiles_firstByName. apply firstByName_id; [|intros ? _ []].
    unfold file_names. rewrite map_app. apply NoDup_app.
    + exact NDg.
    + fold (file_names (KnowledgeBaseManager.successfulFiles results)).
      unfold results. rewrite successful_names.
      apply NoDup_map_filter. exact NDs.
    + intros n Hn Hn'.
      fold (file_names (KnowledgeBaseManager.successfulFiles results)) in Hn'.
      unfold results in Hn'. rewrite successful_names in Hn'.
      apply in_map_iff in Hn' as (f & <- & Hf). apply filter_In in Hf.
      apply (Hfresh f); tauto.
Qed.

Lemma import_that_fits_appends_the_read_files_witness :
  exists w',
    App.step sampleExtractors sampleKey sampleClock
      (App.ImportFiles [sampleFile "a.txt" "A"; sampleFile "old.doc" "D"])
      (App.init sampleKey sampleClock) = Some w'
    /\ App.currentFiles (App.knowledgeGroups (App.state w'))
         (App.activeGroupId (App.state w'))
       = [ManagedFile.mk (js "a.txt") (js "A")]
    /\ App.kb_error w'
       = Some (js "Import errors: .doc is not supported.").
Proof.
  destruct (import_that_fits_appends_the_read_files sampleExtractors sampleKey
              sampleClock (App.init sampleKey sampleClock)
              (KnowledgeGroup.mk (js "gemini-overview")
                 (js "Gemini Docs Overview") App.GEMINI_DOCS_URLS [])
              [sampleFile "a.txt" "A"; sampleFile "old.doc" "D"])
    as (w' & Hstep & _ & Hf & _ & He).
  - reflexivity.
  - constructor.
  - discriminate.
  - apply distinctb_NoDup. reflexivity.
  - intros f _ [].
  - vm_compute. lia.
  - exists w'. split; [exact Hstep|]. split; [exact Hf | exact He].
Defined.

(** ** The texts that name the active group *)

(** X30.  The fallbacks for a missing active group are never shown.  In
    every world the component reaches the active group exists and bears one
    of the two initial names, so the panel's [activeGroupName] is that name
    and not "Unknown Group", the chat panel's placeholder asks about that
    name (or asks for sources when the group has none) and not about
    "current documents", and with a key the welcome message names it and
    not "None". *)
Theorem missing_group_fallbacks_are_never_shown :
  forall (X : KnowledgeBaseManager.Extractors) (API_KEY : option jsstring)
         (w : App.World),
    App.reachable X API_KEY w ->
    exists g,
      App.activeGroup (App.knowledgeGroups (App.state w))
        (App.activeGroupId (App.state w)) = Some g
      /\ (KnowledgeGroup.name g = js "Gemini Docs Overview"
          \/ KnowledgeGroup.name g = js "Model Capabilities")
      /\ KnowledgeBaseManager.activeGroupName
           (App.knowledgeGroups (App.state w))
           (App.activeGroupId (App.state w))
         = KnowledgeGroup.name g
      /\ App.chatPlaceholder (App.state w)
         = (if 0 <? length (KnowledgeGroup.urls g)
                    + length (KnowledgeGroup.files g)
            then js "Ask about " ++ GeminiService.dq ++ KnowledgeGroup.name g
                 ++ GeminiService.dq ++ js "..."
            else js "Select a group and add sources to the knowledge base to enable chat.")
      /\ (truthy_opt API_KEY = true ->
          forall clock,
            List.map ChatMessage.text
              (App.chatMessages
                 (App.welcomeEffect API_KEY clock (App.state w)))
            = [js "Welcome to Documentation Browser! You're currently browsing content from: "
               ++ GeminiService.dq ++ KnowledgeGroup.name g
               ++ GeminiService.dq
               ++ js ". Just ask me questions, or try one of the suggestions below to get started"]).
Proof.
  intros X key w Hreach.
  destruct (reachable_keeps_groups_fixed X key w Hreach)
    as (_ & Hname & Hact).
  destruct (activeGroup_of_id _ _ Hact) as (g & Hg & Hin & _).
  exists g. split; [exact Hg|].
  assert (Hn : KnowledgeGroup.name g = js "Gemini Docs Overview"
               \/ KnowledgeGroup.name g = js "Model Capabilities").
  { apply (in_map KnowledgeGroup.name) in Hin. rewrite Hname in Hin.
    destruct Hin as [<- | [<- | []]]; auto. }
  assert (Hor : forall d,
    or_else (option_map KnowledgeGroup.name (Some g)) d
    = KnowledgeGroup.name g).
  { intros d. cbn [option_map]. destruct Hn as [-> | ->]; reflexivity. }
  split; [exact Hn|]. split; [|split].
  - unfold KnowledgeBaseManager.activeGroupName.
    unfold App.activeGroup in Hg. rewrite Hg. apply Hor.
  - unfold App.chatPlaceholder, App.currentUrls, App.currentFiles.
    rewrite Hg, Hor. reflexivity.
  - intros Hk clock. unfold App.welcomeEffect. cbv zeta.
    rewrite Hk, Hg, Hor. reflexivity.
Qed.

Lemma missing_group_fallbacks_are_never_shown_witness :
  exists g,
    App.activeGroup
      (App.knowledgeGroups (App.state (run_from_init sampleKey fillTrace)))
      (App.activeGroupId (App.state (run_from_init sampleKey fillTrace)))
    = Some g
    /\ KnowledgeBaseManager.activeGroupName
         (App.knowledgeGroups (App.state (run_from_init sampleKey fillTrace)))
         (App.activeGroupId (App.state (run_from_init sampleKey fillTrace)))
       = KnowledgeGroup.name g.
Proof.
  assert (Hreach : App.reachable sampleExtractors sampleKey
                     (run_from_init sampleKey fillTrace)).
  { exists sampleClock, fillTrace. vm_compute. reflexivity. }
  destruct (missing_group_fallbacks_are_never_shown sampleExtractors
              sampleKey _ Hreach) as (g & Hg & _ & Hn & _).
  exists g. split; [exact Hg | exact Hn].
Defined.

Lemma reachable_names_ok_witness :
  Forall (fun g => NoDup (file_names (KnowledgeGroup.files g)))
    (App.knowledgeGroups (App.state (run_from_init sampleKey staleTrace))).
Proof.
  apply (reachable_names_ok sampleExtractors sampleKey).
  exists sampleClock, staleTrace. vm_compute. reflexivity.
Defined.
